(** * BrowserCacheManager: a shallow embedding and its verified properties

    The development follows [BrowserCacheManager] (the credential cache
    manager of the authentication client) method by method.  Mutable
    browser state is an explicit [World]; a method that can throw runs in
    the small state-and-exception monad [M].  Everything the class imports
    from other packages (JSON, the crypto provider, entity shape checks,
    key-name constants) is collected in the interface [Host]. *)

From Stdlib Require Import String Ascii List Bool Arith Lia DecimalString.
Import ListNotations.
Open Scope string_scope.
Open Scope list_scope.

Set Implicit Arguments.
Set Warnings "-register-all".

(** ** JavaScript primitives used by the class *)

Module JS.

(** [!!v] for a [string | null] value: the empty string is falsy. *)
Definition truthy (v : option string) : bool :=
  match v with
  | Some s => negb (s =? "")
  | None => false
  end.

(** [v || null]: what a truthiness test lets through. *)
Definition nonEmpty (v : option string) : option string :=
  if truthy v then v else None.

(** [s.indexOf(sub)], with [None] for [-1]. *)
Definition indexOf (s sub : string) : option nat := index 0 sub s.

(** [s.indexOf(sub) !== -1] *)
Definition includes (s sub : string) : bool :=
  match indexOf s sub with Some _ => true | None => false end.

(** [StringUtils.startsWith(s, p)] *)
Definition startsWith (s p : string) : bool := prefix p s.

(** [a.indexOf(x)] on an array of strings. *)
Fixpoint Array_indexOf (a : list string) (x : string) : option nat :=
  match a with
  | [] => None
  | y :: a' =>
      if y =? x then Some 0
      else match Array_indexOf a' x with
           | Some i => Some (S i)
           | None => None
           end
  end.

(** [a.splice(i, 1)]: the array without its element at index [i]. *)
Definition splice1 (a : list string) (i : nat) : list string :=
  firstn i a ++ skipn (S i) a.

(** [a.push(x)] *)
Definition push (a : list string) (x : string) : list string := a ++ [x].

(** [`${v}`] for a [string | undefined] value. *)
Definition template (v : option string) : string :=
  match v with
  | Some s => s
  | None => "undefined"
  end.

End JS.

(** ** JSON values *)

Inductive json : Type :=
| JNull
| JBool (b : bool)
| JNum (n : nat)
| JStr (s : string)
| JArr (items : list json)
| JObj (fields : list (string * json)).

(** [o[name]] on a parsed object; [None] is [undefined]. *)
Fixpoint field (name : string) (fields : list (string * json)) : option json :=
  match fields with
  | [] => None
  | (k, v) :: rest => if k =? name then Some v else field name rest
  end.

(** Truthiness of a JSON value ([!!v]); objects and arrays are truthy. *)
Definition json_truthy (j : json) : bool :=
  match j with
  | JNull => false
  | JBool b => b
  | JNum n => negb (n =? 0)%nat
  | JStr s => negb (s =? "")
  | JArr _ => true
  | JObj _ => true
  end.

(** [v && typeof v === "object"] *)
Definition json_isObject (j : json) : bool :=
  match j with
  | JArr _ | JObj _ => true
  | _ => false
  end.

(** Reading an array of strings back from a parsed value. *)
Fixpoint asStrings (items : list json) : option (list string) :=
  match items with
  | [] => Some []
  | JStr s :: rest =>
      match asStrings rest with
      | Some l => Some (s :: l)
      | None => None
      end
  | _ :: _ => None
  end.

Definition asStringArray (j : json) : option (list string) :=
  match j with
  | JArr items => asStrings items
  | _ => None
  end.

Definition ofStringArray (keys : list string) : json := JArr (map JStr keys).

(** ** Storage backends *)

(** Modelled from the spec: the storage classes ([LocalStorage],
    [SessionStorage], [MemoryStorage], [CookieStorage]) are imported and
    absent; section 4.1 gives their contract: [get(key) -> string|absent],
    [set(key, value)], [remove(key)], [keys()], [clear()], where a read of
    an absent key returns the absent marker.  A backend is an association
    list in insertion order, so that [getKeys] has the order a [forEach]
    over it visits. *)
Definition Storage : Type := list (string * string).

(** Modelled from the spec: [get(key) -> string|absent]. *)
Fixpoint getItem (s : Storage) (key : string) : option string :=
  match s with
  | [] => None
  | (k, v) :: rest => if k =? key then Some v else getItem rest key
  end.

(** Modelled from the spec: [set(key, value)]; a key already present keeps
    its place. *)
Fixpoint setItem (s : Storage) (key value : string) : Storage :=
  match s with
  | [] => [(key, value)]
  | (k, v) :: rest =>
      if k =? key then (k, value) :: rest
      else (k, v) :: setItem rest key value
  end.

(** Modelled from the spec: [remove(key)]; removing an absent key changes
    nothing. *)
Definition removeItem (s : Storage) (key : string) : Storage :=
  filter (fun kv => negb (fst kv =? key)) s.

(** Modelled from the spec: [keys() -> sequence of string]. *)
Definition getKeys (s : Storage) : list string := map fst s.

(** Modelled from the spec: [clear()]. *)
Definition clearStorage (s : Storage) : Storage := [].

(** Modelled from the spec: the contract has one [get] and one [set]; the
    user-data accessors the class calls read and write the same medium. *)
Definition getUserData (s : Storage) (key : string) : option string :=
  getItem s key.

(** Modelled from the spec: as [getUserData], for [set]. *)
Definition setUserData (s : Storage) (key value : string) : Storage :=
  setItem s key value.

(** ** Configuration and browser state *)

Inductive BrowserCacheLocation : Type :=
| LocalStorage
| SessionStorage
| MemoryStorage.

Definition BrowserCacheLocation_eqb (a b : BrowserCacheLocation) : bool :=
  match a, b with
  | LocalStorage, LocalStorage => true
  | SessionStorage, SessionStorage => true
  | MemoryStorage, MemoryStorage => true
  | _, _ => false
  end.

Record CacheOptions : Type := {
  cacheLocation : BrowserCacheLocation;
  temporaryCacheLocation : BrowserCacheLocation;
  storeAuthStateInCookie : bool;
  secureCookies : bool
}.

(** The immutable fields of a [BrowserCacheManager] instance. *)
Record BrowserCacheManager : Type := {
  clientId : string;
  cacheConfig : CacheOptions
}.

(** Everything the instance can read or write.  [localStorage] and
    [sessionStorage] are the two media of the window, shared by every
    storage object opened on them; the two memory stores are the private
    [MemoryStorage] objects the constructor may create, one per scope. *)
Record World : Type := {
  localStorage : Storage;
  sessionStorage : Storage;
  browserMemory : Storage;
  temporaryMemory : Storage;
  internalStorage : Storage;
  cookieStorage : Storage
}.

Definition emptyWorld : World :=
  {| localStorage := []; sessionStorage := []; browserMemory := [];
     temporaryMemory := []; internalStorage := []; cookieStorage := [] |}.

(** The two logical scopes whose backend the constructor picks with
    [getStorageImplementation]. *)
Inductive Scope : Type := Persistent | Temporary.

Definition scopeLocation (this : BrowserCacheManager) (sc : Scope)
  : BrowserCacheLocation :=
  match sc with
  | Persistent => cacheLocation (cacheConfig this)
  | Temporary => temporaryCacheLocation (cacheConfig this)
  end.

(** [getStorageImplementation]: the storage object behind a scope, as a
    view of the world.  (The fallback to memory when opening a window
    storage throws is not modelled.) *)
Definition getStorageImplementation (loc : BrowserCacheLocation) (sc : Scope)
    (w : World) : Storage :=
  match loc with
  | LocalStorage => localStorage w
  | SessionStorage => sessionStorage w
  | MemoryStorage =>
      match sc with
      | Persistent => browserMemory w
      | Temporary => temporaryMemory w
      end
  end.

Definition putStorageImplementation (loc : BrowserCacheLocation) (sc : Scope)
    (s : Storage) (w : World) : World :=
  match loc with
  | LocalStorage =>
      {| localStorage := s; sessionStorage := sessionStorage w;
         browserMemory := browserMemory w; temporaryMemory := temporaryMemory w;
         internalStorage := internalStorage w; cookieStorage := cookieStorage w |}
  | SessionStorage =>
      {| localStorage := localStorage w; sessionStorage := s;
         browserMemory := browserMemory w; temporaryMemory := temporaryMemory w;
         internalStorage := internalStorage w; cookieStorage := cookieStorage w |}
  | MemoryStorage =>
      match sc with
      | Persistent =>
          {| localStorage := localStorage w; sessionStorage := sessionStorage w;
             browserMemory := s; temporaryMemory := temporaryMemory w;
             internalStorage := internalStorage w; cookieStorage := cookieStorage w |}
      | Temporary =>
          {| localStorage := localStorage w; sessionStorage := sessionStorage w;
             browserMemory := browserMemory w; temporaryMemory := s;
             internalStorage := internalStorage w; cookieStorage := cookieStorage w |}
      end
  end.

Definition browserStorage (this : BrowserCacheManager) (w : World) : Storage :=
  getStorageImplementation (scopeLocation this Persistent) Persistent w.

Definition temporaryCacheStorage (this : BrowserCacheManager) (w : World)
  : Storage :=
  getStorageImplementation (scopeLocation this Temporary) Temporary w.

Definition updateStorage (this : BrowserCacheManager) (sc : Scope)
    (f : Storage -> Storage) (w : World) : World :=
  putStorageImplementation (scopeLocation this sc) sc
    (f (getStorageImplementation (scopeLocation this sc) sc w)) w.

Definition updateCookies (f : Storage -> Storage) (w : World) : World :=
  {| localStorage := localStorage w; sessionStorage := sessionStorage w;
     browserMemory := browserMemory w; temporaryMemory := temporaryMemory w;
     internalStorage := internalStorage w; cookieStorage := f (cookieStorage w) |}.

Definition updateInternal (f : Storage -> Storage) (w : World) : World :=
  {| localStorage := localStorage w; sessionStorage := sessionStorage w;
     browserMemory := browserMemory w; temporaryMemory := temporaryMemory w;
     internalStorage := f (internalStorage w); cookieStorage := cookieStorage w |}.

(** ** Errors and the monad of throwing methods *)

Inductive AuthError : Type :=
| interactionInProgress                  (* BrowserAuthErrorCodes *)
| noTokenRequestCacheError
| unableToParseTokenRequestCacheError
| noCachedAuthorityError
| unexpectedCredentialType               (* ClientAuthErrorCodes *)
| invalidState                           (* thrown by the imported parsers *)
| TypeError.                             (* untyped runtime error *)

Inductive Result (A : Type) : Type :=
| Ok (a : A)
| Throw (e : AuthError).

Arguments Ok {A} a.
Arguments Throw {A} e.

(** A method call: the outcome and the world it leaves behind; writes made
    before a [Throw] stay. *)
Definition M (A : Type) : Type := World -> Result A * World.

Definition ret {A : Type} (a : A) : M A := fun w => (Ok a, w).

Definition throw {A : Type} (e : AuthError) : M A := fun w => (Throw e, w).

Definition bind {A B : Type} (c : M A) (k : A -> M B) : M B :=
  fun w =>
    match c w with
    | (Ok a, w') => k a w'
    | (Throw e, w') => (Throw e, w')
    end.

(** A statement that only writes. *)
Definition exec (f : World -> World) : M unit := fun w => (Ok tt, f w).

(** An expression that only reads. *)
Definition eval {A : Type} (f : World -> A) : M A := fun w => (Ok (f w), w).

Definition liftR {A : Type} (r : Result A) : M A := fun w => (r, w).

Declare Scope cache_scope.
Delimit Scope cache_scope with cache.
Notation "x <- c ;; k" := (bind c (fun x => k))
  (at level 61, c at next level, right associativity) : cache_scope.
Notation "c ;; k" := (bind c (fun _ => k))
  (at level 61, right associativity) : cache_scope.
Open Scope cache_scope.

(** [keys.forEach(f)]: a [throw] inside [f] leaves the loop. *)
Fixpoint forEach (keys : list string) (f : string -> M unit) : M unit :=
  match keys with
  | [] => ret tt
  | key :: rest => f key ;; forEach rest f
  end.

(** The world after a call, whatever its outcome. *)
Definition after {A : Type} (c : M A) (w : World) : World := snd (c w).

(** ** Imported names *)

Inductive CredentialType : Type :=
| ID_TOKEN
| ACCESS_TOKEN
| ACCESS_TOKEN_WITH_AUTH_SCHEME
| REFRESH_TOKEN.

Inductive InteractionType : Type :=
| Redirect
| Popup
| Silent
| NoInteraction.

Definition InteractionType_eqb (a b : InteractionType) : bool :=
  match a, b with
  | Redirect, Redirect => true
  | Popup, Popup => true
  | Silent, Silent => true
  | NoInteraction, NoInteraction => true
  | _, _ => false
  end.

Record BrowserStateObject : Type := {
  interactionType : InteractionType
}.

Record AccountInfo : Type := {
  homeAccountId : string;
  localAccountId : string;
  tenantId : string
}.

Record TokenKeys : Type := {
  idToken : list string;
  accessToken : list string;
  refreshToken : list string
}.

(** What [ProtocolUtils.parseRequestState] returns, as far as the class
    reads it: the library state, [None] when it is [null] or missing, and in
    it the request id, [None] when it is [undefined]. *)
Record LibraryStateObject : Type := {
  id : option string
}.

Record RequestStateObject : Type := {
  libraryState : option LibraryStateObject
}.

(** What the class imports and this repository does not contain: constants
    of the two constant modules, the JSON built-ins, the base64 decoder,
    the state-blob parsers of the crypto/protocol layer, and the entity
    shape checks.  [JSON.parse] and [base64Decode], which the class calls
    inside [try] blocks only, return [None] when they throw.  The two state
    parsers are called outside any [try]: they return a [Result], the error
    of a [Throw] being theirs to choose, and [extractBrowserRequestState]
    may also return [null]. *)
Class Host : Type := {
  (* Constants, StaticCacheKeys *)
  CACHE_PREFIX : string;
  ACCOUNT_KEYS : string;
  TOKEN_KEYS : string;
  (* TemporaryCacheKeys *)
  AUTHORITY : string;
  REQUEST_STATE : string;
  NONCE_IDTOKEN : string;
  ORIGIN_URI : string;
  URL_HASH : string;
  REQUEST_PARAMS : string;
  INTERACTION_STATUS_KEY : string;
  CCS_CREDENTIAL : string;
  CORRELATION_ID : string;
  NATIVE_REQUEST : string;
  (* CcsCredentialType *)
  HOME_ACCOUNT_ID : string;
  UPN : string;
  (* JSON.parse, JSON.stringify, base64Decode *)
  JSON_parse : string -> option json;
  JSON_stringify : json -> string;
  base64Decode : string -> option string;
  (* ProtocolUtils.parseRequestState, extractBrowserRequestState *)
  parseRequestState : string -> Result RequestStateObject;
  extractBrowserRequestState : string -> Result (option BrowserStateObject);
  (* entity shape checks *)
  isAccountEntity : json -> bool;
  isIdTokenEntity : json -> bool;
  isAccessTokenEntity : json -> bool;
  isRefreshTokenEntity : json -> bool;
  (* which credential keys belong to an account, which keys are app metadata *)
  credentialOfAccount : string -> string -> bool;
  isAppMetadata : string -> bool
}.

(** ** The class *)

Section BrowserCacheManager.

Context {host : Host}.
Variable this : BrowserCacheManager.

(** *** Storage access through the instance's fields *)

Definition browserStorage_setItem (key value : string) (w : World) : World :=
  updateStorage this Persistent (fun s => setItem s key value) w.

Definition browserStorage_removeItem (key : string) (w : World) : World :=
  updateStorage this Persistent (fun s => removeItem s key) w.

Definition temporaryCacheStorage_setItem (key value : string) (w : World)
  : World :=
  updateStorage this Temporary (fun s => setItem s key value) w.

Definition temporaryCacheStorage_removeItem (key : string) (w : World)
  : World :=
  updateStorage this Temporary (fun s => removeItem s key) w.

Definition cookieStorage_setItem (key value : string) (w : World) : World :=
  updateCookies (fun s => setItem s key value) w.

Definition cookieStorage_removeItem (key : string) (w : World) : World :=
  updateCookies (fun s => removeItem s key) w.

(** *** JSON helpers *)

Definition validateAndParseJson (jsonValue : string) : option json :=
  match JSON_parse jsonValue with
  | Some parsedJson =>
      if json_truthy parsedJson && json_isObject parsedJson
      then Some parsedJson
      else None
  | None => None
  end.

Definition emptyTokenKeys : TokenKeys :=
  {| idToken := []; accessToken := []; refreshToken := [] |}.

Definition tokenKeysToJson (t : TokenKeys) : json :=
  JObj [ ("idToken", ofStringArray (idToken t));
         ("accessToken", ofStringArray (accessToken t));
         ("refreshToken", ofStringArray (refreshToken t)) ].

Definition tokenKeysOfJson (j : json) : option TokenKeys :=
  match j with
  | JObj fields =>
      match field "idToken" fields, field "accessToken" fields,
            field "refreshToken" fields with
      | Some i, Some a, Some r =>
          match asStringArray i, asStringArray a, asStringArray r with
          | Some ids, Some ats, Some rts =>
              Some {| idToken := ids; accessToken := ats; refreshToken := rts |}
          | _, _, _ => None
          end
      | _, _, _ => None
      end
  | _ => None
  end.

(** *** Key indexes *)

(** Modelled from the spec: [CacheHelpers.getAccountKeys] is imported and
    absent; section 4.2: "[getKeys()]: decode or default to empty", the
    default also covering absence and corruption. *)
Definition CacheHelpers_getAccountKeys (storage : Storage) : list string :=
  match JS.nonEmpty (getItem storage ACCOUNT_KEYS) with
  | Some accountKeys =>
      match JSON_parse accountKeys with
      | Some j =>
          match asStringArray j with
          | Some keys => keys
          | None => []
          end
      | None => []
      end
  | None => []
  end.

(** Modelled from the spec: [CacheHelpers.getTokenKeys] is imported and
    absent; sections 4.2 and 6: the slot holds the record
    [{idToken, accessToken, refreshToken}], read with "decode or default
    to empty". *)
Definition CacheHelpers_getTokenKeys (clientId : string) (storage : Storage)
  : TokenKeys :=
  match JS.nonEmpty (getItem storage (TOKEN_KEYS ++ "." ++ clientId)%string) with
  | Some item =>
      match JSON_parse item with
      | Some j =>
          match tokenKeysOfJson j with
          | Some tokenKeys => tokenKeys
          | None => emptyTokenKeys
          end
      | None => emptyTokenKeys
      end
  | None => emptyTokenKeys
  end.

Definition getAccountKeys (w : World) : list string :=
  CacheHelpers_getAccountKeys (browserStorage this w).

Definition addAccountKeyToMap (key : string) (w : World) : World :=
  let accountKeys := getAccountKeys w in
  match JS.Array_indexOf accountKeys key with
  | None =>
      browserStorage_setItem ACCOUNT_KEYS
        (JSON_stringify (ofStringArray (JS.push accountKeys key))) w
  | Some _ => w
  end.

Definition removeAccountKeyFromMap (key : string) (w : World) : World :=
  let accountKeys := getAccountKeys w in
  match JS.Array_indexOf accountKeys key with
  | Some removalIndex =>
      browserStorage_setItem ACCOUNT_KEYS
        (JSON_stringify (ofStringArray (JS.splice1 accountKeys removalIndex))) w
  | None => w
  end.

Definition getTokenKeys (w : World) : TokenKeys :=
  CacheHelpers_getTokenKeys (clientId this) (browserStorage this w).

Definition tokenKeysSlot : string := (TOKEN_KEYS ++ "." ++ clientId this)%string.

Definition addTokenKey (key : string) (type : CredentialType) : M unit :=
  tokenKeys <- eval getTokenKeys ;;
  tokenKeys' <-
    match type with
    | ID_TOKEN =>
        ret match JS.Array_indexOf (idToken tokenKeys) key with
            | None =>
                {| idToken := JS.push (idToken tokenKeys) key;
                   accessToken := accessToken tokenKeys;
                   refreshToken := refreshToken tokenKeys |}
            | Some _ => tokenKeys
            end
    | ACCESS_TOKEN =>
        ret match JS.Array_indexOf (accessToken tokenKeys) key with
            | None =>
                {| idToken := idToken tokenKeys;
                   accessToken := JS.push (accessToken tokenKeys) key;
                   refreshToken := refreshToken tokenKeys |}
            | Some _ => tokenKeys
            end
    | REFRESH_TOKEN =>
        ret match JS.Array_indexOf (refreshToken tokenKeys) key with
            | None =>
                {| idToken := idToken tokenKeys;
                   accessToken := accessToken tokenKeys;
                   refreshToken := JS.push (refreshToken tokenKeys) key |}
            | Some _ => tokenKeys
            end
    | ACCESS_TOKEN_WITH_AUTH_SCHEME => throw unexpectedCredentialType
    end ;;
  exec (browserStorage_setItem tokenKeysSlot
          (JSON_stringify (tokenKeysToJson tokenKeys'))).

Definition removeTokenKey (key : string) (type : CredentialType) : M unit :=
  tokenKeys <- eval getTokenKeys ;;
  tokenKeys' <-
    match type with
    | ID_TOKEN =>
        ret match JS.Array_indexOf (idToken tokenKeys) key with
            | Some idRemoval =>
                {| idToken := JS.splice1 (idToken tokenKeys) idRemoval;
                   accessToken := accessToken tokenKeys;
                   refreshToken := refreshToken tokenKeys |}
            | None => tokenKeys
            end
    | ACCESS_TOKEN =>
        ret match JS.Array_indexOf (accessToken tokenKeys) key with
            | Some accessRemoval =>
                {| idToken := idToken tokenKeys;
                   accessToken := JS.splice1 (accessToken tokenKeys) accessRemoval;
                   refreshToken := refreshToken tokenKeys |}
            | None => tokenKeys
            end
    | REFRESH_TOKEN =>
        ret match JS.Array_indexOf (refreshToken tokenKeys) key with
            | Some refreshRemoval =>
                {| idToken := idToken tokenKeys;
                   accessToken := accessToken tokenKeys;
                   refreshToken := JS.splice1 (refreshToken tokenKeys) refreshRemoval |}
            | None => tokenKeys
            end
    | ACCESS_TOKEN_WITH_AUTH_SCHEME => throw unexpectedCredentialType
    end ;;
  exec (browserStorage_setItem tokenKeysSlot
          (JSON_stringify (tokenKeysToJson tokenKeys'))).

(** *** Entities *)

Definition getAccount (accountKey : string) (w : World) : option json * World :=
  match JS.nonEmpty (getUserData (browserStorage this w) accountKey) with
  | None => (None, removeAccountKeyFromMap accountKey w)
  | Some serializedAccount =>
      match validateAndParseJson serializedAccount with
      | Some parsedAccount =>
          if isAccountEntity parsedAccount
          then (Some parsedAccount, w)
          else (None, removeAccountKeyFromMap accountKey w)
      | None => (None, removeAccountKeyFromMap accountKey w)
      end
  end.

(** [setAccount], with the key [generateAccountKey] computed by the caller
    and the asynchronous write run to completion. *)
Definition setAccount (key : string) (account : json) (w : World) : World :=
  addAccountKeyToMap key
    (updateStorage this Persistent
       (fun s => setUserData s key (JSON_stringify account)) w).

Definition getCredential (isEntity : json -> bool) (type : CredentialType)
    (key : string) : M (option json) :=
  value <- eval (fun w => getUserData (browserStorage this w) key) ;;
  match JS.nonEmpty value with
  | None => removeTokenKey key type ;; ret None
  | Some value =>
      match validateAndParseJson value with
      | Some parsed =>
          if isEntity parsed
          then ret (Some parsed)
          else (removeTokenKey key type ;; ret None)
      | None => removeTokenKey key type ;; ret None
      end
  end.

Definition getIdTokenCredential (idTokenKey : string) : M (option json) :=
  getCredential isIdTokenEntity ID_TOKEN idTokenKey.

Definition getAccessTokenCredential (accessTokenKey : string)
  : M (option json) :=
  getCredential isAccessTokenEntity ACCESS_TOKEN accessTokenKey.

Definition getRefreshTokenCredential (refreshTokenKey : string)
  : M (option json) :=
  getCredential isRefreshTokenEntity REFRESH_TOKEN refreshTokenKey.

Definition setCredential (type : CredentialType) (key : string)
    (credential : json) : M unit :=
  exec (updateStorage this Persistent
          (fun s => setUserData s key (JSON_stringify credential))) ;;
  addTokenKey key type.

(** [removeItem(key)] *)
Definition removeItem_ (key : string) (w : World) : World :=
  browserStorage_removeItem key w.

(** Modelled from the spec: the base class [CacheManager] is imported and
    absent; section 4.3: each inherited removal "remove[s] the entity from
    the backing store", the override then removing the key from the index.
    Calls whose promise the override drops are run to completion in
    program order. *)
Definition CacheManager_removeEntity (key : string) (w : World) : World :=
  removeItem_ key w.

Definition removeAccount (key : string) (w : World) : World :=
  removeAccountKeyFromMap key (CacheManager_removeEntity key w).

Definition removeIdToken (key : string) : M unit :=
  exec (CacheManager_removeEntity key) ;; removeTokenKey key ID_TOKEN.

Definition removeAccessToken (key : string) : M unit :=
  exec (CacheManager_removeEntity key) ;; removeTokenKey key ACCESS_TOKEN.

Definition removeRefreshToken (key : string) : M unit :=
  exec (CacheManager_removeEntity key) ;; removeTokenKey key REFRESH_TOKEN.

(** *** Temporary cache *)

Definition generateCacheKey (key : string) : string :=
  match validateAndParseJson key with
  | None =>
      if JS.startsWith key CACHE_PREFIX then key
      else (CACHE_PREFIX ++ "." ++ clientId this ++ "." ++ key)%string
  | Some _ => JSON_stringify (JStr key)
  end.

Definition getTemporaryCache (cacheKey : string) (generateKey : bool)
    (w : World) : option string :=
  let key := if generateKey then generateCacheKey cacheKey else cacheKey in
  let itemCookie :=
    if storeAuthStateInCookie (cacheConfig this)
    then JS.nonEmpty (getItem (cookieStorage w) key)
    else None in
  match itemCookie with
  | Some itemCookie => Some itemCookie
  | None =>
      match JS.nonEmpty (getItem (temporaryCacheStorage this w) key) with
      | None =>
          (* items set by old versions may still be in local storage *)
          if BrowserCacheLocation_eqb (cacheLocation (cacheConfig this))
               LocalStorage
          then JS.nonEmpty (getItem (browserStorage this w) key)
          else None
      | Some value => Some value
      end
  end.

Definition setTemporaryCache (cacheKey value : string) (generateKey : bool)
    (w : World) : World :=
  let key := if generateKey then generateCacheKey cacheKey else cacheKey in
  let w := temporaryCacheStorage_setItem key value w in
  if storeAuthStateInCookie (cacheConfig this)
  then cookieStorage_setItem key value w
  else w.

Definition removeTemporaryItem (key : string) (w : World) : World :=
  let w := temporaryCacheStorage_removeItem key w in
  if storeAuthStateInCookie (cacheConfig this)
  then cookieStorage_removeItem key w
  else w.

(** *** Key generation *)

(** The statement that opens each of the three key generators,
    [const { libraryState: { id: stateId } } = ProtocolUtils
    .parseRequestState(this.cryptoImpl, stateString)], with [stateId] as the
    template literal of the key renders it: an error of the parser
    propagates, destructuring a missing library state throws a
    [TypeError], and an [undefined] id reads as the text [undefined]. *)
Definition requestStateId (stateString : string) : Result string :=
  match parseRequestState stateString with
  | Throw e => Throw e
  | Ok parsed =>
      match libraryState parsed with
      | None => Throw TypeError
      | Some library => Ok (JS.template (id library))
      end
  end.

(** The three derived keys. *)
Definition generateAuthorityKey (stateString : string) : Result string :=
  match requestStateId stateString with
  | Ok stateId => Ok (generateCacheKey (AUTHORITY ++ "." ++ stateId)%string)
  | Throw e => Throw e
  end.

Definition generateNonceKey (stateString : string) : Result string :=
  match requestStateId stateString with
  | Ok stateId =>
      Ok (generateCacheKey (NONCE_IDTOKEN ++ "." ++ stateId)%string)
  | Throw e => Throw e
  end.

Definition generateStateKey (stateString : string) : Result string :=
  match requestStateId stateString with
  | Ok stateId =>
      Ok (generateCacheKey (REQUEST_STATE ++ "." ++ stateId)%string)
  | Throw e => Throw e
  end.

(** *** Request state *)

Definition getCachedAuthority (cachedState : string) (w : World)
  : Result (option string) :=
  match generateStateKey cachedState with
  | Throw e => Throw e
  | Ok stateCacheKey =>
      match JS.nonEmpty (getTemporaryCache stateCacheKey false w) with
      | None => Ok None
      | Some state =>
          match generateAuthorityKey state with
          | Throw e => Throw e
          | Ok authorityCacheKey =>
              Ok (getTemporaryCache authorityCacheKey false w)
          end
      end
  end.

Definition ccsCredential (credential type : string) : json :=
  JObj [ ("credential", JStr credential); ("type", JStr type) ].

Definition updateCacheEntries (state nonce authorityInstance loginHint : string)
    (account : option AccountInfo) : M unit :=
  stateCacheKey <- liftR (generateStateKey state) ;;
  exec (setTemporaryCache stateCacheKey state false) ;;
  nonceCacheKey <- liftR (generateNonceKey state) ;;
  exec (setTemporaryCache nonceCacheKey nonce false) ;;
  authorityCacheKey <- liftR (generateAuthorityKey state) ;;
  exec (setTemporaryCache authorityCacheKey authorityInstance false) ;;
  match account with
  | Some account =>
      exec (setTemporaryCache CCS_CREDENTIAL
              (JSON_stringify
                 (ccsCredential (homeAccountId account) HOME_ACCOUNT_ID))
              true)
  | None =>
      if negb (loginHint =? "")
      then exec (setTemporaryCache CCS_CREDENTIAL
                   (JSON_stringify (ccsCredential loginHint UPN)) true)
      else ret tt
  end.

(** *** Interaction lock *)

Definition interactionStatusKey : string :=
  (CACHE_PREFIX ++ "." ++ INTERACTION_STATUS_KEY)%string.

Definition getInteractionInProgress (w : World) : option string :=
  getTemporaryCache interactionStatusKey false w.

Definition isInteractionInProgress (matchClientId : bool) (w : World) : bool :=
  let owner := getInteractionInProgress w in
  if matchClientId then
    match owner with
    | Some id => id =? clientId this
    | None => false
    end
  else JS.truthy owner.

Definition setInteractionInProgress (inProgress : bool) : M unit :=
  if inProgress then
    current <- eval getInteractionInProgress ;;
    if JS.truthy current then throw interactionInProgress
    else exec (setTemporaryCache interactionStatusKey (clientId this) false)
  else
    current <- eval getInteractionInProgress ;;
    match current with
    | Some id =>
        if id =? clientId this
        then exec (removeTemporaryItem interactionStatusKey)
        else ret tt
    | None => ret tt
    end.

(** *** Request cleanup *)

Definition resetRequestCache (state : string) : M unit :=
  (if negb (state =? "") then
     keys <- eval (fun w => getKeys (temporaryCacheStorage this w)) ;;
     forEach keys (fun key =>
       if JS.includes key state
       then exec (removeTemporaryItem key)
       else ret tt) ;;
     stateKey <- liftR (generateStateKey state) ;;
     exec (removeTemporaryItem stateKey) ;;
     nonceKey <- liftR (generateNonceKey state) ;;
     exec (removeTemporaryItem nonceKey) ;;
     authorityKey <- liftR (generateAuthorityKey state) ;;
     exec (removeTemporaryItem authorityKey)
   else ret tt) ;;
  exec (removeTemporaryItem (generateCacheKey REQUEST_PARAMS)) ;;
  exec (removeTemporaryItem (generateCacheKey ORIGIN_URI)) ;;
  exec (removeTemporaryItem (generateCacheKey URL_HASH)) ;;
  exec (removeTemporaryItem (generateCacheKey CORRELATION_ID)) ;;
  exec (removeTemporaryItem (generateCacheKey CCS_CREDENTIAL)) ;;
  exec (removeTemporaryItem (generateCacheKey NATIVE_REQUEST)) ;;
  setInteractionInProgress false.

Definition cleanRequestByState (stateString : string) : M unit :=
  if negb (stateString =? "") then
    stateKey <- liftR (generateStateKey stateString) ;;
    cachedState <- eval (fun w => getItem (temporaryCacheStorage this w) stateKey) ;;
    resetRequestCache
      match JS.nonEmpty cachedState with
      | Some cachedState => cachedState
      | None => ""
      end
  else ret tt.

Definition cleanRequestByInteractionType (type : InteractionType) : M unit :=
  keys <- eval (fun w => getKeys (temporaryCacheStorage this w)) ;;
  forEach keys (fun key =>
    if negb (JS.includes key REQUEST_STATE) then ret tt
    else
      stateValue <- eval (fun w => getItem (temporaryCacheStorage this w) key) ;;
      match JS.nonEmpty stateValue with
      | None => ret tt
      | Some stateValue =>
          parsedState <- liftR (extractBrowserRequestState stateValue) ;;
          match parsedState with
          | Some parsedState =>
              if InteractionType_eqb (interactionType parsedState) type
              then resetRequestCache stateValue
              else ret tt
          | None => ret tt
          end
      end) ;;
  setInteractionInProgress false.

(** *** Cached request *)

(** [parsedRequest.authority]: reading a property of [null] throws. *)
Definition readAuthority (parsedRequest : json) : Result (option json) :=
  match parsedRequest with
  | JNull => Throw TypeError
  | JObj fields => Ok (field "authority" fields)
  | _ => Ok None
  end.

Fixpoint setField (name : string) (value : json)
    (fields : list (string * json)) : list (string * json) :=
  match fields with
  | [] => [(name, value)]
  | (k, v) :: rest =>
      if k =? name then (k, value) :: rest
      else (k, v) :: setField name value rest
  end.

(** [parsedRequest.authority = cachedAuthority]: assigning to a property
    of a primitive throws in strict code; a property set on an array is
    not part of its JSON value. *)
Definition writeAuthority (parsedRequest : json) (cachedAuthority : string)
  : Result json :=
  match parsedRequest with
  | JObj fields => Ok (JObj (setField "authority" (JStr cachedAuthority) fields))
  | JArr items => Ok (JArr items)
  | _ => Throw TypeError
  end.

Definition getCachedRequest (state : string) : M json :=
  encodedTokenRequest <- eval (getTemporaryCache REQUEST_PARAMS true) ;;
  match JS.nonEmpty encodedTokenRequest with
  | None => throw noTokenRequestCacheError
  | Some encodedTokenRequest =>
      match
        match base64Decode encodedTokenRequest with
        | Some decoded => JSON_parse decoded
        | None => None
        end
      with
      | None => throw unableToParseTokenRequestCacheError
      | Some parsedRequest =>
          exec (removeTemporaryItem (generateCacheKey REQUEST_PARAMS)) ;;
          authority <- liftR (readAuthority parsedRequest) ;;
          if match authority with
             | Some a => json_truthy a
             | None => false
             end
          then ret parsedRequest
          else
            authorityCacheKey <- liftR (generateAuthorityKey state) ;;
            cachedAuthority <- eval (getTemporaryCache authorityCacheKey false) ;;
            match JS.nonEmpty cachedAuthority with
            | None => throw noCachedAuthorityError
            | Some cachedAuthority =>
                liftR (writeAuthority parsedRequest cachedAuthority)
            end
      end
  end.

(** *** Bulk clear *)

(** Modelled from the spec: the removal of an account's credentials is
    inherited from the absent base class; section 4.8: "for each [account],
    every associated credential across all three token categories".  Which
    credential keys are associated with an account key is left to
    [credentialOfAccount]. *)
Definition removeAccountContext (accountKey : string) : M unit :=
  allTokenKeys <- eval getTokenKeys ;;
  forEach (idToken allTokenKeys) (fun key =>
    if credentialOfAccount accountKey key then removeIdToken key else ret tt) ;;
  forEach (accessToken allTokenKeys) (fun key =>
    if credentialOfAccount accountKey key then removeAccessToken key else ret tt) ;;
  forEach (refreshToken allTokenKeys) (fun key =>
    if credentialOfAccount accountKey key then removeRefreshToken key else ret tt).

(** Modelled from the spec: [removeAllAccounts] is inherited from the absent
    base class; section 4.8: "Remove every account and, for each, every
    associated credential".  The accounts are those of the account index,
    each removed with this class's [removeAccount]. *)
Definition removeAllAccounts : M unit :=
  allAccountKeys <- eval getAccountKeys ;;
  forEach allAccountKeys (fun cacheKey =>
    removeAccountContext cacheKey ;; exec (removeAccount cacheKey)).

(** Modelled from the spec: [removeAppMetadata] is inherited from the absent
    base class; section 4.8: "remove app-metadata entries".  Which keys are
    app metadata is left to [isAppMetadata]. *)
Definition removeAppMetadata : M unit :=
  allCacheKeys <- eval (fun w => getKeys (browserStorage this w)) ;;
  forEach allCacheKeys (fun cacheKey =>
    if isAppMetadata cacheKey then exec (removeItem_ cacheKey) else ret tt).

Definition clear : M unit :=
  removeAllAccounts ;;
  removeAppMetadata ;;
  tempKeys <- eval (fun w => getKeys (temporaryCacheStorage this w)) ;;
  forEach tempKeys (fun cacheKey =>
    if JS.includes cacheKey CACHE_PREFIX || JS.includes cacheKey (clientId this)
    then exec (removeTemporaryItem cacheKey)
    else ret tt) ;;
  browserKeys <- eval (fun w => getKeys (browserStorage this w)) ;;
  forEach browserKeys (fun cacheKey =>
    if JS.includes cacheKey CACHE_PREFIX || JS.includes cacheKey (clientId this)
    then exec (browserStorage_removeItem cacheKey)
    else ret tt) ;;
  exec (updateInternal clearStorage).

End BrowserCacheManager.

(** ** Observations and array operations used in the statements *)

(** The first occurrence of [x] removed: what [indexOf] followed by
    [splice] does to an array, and nothing when [x] does not occur. *)
Fixpoint removeFirst (x : string) (a : list string) : list string :=
  match a with
  | [] => []
  | y :: a' => if y =? x then a' else y :: removeFirst x a'
  end.

Definition spliceKey (a : list string) (x : string) : list string :=
  match JS.Array_indexOf a x with
  | Some i => JS.splice1 a i
  | None => a
  end.

Definition pushKey (a : list string) (x : string) : list string :=
  match JS.Array_indexOf a x with
  | None => JS.push a x
  | Some _ => a
  end.

Section Observations.

Context {host : Host}.
Variable this : BrowserCacheManager.

(** The value a backend holds under a key. *)
Definition temporaryItem (w : World) (key : string) : option string :=
  getItem (temporaryCacheStorage this w) key.

Definition browserItem (w : World) (key : string) : option string :=
  getItem (browserStorage this w) key.

Definition cookieItem (w : World) (key : string) : option string :=
  getItem (cookieStorage w) key.

(** Both scopes are configured on the same window storage, so that the two
    storage objects read and write one medium. *)
Definition sharesMedium : bool :=
  match cacheLocation (cacheConfig this),
        temporaryCacheLocation (cacheConfig this) with
  | LocalStorage, LocalStorage => true
  | SessionStorage, SessionStorage => true
  | _, _ => false
  end.

(** The decoded request has no usable [authority]: the property is missing
    or falsy (and the request is not [null], whose property read throws). *)
Definition lacksAuthority (request : json) : bool :=
match readAuthority request with
| Ok (Some a) => negb (json_truthy a)
| Ok None => true
| Throw _ => false
end.

(** The key list of a credential type inside the token index, and the index
    with that list changed.  [ACCESS_TOKEN_WITH_AUTH_SCHEME] has no list of
    its own: the index methods reject it. *)
Definition category (type : CredentialType) (t : TokenKeys) : list string :=
match type with
| ID_TOKEN => idToken t
| ACCESS_TOKEN => accessToken t
| REFRESH_TOKEN => refreshToken t
| ACCESS_TOKEN_WITH_AUTH_SCHEME => []
end.

Definition withCategory (type : CredentialType)
  (f : list string -> list string) (t : TokenKeys) : TokenKeys :=
match type with
| ID_TOKEN =>
    {| idToken := f (idToken t); accessToken := accessToken t;
       refreshToken := refreshToken t |}
| ACCESS_TOKEN =>
    {| idToken := idToken t; accessToken := f (accessToken t);
       refreshToken := refreshToken t |}
| REFRESH_TOKEN =>
    {| idToken := idToken t; accessToken := accessToken t;
       refreshToken := f (refreshToken t) |}
| ACCESS_TOKEN_WITH_AUTH_SCHEME => t
end.

Definition indexed (type : CredentialType) : Prop :=
type <> ACCESS_TOKEN_WITH_AUTH_SCHEME.

(** The world with the token index replaced by [t]. *)
Definition writeTokenKeys (t : TokenKeys) (w : World) : World :=
browserStorage_setItem this (tokenKeysSlot this)
  (JSON_stringify (tokenKeysToJson t)) w.

(** A stored value no getter accepts: nothing under the key, a string that
    is not the JSON text of an object, or an object without the fields its
    entity check requires. *)
Definition unreadable (isEntity : json -> bool) (raw : option string) : Prop :=
raw = None
\/ (exists text, raw = Some text /\ validateAndParseJson text = None)
\/ (exists text j, raw = Some text /\ validateAndParseJson text = Some j
                   /\ isEntity j = false).

(** The temporary items of a list of keys removed, one after the other. *)
Definition removeTemporaryItems (keys : list string) (w : World) : World :=
fold_left (fun w key => removeTemporaryItem this key w) keys w.

(** The world [setInteractionInProgress(false)] leaves. *)
Definition releaseLock (w : World) : World :=
after (setInteractionInProgress this false) w.

(** The per-flow keys [resetRequestCache] removes whatever the state. *)
Definition genericRequestKeys : list string :=
[ generateCacheKey this REQUEST_PARAMS; generateCacheKey this ORIGIN_URI;
  generateCacheKey this URL_HASH; generateCacheKey this CORRELATION_ID;
  generateCacheKey this CCS_CREDENTIAL; generateCacheKey this NATIVE_REQUEST ].

(** The three keys derived from a request id. *)
Definition derivedRequestKeys (stateId : string) : list string :=
[ generateCacheKey this (REQUEST_STATE ++ "." ++ stateId)%string;
  generateCacheKey this (NONCE_IDTOKEN ++ "." ++ stateId)%string;
  generateCacheKey this (AUTHORITY ++ "." ++ stateId)%string ].

(** [key] occurs in [keys]. *)
Definition listed (keys : list string) (key : string) : bool :=
existsb (fun k => k =? key) keys.

(** The lock is still held by this client, or its entry is already gone. *)
Definition lockPending (w : World) : Prop :=
getInteractionInProgress this w = Some (clientId this)
\/ (temporaryItem w interactionStatusKey = None
    /\ (storeAuthStateInCookie (cacheConfig this) = true ->
        cookieItem w interactionStatusKey = None)).

Definition lockGone (w : World) : Prop :=
temporaryItem w interactionStatusKey = None
/\ (storeAuthStateInCookie (cacheConfig this) = true ->
    cookieItem w interactionStatusKey = None).

(** The temporary keys the scan of [resetRequestCache] removes. *)
Definition scanned (state : string) (w : World) : list string :=
filter (fun key => JS.includes key state)
  (getKeys (temporaryCacheStorage this w)).

(** The two readers of a state blob agree: a blob whose browser state can be
    extracted is one whose request id can be read. *)
Definition StateParsersAgree : Prop :=
forall (state : string) (parsed : BrowserStateObject),
  extractBrowserRequestState state = Ok (Some parsed) ->
  exists stateId : string, requestStateId state = Ok stateId.

(** Every non-empty request state stored in the temporary backend is one
    [extractBrowserRequestState] returns on, with a browser state or with
    [null]. *)
Definition statesReadable (w : World) : Prop :=
forall (key value : string),
  JS.includes key REQUEST_STATE = true ->
  temporaryItem w key = Some value ->
  value <> "" ->
  exists parsed : option BrowserStateObject,
    extractBrowserRequestState value = Ok parsed.

(** Every entry of the temporary backend of [w0] is an entry of [w]. *)
Definition temporaryWithin (w w0 : World) : Prop :=
forall key : string,
  temporaryItem w0 key = None \/ temporaryItem w0 key = temporaryItem w key.

(** No request state stored in the temporary backend has interaction type
    [type]. *)
Definition noStateOfType (type : InteractionType) (w : World) : Prop :=
forall (key value : string) (parsed : BrowserStateObject),
  JS.includes key REQUEST_STATE = true ->
  temporaryItem w key = Some value ->
  extractBrowserRequestState value = Ok (Some parsed) ->
  interactionType parsed <> type.

(** The test of the two sweeps of [clear]: the key contains the cache prefix
    or the client id. *)
Definition namespaced (key : string) : bool :=
JS.includes key CACHE_PREFIX || JS.includes key (clientId this).

(** The persistent items of a list of keys removed, one after the other. *)
Definition removeBrowserItems (keys : list string) (w : World) : World :=
fold_left (fun w key => browserStorage_removeItem this key w) keys w.

(** The keys the first phase of [clear] works on: the two index slots, the
    keys listed in the account index and in the token index, and the
    app-metadata keys. *)
Definition entityKey (w : World) (key : string) : Prop :=
key = ACCOUNT_KEYS \/ key = tokenKeysSlot this \/ isAppMetadata key = true
\/ In key (getAccountKeys this w)
\/ In key (idToken (getTokenKeys this w))
\/ In key (accessToken (getTokenKeys this w))
\/ In key (refreshToken (getTokenKeys this w)).

(** The two sweeps and the final reset of the memory store, after the
  removal of accounts and app metadata has produced [w1]. *)
Definition swept (w1 : World) : World :=
let w2 := removeTemporaryItems
            (filter namespaced (getKeys (temporaryCacheStorage this w1)))
            w1 in
let w3 := removeBrowserItems
            (filter namespaced (getKeys (browserStorage this w2))) w2 in
updateInternal clearStorage w3.

(** [w'] differs from [w], in the persistent and temporary backends, only at
    entity keys of [w], and its token index lists no key that the token
    index of [w] does not list. *)
Definition withinEntities (w w' : World) : Prop :=
(forall key, ~ entityKey w key -> browserItem w' key = browserItem w key)
/\ (sharesMedium = false ->
    forall key, temporaryItem w' key = temporaryItem w key)
/\ incl (idToken (getTokenKeys this w')) (idToken (getTokenKeys this w))
/\ incl (accessToken (getTokenKeys this w')) (accessToken (getTokenKeys this w))
/\ incl (refreshToken (getTokenKeys this w')) (refreshToken (getTokenKeys this w)).

End Observations.

(** ** Laws assumed of the imported JSON built-ins *)

(** [JSON.parse] reads back what [JSON.stringify] wrote for the two index
    encodings, and [JSON.stringify] never yields the empty string. *)
Record JsonLaws {host : Host} : Prop := {
  parse_stringify_keys : forall keys : list string,
    JSON_parse (JSON_stringify (ofStringArray keys)) = Some (ofStringArray keys);
  parse_stringify_tokenKeys : forall t : TokenKeys,
    JSON_parse (JSON_stringify (tokenKeysToJson t)) = Some (tokenKeysToJson t);
  stringify_nonEmpty : forall j : json, JSON_stringify j <> ""
}.

(** ** A concrete host *)

(** A host to run the class on: the constants of the browser package, a
    reader and printer for the JSON values the cache stores (strings,
    arrays, objects and the three literals, without white space or
    numbers), standard base64 decoding, and state blobs of the form
    [base64(libraryState)|userState]. *)
Module Demo.

Definition dquote : ascii := ascii_of_nat 34.
Definition backslash : ascii := ascii_of_nat 92.

Fixpoint escape (s : string) : string :=
  match s with
  | EmptyString => EmptyString
  | String c s' =>
      if (Ascii.eqb c dquote || Ascii.eqb c backslash)%bool
      then String backslash (String c (escape s'))
      else String c (escape s')
  end.

Definition quote (s : string) : string :=
  String dquote (escape s ++ String dquote EmptyString).

Fixpoint join (parts : list string) : string :=
  match parts with
  | [] => EmptyString
  | [x] => x
  | x :: rest => (x ++ "," ++ join rest)%string
  end.

Fixpoint stringify (j : json) : string :=
  match j with
  | JNull => "null"
  | JBool true => "true"
  | JBool false => "false"
  | JNum n => NilZero.string_of_uint (Nat.to_uint n)
  | JStr s => quote s
  | JArr items => ("[" ++ join (map stringify items) ++ "]")%string
  | JObj fields =>
      ("{" ++ join (map (fun kv => (quote (fst kv) ++ ":" ++ stringify (snd kv))%string)
                      fields) ++ "}")%string
  end.

(** The characters of a string literal after its opening quote. *)
Fixpoint parseStringBody (s : string) : option (string * string) :=
  match s with
  | EmptyString => None
  | String c s' =>
      if Ascii.eqb c dquote then Some (EmptyString, s')
      else if Ascii.eqb c backslash then
        match s' with
        | String d s'' =>
            match parseStringBody s'' with
            | Some (text, rest) => Some (String d text, rest)
            | None => None
            end
        | EmptyString => None
        end
      else
        match parseStringBody s' with
        | Some (text, rest) => Some (String c text, rest)
        | None => None
        end
  end.

Definition literal (word : string) (value : json) (s : string)
  : option (json * string) :=
  if prefix word s
  then Some (value, substring (String.length word)
                      (String.length s - String.length word) s)
  else None.

Fixpoint parseValue (fuel : nat) (s : string) {struct fuel}
  : option (json * string) :=
  match fuel with
  | O => None
  | S fuel =>
      match s with
      | EmptyString => None
      | String c rest =>
          if Ascii.eqb c dquote then
            match parseStringBody rest with
            | Some (text, rest') => Some (JStr text, rest')
            | None => None
            end
          else if Ascii.eqb c "[" then
            match rest with
            | String "]" rest' => Some (JArr [], rest')
            | _ =>
                match parseItems fuel rest with
                | Some (items, rest') => Some (JArr items, rest')
                | None => None
                end
            end
          else if Ascii.eqb c "{" then
            match rest with
            | String "}" rest' => Some (JObj [], rest')
            | _ =>
                match parseFields fuel rest with
                | Some (fields, rest') => Some (JObj fields, rest')
                | None => None
                end
            end
          else
            match literal "null" JNull s with
            | Some r => Some r
            | None =>
                match literal "true" (JBool true) s with
                | Some r => Some r
                | None => literal "false" (JBool false) s
                end
            end
      end
  end
with parseItems (fuel : nat) (s : string) {struct fuel}
  : option (list json * string) :=
  match fuel with
  | O => None
  | S fuel =>
      match parseValue fuel s with
      | Some (v, String "," rest) =>
          match parseItems fuel rest with
          | Some (vs, rest') => Some (v :: vs, rest')
          | None => None
          end
      | Some (v, String "]" rest) => Some ([v], rest)
      | _ => None
      end
  end
with parseFields (fuel : nat) (s : string) {struct fuel}
  : option (list (string * json) * string) :=
  match fuel with
  | O => None
  | S fuel =>
      match s with
      | String c s1 =>
          if Ascii.eqb c dquote then
            match parseStringBody s1 with
            | Some (name, String ":" s2) =>
                match parseValue fuel s2 with
                | Some (v, String "," rest) =>
                    match parseFields fuel rest with
                    | Some (fs, rest') => Some ((name, v) :: fs, rest')
                    | None => None
                    end
                | Some (v, String "}" rest) => Some ([(name, v)], rest)
                | _ => None
                end
            | _ => None
            end
          else None
      | EmptyString => None
      end
  end.

Definition parse (s : string) : option json :=
  match parseValue (S (String.length s)) s with
  | Some (j, EmptyString) => Some j
  | _ => None
  end.

(** Base64, standard alphabet with padding. *)
Definition sextet (c : ascii) : option nat :=
  let n := nat_of_ascii c in
  if ((65 <=? n) && (n <=? 90))%nat then Some (n - 65)
  else if ((97 <=? n) && (n <=? 122))%nat then Some (n - 71)
  else if ((48 <=? n) && (n <=? 57))%nat then Some (n + 4)
  else if (n =? 43)%nat then Some 62
  else if (n =? 47)%nat then Some 63
  else None.

Definition byte (n : nat) : ascii := ascii_of_nat (n mod 256).

Fixpoint decode64 (fuel : nat) (s : string) : option string :=
  match fuel with
  | O => None
  | S fuel =>
      match s with
      | EmptyString => Some EmptyString
      | String a (String b (String c (String d rest))) =>
          match sextet a, sextet b with
          | Some x, Some y =>
              let b1 := byte (x * 4 + y / 16) in
              if Ascii.eqb c "=" then
                if (Ascii.eqb d "=" && (rest =? EmptyString))%bool
                then Some (String b1 EmptyString)
                else None
              else
                match sextet c with
                | Some z =>
                    let b2 := byte (y mod 16 * 16 + z / 4) in
                    if Ascii.eqb d "=" then
                      if rest =? EmptyString
                      then Some (String b1 (String b2 EmptyString))
                      else None
                    else
                      match sextet d, decode64 fuel rest with
                      | Some u, Some tail =>
                          Some (String b1 (String b2
                                 (String (byte (z mod 4 * 64 + u)) tail)))
                      | _, _ => None
                      end
                | None => None
                end
          | _, _ => None
          end
      | _ => None
      end
  end.

Definition base64 (s : string) : option string :=
  decode64 (S (String.length s)) s.

(** The part of a state blob before the first ["|"]. *)
Fixpoint libraryPart (s : string) : string :=
  match s with
  | EmptyString => EmptyString
  | String c s' =>
      if Ascii.eqb c "|" then EmptyString else String c (libraryPart s')
  end.

(** [ProtocolUtils.parseRequestState]: the library part is decoded and read
    as JSON, a failure of either throwing [invalidState]; the JSON value is
    returned as the library state, whatever it is. *)
Definition decodeLibraryState (state : string) : Result json :=
  if state =? EmptyString then Throw invalidState
  else
    match base64 (libraryPart state) with
    | Some text =>
        match parse text with
        | Some library => Ok library
        | None => Throw invalidState
        end
    | None => Throw invalidState
    end.

Definition parseState (state : string) : Result RequestStateObject :=
  match decodeLibraryState state with
  | Throw e => Throw e
  | Ok JNull => Ok {| libraryState := None |}
  | Ok (JObj fields) =>
      Ok {| libraryState :=
              Some {| id := match field "id" fields with
                            | Some (JStr i) => Some i
                            | _ => None
                            end |} |}
  | Ok _ => Ok {| libraryState := Some {| id := None |} |}
  end.

Definition interactionTypeOf (t : string) : option BrowserStateObject :=
  if t =? "redirect" then Some {| interactionType := Redirect |}
  else if t =? "popup" then Some {| interactionType := Popup |}
  else if t =? "silent" then Some {| interactionType := Silent |}
  else if t =? "none" then Some {| interactionType := NoInteraction |}
  else None.

(** [extractBrowserRequestState]: [null] for an empty blob, otherwise the
    [meta] of the library state, any failure on the way, a [null] library
    state included, throwing [invalidState].  A [meta] that is missing or
    names none of the interaction types matches no type: it reads as
    [null]. *)
Definition extractState (state : string)
  : Result (option BrowserStateObject) :=
  if state =? EmptyString then Ok None
  else
    match decodeLibraryState state with
    | Throw e => Throw e
    | Ok JNull => Throw invalidState
    | Ok (JObj fields) =>
        match field "meta" fields with
        | Some (JObj meta) =>
            match field "interactionType" meta with
            | Some (JStr t) => Ok (interactionTypeOf t)
            | _ => Ok None
            end
        | _ => Ok None
        end
    | Ok _ => Ok None
    end.

Definition hasFields (names : list string) (j : json) : bool :=
  match j with
  | JObj fields =>
      forallb (fun n => match field n fields with Some _ => true | None => false end)
        names
  | _ => false
  end.

Definition credentialTypeIs (names : list string) (j : json) : bool :=
  match j with
  | JObj fields =>
      match field "credentialType" fields with
      | Some (JStr t) => existsb (String.eqb t) names
      | _ => false
      end
  | _ => false
  end.

Definition credentialFields : list string :=
  ["homeAccountId"; "environment"; "credentialType"; "realm"; "secret"].

Definition host : Host := {|
  CACHE_PREFIX := "msal";
  ACCOUNT_KEYS := "msal.account.keys";
  TOKEN_KEYS := "msal.token.keys";
  AUTHORITY := "authority";
  REQUEST_STATE := "request.state";
  NONCE_IDTOKEN := "nonce.id_token";
  ORIGIN_URI := "request.origin";
  URL_HASH := "urlHash";
  REQUEST_PARAMS := "request.params";
  INTERACTION_STATUS_KEY := "interaction.status";
  CCS_CREDENTIAL := "ccs.credential";
  CORRELATION_ID := "request.correlationId";
  NATIVE_REQUEST := "request.native";
  HOME_ACCOUNT_ID := "home_account_id";
  UPN := "UPN";
  JSON_parse := parse;
  JSON_stringify := stringify;
  base64Decode := base64;
  parseRequestState := parseState;
  extractBrowserRequestState := extractState;
  isAccountEntity :=
    hasFields ["homeAccountId"; "environment"; "realm"; "localAccountId";
               "username"; "authorityType"];
  isIdTokenEntity := fun j =>
    hasFields credentialFields j && credentialTypeIs ["IdToken"] j;
  isAccessTokenEntity := fun j =>
    hasFields ("target" :: credentialFields) j
    && credentialTypeIs ["AccessToken"; "AccessToken_With_AuthScheme"] j;
  isRefreshTokenEntity := fun j =>
    hasFields credentialFields j && credentialTypeIs ["RefreshToken"] j;
  credentialOfAccount := fun accountKey key => JS.startsWith key accountKey;
  isAppMetadata := fun key => JS.includes key "appmetadata"
|}.

(** A manager for client ["app"], persistent scope on the local storage,
    temporary scope on the session storage. *)
Definition manager (cookies : bool) : BrowserCacheManager :=
  {| clientId := "app";
     cacheConfig := {| cacheLocation := LocalStorage;
                       temporaryCacheLocation := SessionStorage;
                       storeAuthStateInCookie := cookies;
                       secureCookies := false |} |}.

(** The default manager, both scopes in memory. *)
Definition memoryManager : BrowserCacheManager :=
  {| clientId := "app";
     cacheConfig := {| cacheLocation := MemoryStorage;
                       temporaryCacheLocation := MemoryStorage;
                       storeAuthStateInCookie := false;
                       secureCookies := false |} |}.

(** The state blob of a redirect request: the base64 text of the library
    state with id [abc] and interaction type [redirect]. *)
Definition redirectState : string :=
  "eyJpZCI6ImFiYyIsIm1ldGEiOnsiaW50ZXJhY3Rpb25UeXBlIjoicmVkaXJlY3QifX0=".

(** Worlds of the scenarios below. *)
Definition world (local session cookies : Storage) : World :=
  {| localStorage := local; sessionStorage := session; browserMemory := [];
     temporaryMemory := []; internalStorage := []; cookieStorage := cookies |}.

Definition lockKey : string := "msal.interaction.status".


(** The text of the elements of a key array. *)
Definition keysText (keys : list string) : string := join (map quote keys).


(** A local storage holding one entry listed in the account index and in
    the id-token index, the entry being the JSON text [raw]. *)
Definition indexedEntry (key raw : string) : Storage :=
  [ (key, raw);
    ("msal.account.keys", stringify (ofStringArray [key]));
    ("msal.token.keys.app",
     stringify (JObj [ ("idToken", ofStringArray [key]);
                       ("accessToken", ofStringArray []);
                       ("refreshToken", ofStringArray []) ])) ].


(** An account record with the fields of an account entity. *)
Definition account : json :=
  JObj [ ("homeAccountId", JStr "uid.utid");
         ("environment", JStr "login.example.com");
         ("realm", JStr "contoso");
         ("localAccountId", JStr "uid");
         ("username", JStr "user@contoso.example");
         ("authorityType", JStr "MSSTS") ].

Definition accountKey : string := "uid.utid-login.example.com-contoso".


(** A local storage holding one account and the account index listing it. *)
Definition accountStore : Storage :=
  [ (accountKey, stringify account);
    ("msal.account.keys", stringify (ofStringArray [accountKey])) ].

End Demo.

(** ** The remaining methods of the class *)

(** The filter [getActiveAccount] hands to the account lookup: the three
    properties read off the parsed pointer, each possibly [undefined]. *)
Record ActiveAccountFilters : Type := {
  filterHomeAccountId : option json;
  filterLocalAccountId : option json;
  filterTenantId : option json
}.

(** What the remaining methods import and this repository does not contain:
    two more groups of key names, the base64 encoder, [toLowerCase], the
    shape checks of the keyed entities, and two methods inherited from the
    base class (the account lookup may itself read, and so repair, the
    cache). *)
Class Imports : Type := {
  (* InMemoryCacheKeys, PersistentCacheKeys *)
  WRAPPER_SKU : string;
  WRAPPER_VER : string;
  ACTIVE_ACCOUNT_FILTERS : string;
  (* base64Encode, String.prototype.toLowerCase *)
  base64Encode : string -> string;
  toLowerCase : string -> string;
  (* entity shape checks that also look at the key *)
  isAppMetadataEntity : string -> json -> bool;
  isServerTelemetryEntity : string -> json -> bool;
  isThrottlingEntity : string -> json -> bool;
  isAuthorityMetadataEntity : string -> json -> bool;
  (* inherited: isAuthorityMetadata, getAccountInfoFilteredBy *)
  isAuthorityMetadata : string -> bool;
  getAccountInfoFilteredBy :
    BrowserCacheManager -> ActiveAccountFilters -> World ->
    option AccountInfo * World
}.

Section RemainingMethods.

Context {host : Host} {imports : Imports}.
Variable this : BrowserCacheManager.

(** [o.name] on a value [validateAndParseJson] let through (an object or an
    array); [None] is [undefined]. *)
Definition property (name : string) (o : json) : option json :=
  match o with
  | JObj fields => field name fields
  | _ => None
  end.

(** *** Credentials, by category *)

Definition setIdTokenCredential (idTokenKey : string) (idToken : json)
  : M unit :=
  exec (updateStorage this Persistent
          (fun s => setUserData s idTokenKey (JSON_stringify idToken))) ;;
  addTokenKey this idTokenKey ID_TOKEN.

Definition setAccessTokenCredential (accessTokenKey : string)
    (accessToken : json) : M unit :=
  exec (updateStorage this Persistent
          (fun s => setUserData s accessTokenKey (JSON_stringify accessToken))) ;;
  addTokenKey this accessTokenKey ACCESS_TOKEN.

Definition setRefreshTokenCredential (refreshTokenKey : string)
    (refreshToken : json) : M unit :=
  exec (updateStorage this Persistent
          (fun s => setUserData s refreshTokenKey (JSON_stringify refreshToken))) ;;
  addTokenKey this refreshTokenKey REFRESH_TOKEN.

(** *** Keyed entities without an index *)

(** The common body of [getAppMetadata], [getServerTelemetry],
    [getThrottlingCache] and [getAuthorityMetadata]: read, parse, check the
    shape against the key; nothing is written. *)
Definition getKeyedEntity (isEntity : string -> json -> bool)
    (storage : Storage) (key : string) : option json :=
  match JS.nonEmpty (getItem storage key) with
  | None => None
  | Some value =>
      match validateAndParseJson value with
      | Some parsed => if isEntity key parsed then Some parsed else None
      | None => None
      end
  end.

Definition getAppMetadata (appMetadataKey : string) (w : World) : option json :=
  getKeyedEntity isAppMetadataEntity (browserStorage this w) appMetadataKey.

(** [setAppMetadata], with the key [generateAppMetadataKey] computed by the
    caller. *)
Definition setAppMetadata (appMetadataKey : string) (appMetadata : json)
    (w : World) : World :=
  browserStorage_setItem this appMetadataKey (JSON_stringify appMetadata) w.

Definition getServerTelemetry (serverTelemetryKey : string) (w : World)
  : option json :=
  getKeyedEntity isServerTelemetryEntity (browserStorage this w)
    serverTelemetryKey.

Definition setServerTelemetry (serverTelemetryKey : string)
    (serverTelemetry : json) (w : World) : World :=
  browserStorage_setItem this serverTelemetryKey
    (JSON_stringify serverTelemetry) w.

Definition getThrottlingCache (throttlingCacheKey : string) (w : World)
  : option json :=
  getKeyedEntity isThrottlingEntity (browserStorage this w) throttlingCacheKey.

Definition setThrottlingCache (throttlingCacheKey : string)
    (throttlingCache : json) (w : World) : World :=
  browserStorage_setItem this throttlingCacheKey
    (JSON_stringify throttlingCache) w.

(** *** In-memory metadata *)

Definition getAuthorityMetadata (key : string) (w : World) : option json :=
  getKeyedEntity isAuthorityMetadataEntity (internalStorage w) key.

Definition getAuthorityMetadataKeys (w : World) : list string :=
  filter isAuthorityMetadata (getKeys (internalStorage w)).

Definition setAuthorityMetadata (key : string) (entity : json) (w : World)
  : World :=
  updateInternal (fun s => setItem s key (JSON_stringify entity)) w.

Definition setWrapperMetadata (wrapperSKU wrapperVersion : string) (w : World)
  : World :=
  updateInternal (fun s => setItem s WRAPPER_VER wrapperVersion)
    (updateInternal (fun s => setItem s WRAPPER_SKU wrapperSKU) w).

Definition getWrapperMetadata (w : World) : string * string :=
  let sku :=
    match JS.nonEmpty (getItem (internalStorage w) WRAPPER_SKU) with
    | Some sku => sku
    | None => ""
    end in
  let version :=
    match JS.nonEmpty (getItem (internalStorage w) WRAPPER_VER) with
    | Some version => version
    | None => ""
    end in
  (sku, version).

(** *** Active account *)

Definition activeAccountFilters (account : AccountInfo) : json :=
  JObj [ ("homeAccountId", JStr (homeAccountId account));
         ("localAccountId", JStr (localAccountId account));
         ("tenantId", JStr (tenantId account)) ].

Definition getActiveAccount (w : World) : option AccountInfo * World :=
  let activeAccountKeyFilters := generateCacheKey this ACTIVE_ACCOUNT_FILTERS in
  match JS.nonEmpty (getItem (browserStorage this w) activeAccountKeyFilters) with
  | None => (None, w)
  | Some activeAccountValueFilters =>
      match validateAndParseJson activeAccountValueFilters with
      | Some activeAccountValueObj =>
          getAccountInfoFilteredBy this
            {| filterHomeAccountId :=
                 property "homeAccountId" activeAccountValueObj;
               filterLocalAccountId :=
                 property "localAccountId" activeAccountValueObj;
               filterTenantId := property "tenantId" activeAccountValueObj |}
            w
      | None => (None, w)
      end
  end.

Definition setActiveAccount (account : option AccountInfo) (w : World)
  : World :=
  let activeAccountKey := generateCacheKey this ACTIVE_ACCOUNT_FILTERS in
  match account with
  | Some account =>
      browserStorage_setItem this activeAccountKey
        (JSON_stringify (activeAccountFilters account)) w
  | None => browserStorage_removeItem this activeAccountKey w
  end.

(** *** Keys and claims *)

(** [getKeys()] *)
Definition getKeys_ (w : World) : list string := getKeys (browserStorage this w).

(** The callback [clearTokensAndKeysWithClaims] runs on each access-token
    key.  Calling [toLowerCase] on a truthy claims hash that is not a string
    throws. *)
Definition clearTokenWithClaims (key : string) : M unit :=
  credential <- getAccessTokenCredential this key ;;
  match credential with
  | None => ret tt
  | Some credential =>
      match property "requestedClaimsHash" credential with
      | None => ret tt
      | Some requestedClaimsHash =>
          if json_truthy requestedClaimsHash then
            match requestedClaimsHash with
            | JStr hash =>
                if JS.includes key (toLowerCase hash)
                then removeAccessToken this key
                else ret tt
            | _ => throw TypeError
            end
          else ret tt
      end
  end.

(** [clearTokensAndKeysWithClaims]; the removals whose promises it collects
    run in program order. *)
Definition clearTokensAndKeysWithClaims : M unit :=
  tokenKeys <- eval (getTokenKeys this) ;;
  forEach (accessToken tokenKeys) clearTokenWithClaims.

(** *** Cached requests *)

Definition cacheCodeRequest (authCodeRequest : json) (w : World) : World :=
  setTemporaryCache this REQUEST_PARAMS
    (base64Encode (JSON_stringify authCodeRequest)) true w.

Definition getCachedNativeRequest (w : World) : option json :=
  match JS.nonEmpty (getTemporaryCache this NATIVE_REQUEST true w) with
  | None => None
  | Some cachedRequest => validateAndParseJson cachedRequest
  end.

(** [DEFAULT_BROWSER_CACHE_MANAGER]: both scopes in memory, no cookies. *)
Definition DEFAULT_BROWSER_CACHE_MANAGER (clientId : string)
  : BrowserCacheManager :=
  {| clientId := clientId;
     cacheConfig := {| cacheLocation := MemoryStorage;
                       temporaryCacheLocation := MemoryStorage;
                       storeAuthStateInCookie := false;
                       secureCookies := false |} |}.

End RemainingMethods.

Section MoreObservations.

Context {host : Host}.
Variable this : BrowserCacheManager.

(** The fallback of [getTemporaryCache] to the persistent backend finds
    nothing under [key]: the persistent scope is not the local storage, or
    is the temporary backend itself, or holds no non-empty value there. *)
Definition legacyFree (w : World) (key : string) : Prop :=
  cacheLocation (cacheConfig this) = LocalStorage ->
  sharesMedium this = false ->
  JS.nonEmpty (browserItem this w key) = None.

(** The JSON value survives [JSON.stringify] followed by [JSON.parse]. *)
Definition roundTrips (j : json) : Prop :=
  JSON_parse (JSON_stringify j) = Some j.

End MoreObservations.

Section ClaimsObservations.

Context {host : Host} {imports : Imports}.
Variable this : BrowserCacheManager.

(** The entity a credential getter accepts under [key]: the stored text is
    non-empty, parses to an object, and passes the entity check. *)
Definition storedEntity (isEntity : json -> bool) (w : World) (key : string)
  : option json :=
  match JS.nonEmpty (browserItem this w key) with
  | Some value =>
      match validateAndParseJson value with
      | Some parsed => if isEntity parsed then Some parsed else None
      | None => None
      end
  | None => None
  end.

(** What [clearTokensAndKeysWithClaims] finds under an access-token key. *)
Inductive ClaimsVerdict : Type :=
| Unreadable       (* the getter returns null, and drops the key *)
| Kept             (* no claims hash, or one the key does not contain *)
| KeyedByClaims    (* the key contains the lower-cased claims hash *)
| BadHash.         (* a truthy claims hash that is not a string *)

Definition claimsVerdict (w : World) (key : string) : ClaimsVerdict :=
  match storedEntity isAccessTokenEntity w key with
  | None => Unreadable
  | Some credential =>
      match property "requestedClaimsHash" credential with
      | None => Kept
      | Some requestedClaimsHash =>
          if json_truthy requestedClaimsHash then
            match requestedClaimsHash with
            | JStr hash =>
                if JS.includes key (toLowerCase hash) then KeyedByClaims
                else Kept
            | _ => BadHash
            end
          else Kept
      end
  end.

Definition kept (w : World) (key : string) : bool :=
  match claimsVerdict w key with
  | Kept => true
  | _ => false
  end.

Definition keyedByClaims (w : World) (key : string) : bool :=
  match claimsVerdict w key with
  | KeyedByClaims => true
  | _ => false
  end.

Definition badHash (w : World) (key : string) : bool :=
  match claimsVerdict w key with
  | BadHash => true
  | _ => false
  end.

(** The state of the sweep of [clearTokensAndKeysWithClaims] started in
    [w], once the access-token keys [done] have been visited and [rest] are
    still in the index: of the visited keys the index lists the kept ones,
    the other two categories are as in [w], and the persistent entries are
    those of [w] less the visited keys that contain their claims hash. *)
Definition claimsSwept (w : World) (done rest : list string) (wc : World)
  : Prop :=
  accessToken (getTokenKeys this wc) = filter (kept w) done ++ rest
  /\ idToken (getTokenKeys this wc) = idToken (getTokenKeys this w)
  /\ refreshToken (getTokenKeys this wc) = refreshToken (getTokenKeys this w)
  /\ (forall key, key <> tokenKeysSlot this ->
        browserItem this wc key
        = if listed done key && keyedByClaims w key then None
          else browserItem this w key).

End ClaimsObservations.

(** ** The writing interface of the class *)

Section Interface.

Context {host : Host} {imports : Imports}.
Variable this : BrowserCacheManager.

(** The calls the frame properties below range over: the methods of the
    class that may write and whose writes are all made by code modelled
    here, with their arguments.  Three methods of the class are not among
    them: [initialize], whose body is the [initialize] of the persistent
    storage object, and [hydrateCache] and [saveCacheRecord], which write
    through [saveCacheRecord] of the base class; neither is in the
    repository.  [getActiveAccount] writes what the inherited account
    lookup writes. *)
Inductive Call : Type :=
| DoSetAccount (key : string) (account : json)
| DoGetAccount (accountKey : string)
| DoRemoveAccount (key : string)
| DoAddAccountKeyToMap (key : string)
| DoRemoveAccountKeyFromMap (key : string)
| DoAddTokenKey (key : string) (type : CredentialType)
| DoRemoveTokenKey (key : string) (type : CredentialType)
| DoSetIdTokenCredential (key : string) (idToken : json)
| DoSetAccessTokenCredential (key : string) (accessToken : json)
| DoSetRefreshTokenCredential (key : string) (refreshToken : json)
| DoGetIdTokenCredential (key : string)
| DoGetAccessTokenCredential (key : string)
| DoGetRefreshTokenCredential (key : string)
| DoRemoveIdToken (key : string)
| DoRemoveAccessToken (key : string)
| DoRemoveRefreshToken (key : string)
| DoSetAppMetadata (key : string) (appMetadata : json)
| DoSetServerTelemetry (key : string) (serverTelemetry : json)
| DoSetThrottlingCache (key : string) (throttlingCache : json)
| DoSetAuthorityMetadata (key : string) (entity : json)
| DoSetWrapperMetadata (wrapperSKU wrapperVersion : string)
| DoSetActiveAccount (account : option AccountInfo)
| DoGetActiveAccount
| DoSetTemporaryCache (cacheKey value : string) (generateKey : bool)
| DoRemoveItem (key : string)
| DoRemoveTemporaryItem (key : string)
| DoClear
| DoClearTokensAndKeysWithClaims
| DoUpdateCacheEntries (state nonce authorityInstance loginHint : string)
    (account : option AccountInfo)
| DoResetRequestCache (state : string)
| DoCleanRequestByState (stateString : string)
| DoCleanRequestByInteractionType (interactionType : InteractionType)
| DoCacheCodeRequest (authCodeRequest : json)
| DoGetCachedRequest (state : string)
| DoSetInteractionInProgress (inProgress : bool).

(** A call run for its effect, the value it returns dropped. *)
Definition perform (call : Call) : M unit :=
  match call with
  | DoSetAccount key account => exec (setAccount this key account)
  | DoGetAccount accountKey =>
      exec (fun w => snd (getAccount this accountKey w))
  | DoRemoveAccount key => exec (removeAccount this key)
  | DoAddAccountKeyToMap key => exec (addAccountKeyToMap this key)
  | DoRemoveAccountKeyFromMap key => exec (removeAccountKeyFromMap this key)
  | DoAddTokenKey key type => addTokenKey this key type
  | DoRemoveTokenKey key type => removeTokenKey this key type
  | DoSetIdTokenCredential key idToken =>
      setIdTokenCredential this key idToken
  | DoSetAccessTokenCredential key accessToken =>
      setAccessTokenCredential this key accessToken
  | DoSetRefreshTokenCredential key refreshToken =>
      setRefreshTokenCredential this key refreshToken
  | DoGetIdTokenCredential key => getIdTokenCredential this key ;; ret tt
  | DoGetAccessTokenCredential key =>
      getAccessTokenCredential this key ;; ret tt
  | DoGetRefreshTokenCredential key =>
      getRefreshTokenCredential this key ;; ret tt
  | DoRemoveIdToken key => removeIdToken this key
  | DoRemoveAccessToken key => removeAccessToken this key
  | DoRemoveRefreshToken key => removeRefreshToken this key
  | DoSetAppMetadata key appMetadata =>
      exec (setAppMetadata this key appMetadata)
  | DoSetServerTelemetry key serverTelemetry =>
      exec (setServerTelemetry this key serverTelemetry)
  | DoSetThrottlingCache key throttlingCache =>
      exec (setThrottlingCache this key throttlingCache)
  | DoSetAuthorityMetadata key entity => exec (setAuthorityMetadata key entity)
  | DoSetWrapperMetadata wrapperSKU wrapperVersion =>
      exec (setWrapperMetadata wrapperSKU wrapperVersion)
  | DoSetActiveAccount account => exec (setActiveAccount this account)
  | DoGetActiveAccount => exec (fun w => snd (getActiveAccount this w))
  | DoSetTemporaryCache cacheKey value generateKey =>
      exec (setTemporaryCache this cacheKey value generateKey)
  | DoRemoveItem key => exec (removeItem_ this key)
  | DoRemoveTemporaryItem key => exec (removeTemporaryItem this key)
  | DoClear => clear this
  | DoClearTokensAndKeysWithClaims => clearTokensAndKeysWithClaims this
  | DoUpdateCacheEntries state nonce authorityInstance loginHint account =>
      updateCacheEntries this state nonce authorityInstance loginHint account
  | DoResetRequestCache state => resetRequestCache this state
  | DoCleanRequestByState stateString => cleanRequestByState this stateString
  | DoCleanRequestByInteractionType interactionType =>
      cleanRequestByInteractionType this interactionType
  | DoCacheCodeRequest authCodeRequest =>
      exec (cacheCodeRequest this authCodeRequest)
  | DoGetCachedRequest state => getCachedRequest this state ;; ret tt
  | DoSetInteractionInProgress inProgress =>
      setInteractionInProgress this inProgress
  end.

(** The calls that write the in-memory store. *)
Definition writesMemory (call : Call) : bool :=
  match call with
  | DoSetAuthorityMetadata _ _ | DoSetWrapperMetadata _ _ | DoClear => true
  | _ => false
  end.

(** The calls that work on the temporary cache only. *)
Definition temporaryOnly (call : Call) : bool :=
  match call with
  | DoSetTemporaryCache _ _ _ | DoRemoveTemporaryItem _
  | DoUpdateCacheEntries _ _ _ _ _ | DoResetRequestCache _
  | DoCleanRequestByState _ | DoCleanRequestByInteractionType _
  | DoCacheCodeRequest _ | DoGetCachedRequest _
  | DoSetInteractionInProgress _ => true
  | _ => false
  end.

(** The calls that work on the persistent backend only. *)
Definition persistentOnly (call : Call) : bool :=
  negb (temporaryOnly call) && negb (writesMemory call).

(** A call leaves one of the media of the world as it found it, whatever
    its outcome. *)
Definition spares {A : Type} (view : World -> Storage) (c : M A) : Prop :=
  forall w : World, view (after c w) = view w.

(** The inherited account lookup leaves a medium as it found it. *)
Definition lookupSpares (view : World -> Storage) : Prop :=
  forall (filter : ActiveAccountFilters) (w : World),
    view (snd (getAccountInfoFilteredBy this filter w)) = view w.

End Interface.


(** ** A concrete instance of the further imports *)

Module DemoImports.

(** Base64, standard alphabet with padding. *)
Definition sextetChar (n : nat) : ascii :=
  if (n <? 26)%nat then ascii_of_nat (n + 65)
  else if (n <? 52)%nat then ascii_of_nat (n + 71)
  else if (n <? 62)%nat then ascii_of_nat (n - 4)
  else if (n =? 62)%nat then "+"%char
  else "/"%char.

Fixpoint encode64 (s : string) : string :=
  match s with
  | EmptyString => EmptyString
  | String a EmptyString =>
      let x := nat_of_ascii a in
      String (sextetChar (x / 4))
        (String (sextetChar (x mod 4 * 16)) "==")
  | String a (String b EmptyString) =>
      let x := nat_of_ascii a in
      let y := nat_of_ascii b in
      String (sextetChar (x / 4))
        (String (sextetChar (x mod 4 * 16 + y / 16))
           (String (sextetChar (y mod 16 * 4)) "="))
  | String a (String b (String c rest)) =>
      let x := nat_of_ascii a in
      let y := nat_of_ascii b in
      let z := nat_of_ascii c in
      String (sextetChar (x / 4))
        (String (sextetChar (x mod 4 * 16 + y / 16))
           (String (sextetChar (y mod 16 * 4 + z / 64))
              (String (sextetChar (z mod 64)) (encode64 rest))))
  end.

(** Lower case, for the letters of ASCII. *)
Definition lowerChar (c : ascii) : ascii :=
  let n := nat_of_ascii c in
  if ((65 <=? n) && (n <=? 90))%nat then ascii_of_nat (n + 32) else c.

Fixpoint lower (s : string) : string :=
  match s with
  | EmptyString => EmptyString
  | String c s' => String (lowerChar c) (lower s')
  end.

Definition hasType (type : string) (key : string) (j : json) : bool :=
  JS.includes key type && Demo.hasFields ["environment"] j.

Definition matches (filter : option json) (value : option json) : bool :=
  match filter, value with
  | Some (JStr f), Some (JStr v) => f =? v
  | None, _ => true
  | _, _ => false
  end.

(** The first account of the index that reads back and agrees with the
    filter on home account id, local account id and realm. *)
Fixpoint firstAccount (this : BrowserCacheManager)
    (filter : ActiveAccountFilters) (keys : list string) (w : World)
  : option AccountInfo * World :=
  match keys with
  | [] => (None, w)
  | key :: rest =>
      match getAccount (host := Demo.host) this key w with
      | (Some (JObj fields), w') =>
          if matches (filterHomeAccountId filter) (field "homeAccountId" fields)
             && matches (filterLocalAccountId filter)
                  (field "localAccountId" fields)
             && matches (filterTenantId filter) (field "realm" fields)
          then
            match field "homeAccountId" fields, field "localAccountId" fields,
                  field "realm" fields with
            | Some (JStr h), Some (JStr l), Some (JStr t) =>
                (Some {| homeAccountId := h; localAccountId := l;
                         tenantId := t |}, w')
            | _, _, _ => firstAccount this filter rest w'
            end
          else firstAccount this filter rest w'
      | (_, w') => firstAccount this filter rest w'
      end
  end.

Definition imports : Imports := {|
  WRAPPER_SKU := "wrapper.sku";
  WRAPPER_VER := "wrapper.version";
  ACTIVE_ACCOUNT_FILTERS := "active-account-filters";
  base64Encode := encode64;
  toLowerCase := lower;
  isAppMetadataEntity := hasType "appmetadata";
  isServerTelemetryEntity := hasType "server-telemetry";
  isThrottlingEntity := hasType "throttling";
  isAuthorityMetadataEntity := hasType "authority-metadata";
  isAuthorityMetadata := fun key => JS.includes key "authority-metadata";
  getAccountInfoFilteredBy := fun this filter w =>
    firstAccount this filter (getAccountKeys (host := Demo.host) this w) w
|}.

(** Two token requests, with and without an authority of their own. *)
Definition request : json :=
  JObj [ ("authority", JStr "https://login.example.com/contoso");
         ("code", JStr "abc") ].

Definition requestWithoutAuthority : json :=
  JObj [ ("code", JStr "abc"); ("scopes", JArr [JStr "openid"]) ].

(** A credential of the given type, with the fields the entity checks ask
    for, and its cache key. *)
Definition credential (credentialType : string) : json :=
  JObj [ ("homeAccountId", JStr "uid.utid");
         ("environment", JStr "login.example.com");
         ("credentialType", JStr credentialType);
         ("realm", JStr "contoso");
         ("target", JStr "openid profile");
         ("secret", JStr "s3cr3t") ].

Definition credentialKey (credentialType : string) : string :=
  ("uid.utid-login.example.com-" ++ credentialType ++ "-app-contoso")%string.

(** An access token issued for a claims request, under a key that carries
    the hash of the claims in lower case. *)
Definition claimsToken : json :=
  JObj [ ("homeAccountId", JStr "uid.utid");
         ("environment", JStr "login.example.com");
         ("credentialType", JStr "AccessToken");
         ("realm", JStr "contoso");
         ("target", JStr "openid profile");
         ("secret", JStr "s3cr3t");
         ("requestedClaimsHash", JStr "A1B2") ].

Definition claimsTokenKey : string :=
  "uid.utid-login.example.com-accesstoken-app-contoso-openid-a1b2".

(** App metadata and its key. *)
Definition appMetadata : json :=
  JObj [ ("clientId", JStr "app"); ("environment", JStr "login.example.com") ].

Definition appMetadataKey : string := "appmetadata-login.example.com-app".

Definition user : AccountInfo :=
  {| homeAccountId := "uid.utid"; localAccountId := "uid";
     tenantId := "contoso" |}.

(** An access token whose claims hash is not a string. *)
Definition brokenClaimsToken : json :=
  JObj [ ("homeAccountId", JStr "uid.utid");
         ("environment", JStr "login.example.com");
         ("credentialType", JStr "AccessToken");
         ("realm", JStr "contoso");
         ("target", JStr "openid profile");
         ("secret", JStr "s3cr3t");
         ("requestedClaimsHash", JBool true) ].

Definition brokenClaimsTokenKey : string :=
  "uid.utid-login.example.com-accesstoken-app-contoso-broken".

(** The text of a token index that lists the given access-token keys. *)
Definition accessTokenIndex (keys : list string) : string :=
  Demo.stringify
    (JObj [ ("idToken", ofStringArray []);
            ("accessToken", ofStringArray keys);
            ("refreshToken", ofStringArray []) ]).

(** A local storage with an access token keyed by its claims hash, a plain
    access token, and the index listing both; and the same with a token of
    a broken claims hash listed between them. *)
Definition claimsStore : Storage :=
  [ (claimsTokenKey, Demo.stringify claimsToken);
    (credentialKey "accesstoken", Demo.stringify (credential "AccessToken"));
    ("msal.token.keys.app",
     accessTokenIndex [claimsTokenKey; credentialKey "accesstoken"]) ].

Definition brokenClaimsStore : Storage :=
  [ (claimsTokenKey, Demo.stringify claimsToken);
    (brokenClaimsTokenKey, Demo.stringify brokenClaimsToken);
    (credentialKey "accesstoken", Demo.stringify (credential "AccessToken"));
    ("msal.token.keys.app",
     accessTokenIndex [claimsTokenKey; brokenClaimsTokenKey;
                       credentialKey "accesstoken"]) ].

End DemoImports.

(** * Properties *)

Unset Implicit Arguments.

(** ** Storage backends *)

Lemma getItem_setItem (s : Storage) (k v k' : string) :
  getItem (setItem s k v) k' = if k =? k' then Some v else getItem s k'.
Proof.
  induction s as [|[a b] s IH]; simpl.
  - destruct (k =? k') eqn:E; reflexivity.
  - destruct (a =? k) eqn:Eak; simpl.
    + apply String.eqb_eq in Eak; subst a.
      destruct (k =? k'); reflexivity.
    + destruct (a =? k') eqn:Eak'; [|exact IH].
      apply String.eqb_eq in Eak'; subst a.
      now rewrite String.eqb_sym, Eak.
Qed.

Lemma getItem_removeItem (s : Storage) (k k' : string) :
  getItem (removeItem s k) k' = if k =? k' then None else getItem s k'.
Proof.
  induction s as [|[a b] s IH]; simpl.
  - now destruct (k =? k').
  - destruct (a =? k) eqn:Eak; simpl.
    + apply String.eqb_eq in Eak; subst a. rewrite IH.
      now destruct (k =? k').
    + rewrite IH. destruct (a =? k') eqn:Eak'; [|reflexivity].
      apply String.eqb_eq in Eak'; subst a.
      now rewrite String.eqb_sym, Eak.
Qed.

Lemma setItem_same (s : Storage) (k v : string) :
  getItem s k = Some v -> setItem s k v = s.
Proof.
  induction s as [|[a b] s IH]; simpl; [discriminate|].
  destruct (a =? k) eqn:E; intros H.
  - now injection H as ->.
  - now rewrite IH.
Qed.

Lemma removeItem_absent (s : Storage) (k : string) :
  getItem s k = None -> removeItem s k = s.
Proof.
  induction s as [|[a b] s IH]; simpl; [reflexivity|].
  destruct (a =? k) eqn:E; [discriminate|]. simpl.
  intros H. now rewrite IH.
Qed.

Lemma getItem_In_getKeys (s : Storage) (k : string) :
  In k (getKeys s) <-> getItem s k <> None.
Proof.
  induction s as [|[a b] s IH]; simpl.
  - split; [tauto | congruence].
  - destruct (a =? k) eqn:E.
    + apply String.eqb_eq in E. split; [discriminate | auto].
    + apply String.eqb_neq in E. rewrite <- IH. tauto.
Qed.

(** ** Keys arrays *)

Lemma Array_indexOf_None (a : list string) (x : string) :
  JS.Array_indexOf a x = None <-> ~ In x a.
Proof.
  induction a as [|y a IH]; simpl; [tauto|].
  destruct (y =? x) eqn:E.
  - apply String.eqb_eq in E. split; [discriminate | tauto].
  - apply String.eqb_neq in E.
    destruct (JS.Array_indexOf a x) as [i|].
    + split; [discriminate|]. intros H.
      assert (Hn : ~ In x a) by tauto.
      apply IH in Hn. discriminate.
    + split; [|reflexivity]. intros _ [H|H]; [tauto|].
      now apply IH in H.
Qed.

Lemma spliceKey_removeFirst (a : list string) (x : string) :
  spliceKey a x = removeFirst x a.
Proof.
  unfold spliceKey.
  induction a as [|y a IH]; simpl; [reflexivity|].
  destruct (y =? x); [reflexivity|].
  destruct (JS.Array_indexOf a x) as [i|]; rewrite <- IH; reflexivity.
Qed.

Lemma count_occ_removeFirst (x y : string) (a : list string) :
  count_occ string_dec (removeFirst x a) y =
  if string_dec x y then pred (count_occ string_dec a y)
  else count_occ string_dec a y.
Proof.
  induction a as [|z a IH]; simpl.
  - now destruct (string_dec x y).
  - destruct (z =? x) eqn:E.
    + apply String.eqb_eq in E; subst z.
      destruct (string_dec x y); reflexivity.
    + apply String.eqb_neq in E. simpl. rewrite IH.
      destruct (string_dec z y), (string_dec x y); congruence.
Qed.

Lemma removeFirst_absent (x : string) (a : list string) :
  ~ In x a -> removeFirst x a = a.
Proof.
  induction a as [|y a IH]; simpl; [reflexivity|].
  intros H. destruct (y =? x) eqn:E.
  - apply String.eqb_eq in E. tauto.
  - rewrite IH; tauto.
Qed.

Lemma removeFirst_not_In (x : string) (a : list string) :
  (count_occ string_dec a x <= 1)%nat -> ~ In x (removeFirst x a).
Proof.
  intros H Hin.
  apply (count_occ_In string_dec) in Hin.
  rewrite count_occ_removeFirst in Hin.
  destruct (string_dec x x); [lia | congruence].
Qed.

Lemma count_occ_pushKey (x y : string) (a : list string) :
  count_occ string_dec (pushKey a x) y =
  if string_dec x y then Nat.max 1 (count_occ string_dec a y)
  else count_occ string_dec a y.
Proof.
  unfold pushKey, JS.push.
  destruct (JS.Array_indexOf a x) eqn:E.
  - destruct (string_dec x y) as [->|]; [|reflexivity].
    assert (In y a).
    { destruct (in_dec string_dec y a) as [|Hn]; [assumption|].
      apply Array_indexOf_None in Hn. congruence. }
    apply (count_occ_In string_dec) in H. lia.
  - apply Array_indexOf_None in E.
    rewrite count_occ_app. simpl.
    destruct (string_dec x y) as [->|].
    + apply (count_occ_not_In string_dec) in E. rewrite E. reflexivity.
    + lia.
Qed.

Lemma pushKey_idempotent (x : string) (a : list string) :
  pushKey (pushKey a x) x = pushKey a x.
Proof.
  unfold pushKey at 1.
  destruct (JS.Array_indexOf (pushKey a x) x) eqn:E; [reflexivity|].
  apply Array_indexOf_None in E. exfalso. apply E.
  unfold pushKey, JS.push.
  destruct (JS.Array_indexOf a x) eqn:E'.
  - destruct (in_dec string_dec x a) as [|Hn]; [assumption|].
    apply Array_indexOf_None in Hn. congruence.
  - apply in_or_app. right. now left.
Qed.

Lemma asStrings_map_JStr (keys : list string) :
  asStrings (map JStr keys) = Some keys.
Proof.
  induction keys as [|k keys IH]; simpl; [reflexivity|].
  now rewrite IH.
Qed.

Lemma asStringArray_ofStringArray (keys : list string) :
  asStringArray (ofStringArray keys) = Some keys.
Proof. apply asStrings_map_JStr. Qed.

Lemma tokenKeysOfJson_tokenKeysToJson (t : TokenKeys) :
  tokenKeysOfJson (tokenKeysToJson t) = Some t.
Proof.
  destruct t as [i a r]. unfold tokenKeysToJson, tokenKeysOfJson. simpl.
  now rewrite !asStrings_map_JStr.
Qed.

(** ** Scopes and media *)

Section ScopeFacts.

Variable this : BrowserCacheManager.

Ltac by_location :=
  unfold browserStorage, temporaryCacheStorage, updateStorage, sharesMedium,
    temporaryItem, browserItem, cookieItem, scopeLocation;
  destruct (cacheLocation (cacheConfig this)),
           (temporaryCacheLocation (cacheConfig this));
  reflexivity.

Lemma browserStorage_update_Persistent f w :
  browserStorage this (updateStorage this Persistent f w)
  = f (browserStorage this w).
Proof. by_location. Qed.

Lemma temporaryCacheStorage_update_Temporary f w :
  temporaryCacheStorage this (updateStorage this Temporary f w)
  = f (temporaryCacheStorage this w).
Proof. by_location. Qed.

Lemma browserStorage_update_Temporary f w :
  browserStorage this (updateStorage this Temporary f w)
  = if sharesMedium this then f (browserStorage this w)
    else browserStorage this w.
Proof. by_location. Qed.

Lemma temporaryCacheStorage_update_Persistent f w :
  temporaryCacheStorage this (updateStorage this Persistent f w)
  = if sharesMedium this then f (temporaryCacheStorage this w)
    else temporaryCacheStorage this w.
Proof. by_location. Qed.

Lemma sharesMedium_same w :
  sharesMedium this = true ->
  browserStorage this w = temporaryCacheStorage this w.
Proof.
  unfold browserStorage, temporaryCacheStorage, sharesMedium, scopeLocation.
  destruct (cacheLocation (cacheConfig this)),
           (temporaryCacheLocation (cacheConfig this));
    intros H; try discriminate; reflexivity.
Qed.

Lemma cookieStorage_updateStorage sc f w :
  cookieStorage (updateStorage this sc f w) = cookieStorage w.
Proof.
  unfold updateStorage, scopeLocation.
  destruct sc, (cacheLocation (cacheConfig this)),
           (temporaryCacheLocation (cacheConfig this)); reflexivity.
Qed.

Lemma internalStorage_updateStorage sc f w :
  internalStorage (updateStorage this sc f w) = internalStorage w.
Proof.
  unfold updateStorage, scopeLocation.
  destruct sc, (cacheLocation (cacheConfig this)),
           (temporaryCacheLocation (cacheConfig this)); reflexivity.
Qed.

Lemma browserStorage_updateCookies f w :
  browserStorage this (updateCookies f w) = browserStorage this w.
Proof. by_location. Qed.

Lemma temporaryCacheStorage_updateCookies f w :
  temporaryCacheStorage this (updateCookies f w) = temporaryCacheStorage this w.
Proof. by_location. Qed.

Lemma browserStorage_updateInternal f w :
  browserStorage this (updateInternal f w) = browserStorage this w.
Proof. by_location. Qed.

Lemma temporaryCacheStorage_updateInternal f w :
  temporaryCacheStorage this (updateInternal f w) = temporaryCacheStorage this w.
Proof. by_location. Qed.

(** *** What removing and writing a temporary item changes *)

Lemma temporaryItem_removeTemporaryItem k k' w :
  temporaryItem this (removeTemporaryItem this k w) k'
  = if k =? k' then None else temporaryItem this w k'.
Proof.
  unfold temporaryItem, removeTemporaryItem, temporaryCacheStorage_removeItem,
    cookieStorage_removeItem.
  destruct (storeAuthStateInCookie (cacheConfig this));
    rewrite ?temporaryCacheStorage_updateCookies,
      temporaryCacheStorage_update_Temporary;
    apply getItem_removeItem.
Qed.

Lemma cookieItem_removeTemporaryItem k k' w :
  cookieItem (removeTemporaryItem this k w) k'
  = if storeAuthStateInCookie (cacheConfig this) && (k =? k') then None
    else cookieItem w k'.
Proof.
  unfold cookieItem, removeTemporaryItem, temporaryCacheStorage_removeItem,
    cookieStorage_removeItem.
  destruct (storeAuthStateInCookie (cacheConfig this)); simpl.
  - rewrite cookieStorage_updateStorage. apply getItem_removeItem.
  - apply f_equal2; [apply cookieStorage_updateStorage | reflexivity].
Qed.

Lemma browserItem_removeTemporaryItem k k' w :
  browserItem this (removeTemporaryItem this k w) k'
  = if sharesMedium this && (k =? k') then None else browserItem this w k'.
Proof.
  unfold browserItem, removeTemporaryItem, temporaryCacheStorage_removeItem,
    cookieStorage_removeItem.
  destruct (storeAuthStateInCookie (cacheConfig this));
    rewrite ?browserStorage_updateCookies, browserStorage_update_Temporary;
    destruct (sharesMedium this); simpl;
    try reflexivity; apply getItem_removeItem.
Qed.

Lemma temporaryItem_setTemporaryCache {host : Host} k v k' w :
  temporaryItem this (setTemporaryCache this k v false w) k'
  = if k =? k' then Some v else temporaryItem this w k'.
Proof.
  unfold temporaryItem, setTemporaryCache, temporaryCacheStorage_setItem,
    cookieStorage_setItem.
  destruct (storeAuthStateInCookie (cacheConfig this));
    rewrite ?temporaryCacheStorage_updateCookies,
      temporaryCacheStorage_update_Temporary;
    apply getItem_setItem.
Qed.

End ScopeFacts.

(** ** The temporary cache and the interaction lock *)

Section TemporaryCache.

Context {host : Host}.
Variable this : BrowserCacheManager.

Lemma nonEmpty_Some (v : option string) (s : string) :
  JS.nonEmpty v = Some s <-> v = Some s /\ s <> "".
Proof.
  unfold JS.nonEmpty, JS.truthy. destruct v as [t|].
  - destruct (t =? "") eqn:E; simpl.
    + apply String.eqb_eq in E. split; [discriminate|].
      intros [H Hne]. injection H as ->. contradiction.
    + apply String.eqb_neq in E. split.
      * intros H. injection H as ->. auto.
      * intros [H _]. exact H.
  - split; [discriminate | intros [H _]; discriminate].
Qed.

Lemma nonEmpty_of_Some (s : string) :
  s <> "" -> JS.nonEmpty (Some s) = Some s.
Proof. intros H. now apply nonEmpty_Some. Qed.

(** [getTemporaryCache] never returns the empty string. *)
Lemma getTemporaryCache_nonEmpty cacheKey generateKey w :
  JS.nonEmpty (getTemporaryCache this cacheKey generateKey w)
  = getTemporaryCache this cacheKey generateKey w.
Proof.
  assert (idem : forall v, JS.nonEmpty (JS.nonEmpty v) = JS.nonEmpty v).
  { intros [t|]; [|reflexivity]. unfold JS.nonEmpty, JS.truthy.
    destruct (t =? "") eqn:E; simpl; [reflexivity|]. now rewrite E. }
  unfold getTemporaryCache.
  set (key := if generateKey then _ else _).
  destruct (storeAuthStateInCookie (cacheConfig this)).
  - destruct (JS.nonEmpty (getItem (cookieStorage w) key)) eqn:Ec.
    + rewrite <- Ec. apply idem.
    + destruct (JS.nonEmpty (getItem (temporaryCacheStorage this w) key)) eqn:Et.
      * rewrite <- Et. apply idem.
      * destruct (BrowserCacheLocation_eqb _ _); [apply idem | reflexivity].
  - destruct (JS.nonEmpty (getItem (temporaryCacheStorage this w) key)) eqn:Et.
    + rewrite <- Et. apply idem.
    + destruct (BrowserCacheLocation_eqb _ _); [apply idem | reflexivity].
Qed.

End TemporaryCache.

(** C10.  With cookies enabled, a non-empty cookie value for the key is what
    [getTemporaryCache] returns, whatever the temporary backend holds; and
    when the cookie jar gives nothing, the temporary backend holds no value
    and the persistent scope is the local storage, the call returns what the
    persistent backend holds under the same key (an empty string reading as
    absent, like everywhere in the class). *)
Theorem getTemporaryCache_cookie_then_local_fallback
    {host : Host} (this : BrowserCacheManager) (w : World)
    (cacheKey : string) (generateKey : bool) :
  let key := if generateKey then generateCacheKey this cacheKey else cacheKey in
  (forall v : string,
      storeAuthStateInCookie (cacheConfig this) = true ->
      cookieItem w key = Some v -> v <> "" ->
      getTemporaryCache this cacheKey generateKey w = Some v)
  /\ ((storeAuthStateInCookie (cacheConfig this) = true ->
       JS.nonEmpty (cookieItem w key) = None) ->
      temporaryItem this w key = None ->
      cacheLocation (cacheConfig this) = LocalStorage ->
      getTemporaryCache this cacheKey generateKey w
      = JS.nonEmpty (browserItem this w key)).
Proof.
  intros key. unfold getTemporaryCache. fold key. split.
  - intros v Hc Hv Hne. rewrite Hc.
    unfold cookieItem in Hv. rewrite Hv.
    now rewrite (nonEmpty_of_Some _ Hne).
  - intros Hcookie Ht Hloc. unfold temporaryItem in Ht.
    rewrite Ht, Hloc. simpl.
    destruct (storeAuthStateInCookie (cacheConfig this)); [|reflexivity].
    unfold cookieItem in Hcookie. now rewrite (Hcookie eq_refl).
Qed.

(** C2.  [setInteractionInProgress(true)] throws the conflict error, leaving
    the world as it was, whenever the lock reads as held, by any owner, in
    particular whenever the temporary backend holds a non-empty value under
    the lock key; otherwise, an empty string stored under the lock key
    included, it stores this client id there.
    [setInteractionInProgress(false)] removes the entry when the lock
    reads as this client id and changes nothing in every other case. *)
Theorem setInteractionInProgress_exclusive
    {host : Host} (this : BrowserCacheManager) (w : World) :
  let lock := interactionStatusKey in
  (forall owner : string,
      getInteractionInProgress this w = Some owner ->
      setInteractionInProgress this true w = (Throw interactionInProgress, w))
  /\ (forall owner : string,
      temporaryItem this w lock = Some owner -> owner <> "" ->
      setInteractionInProgress this true w = (Throw interactionInProgress, w))
  /\ (getInteractionInProgress this w = None ->
      exists w',
        setInteractionInProgress this true w = (Ok tt, w')
        /\ temporaryItem this w' lock = Some (clientId this))
  /\ (getInteractionInProgress this w = Some (clientId this) ->
      exists w',
        setInteractionInProgress this false w = (Ok tt, w')
        /\ temporaryItem this w' lock = None
        /\ (storeAuthStateInCookie (cacheConfig this) = true ->
            cookieItem w' lock = None))
  /\ (getInteractionInProgress this w <> Some (clientId this) ->
      setInteractionInProgress this false w = (Ok tt, w)).
Proof.
  intros lock.
  assert (held : forall owner,
             getInteractionInProgress this w = Some owner ->
             setInteractionInProgress this true w
             = (Throw interactionInProgress, w)).
  { intros owner H. unfold setInteractionInProgress, bind, eval, throw.
    rewrite H.
    assert (Hn : JS.nonEmpty (Some owner) = Some owner).
    { rewrite <- H. apply getTemporaryCache_nonEmpty. }
    unfold JS.nonEmpty in Hn.
    destruct (JS.truthy (Some owner)); [reflexivity | discriminate]. }
  split; [exact held|]. split; [|split; [|split]].
  - intros owner Ht Hne.
    destruct (getInteractionInProgress this w) as [o|] eqn:E;
      [now apply (held o)|].
    exfalso. unfold getInteractionInProgress, getTemporaryCache in E.
    unfold temporaryItem in Ht. fold lock in E. rewrite Ht in E.
    rewrite (nonEmpty_of_Some _ Hne) in E.
    destruct (storeAuthStateInCookie (cacheConfig this));
      [destruct (JS.nonEmpty (getItem (cookieStorage w) lock))|]; discriminate.
  - intros H. eexists. split.
    + unfold setInteractionInProgress, bind, eval, exec. rewrite H. reflexivity.
    + rewrite temporaryItem_setTemporaryCache. now rewrite String.eqb_refl.
  - intros H. eexists. split; [|split].
    + unfold setInteractionInProgress, bind, eval, exec. rewrite H.
      rewrite String.eqb_refl. reflexivity.
    + rewrite temporaryItem_removeTemporaryItem. now rewrite String.eqb_refl.
    + intros Hc. rewrite cookieItem_removeTemporaryItem, Hc.
      now rewrite String.eqb_refl.
  - intros H. unfold setInteractionInProgress, bind, eval, ret.
    destruct (getInteractionInProgress this w) as [o|]; [|reflexivity].
    destruct (o =? clientId this) eqn:E; [|reflexivity].
    apply String.eqb_eq in E. congruence.
Qed.

Lemma getTemporaryCache_cookie_then_local_fallback_witness :
  getTemporaryCache (host := Demo.host) (Demo.manager true) "k" false
    (Demo.world [] [("k", "temporary")] [("k", "cookie")]) = Some "cookie"
  /\ getTemporaryCache (host := Demo.host) (Demo.manager false) "k" false
       (Demo.world [("k", "legacy")] [] []) = Some "legacy".
Proof.
  split.
  - apply (proj1 (getTemporaryCache_cookie_then_local_fallback
                    (host := Demo.host) (Demo.manager true)
                    (Demo.world [] [("k", "temporary")] [("k", "cookie")])
                    "k" false) "cookie");
      [reflexivity | reflexivity | discriminate].
  - rewrite (proj2 (getTemporaryCache_cookie_then_local_fallback
                      (host := Demo.host) (Demo.manager false)
                      (Demo.world [("k", "legacy")] [] []) "k" false));
      [reflexivity | discriminate | reflexivity | reflexivity].
Defined.

Lemma setInteractionInProgress_exclusive_witness :
  setInteractionInProgress (host := Demo.host) (Demo.manager false) true
    (Demo.world [] [(Demo.lockKey, "other")] [])
  = (Throw interactionInProgress,
     Demo.world [] [(Demo.lockKey, "other")] [])
  /\ setInteractionInProgress (host := Demo.host) (Demo.manager false) false
       (Demo.world [] [(Demo.lockKey, "other")] [])
     = (Ok tt, Demo.world [] [(Demo.lockKey, "other")] [])
  /\ (exists w',
        setInteractionInProgress (host := Demo.host) (Demo.manager false)
          true emptyWorld = (Ok tt, w')
        /\ temporaryItem (Demo.manager false) w' Demo.lockKey = Some "app")
  /\ (exists w',
        setInteractionInProgress (host := Demo.host) (Demo.manager false)
          false (Demo.world [] [(Demo.lockKey, "app")] []) = (Ok tt, w')
        /\ temporaryItem (Demo.manager false) w' Demo.lockKey = None).
Proof.
  pose proof (setInteractionInProgress_exclusive (host := Demo.host)
                (Demo.manager false)
                (Demo.world [] [(Demo.lockKey, "other")] []))
    as [held [stored [_ [_ other]]]].
  pose proof (setInteractionInProgress_exclusive (host := Demo.host)
                (Demo.manager false) emptyWorld) as [_ [_ [free _]]].
  pose proof (setInteractionInProgress_exclusive (host := Demo.host)
                (Demo.manager false)
                (Demo.world [] [(Demo.lockKey, "app")] []))
    as [_ [_ [_ [mine _]]]].
  split; [|split; [|split]].
  - apply (stored "other"); [reflexivity | discriminate].
  - apply other. discriminate.
  - apply free. reflexivity.
  - destruct (mine eq_refl) as [w' [H1 [H2 _]]]. exists w'. split; assumption.
Defined.

(** C2, as stated, fails: not every value stored under the lock key makes
    the acquisition fail.  The empty string, which an instance with an empty
    client id stores, reads as no lock: [setInteractionInProgress(true)]
    returns normally and overwrites it. *)
Lemma setInteractionInProgress_overwrites_empty_value :
  let this := Demo.manager false in
  let w := Demo.world [] [(Demo.lockKey, "")] [] in
  let acquire := setInteractionInProgress (host := Demo.host) this true in
  temporaryItem this w Demo.lockKey = Some ""
  /\ fst (acquire w) = Ok tt
  /\ temporaryItem this (after acquire w) Demo.lockKey = Some "app".
Proof. vm_compute. repeat split; reflexivity. Qed.

(** ** The cached request *)

Section CachedRequest.

Context {host : Host}.
Variable this : BrowserCacheManager.

Lemma getTemporaryCache_items key w :
  getTemporaryCache this key false w =
  match (if storeAuthStateInCookie (cacheConfig this)
         then JS.nonEmpty (cookieItem w key) else None) with
  | Some v => Some v
  | None =>
      match JS.nonEmpty (temporaryItem this w key) with
      | Some v => Some v
      | None =>
          if BrowserCacheLocation_eqb (cacheLocation (cacheConfig this))
               LocalStorage
          then JS.nonEmpty (browserItem this w key)
          else None
      end
  end.
Proof. reflexivity. Qed.

Lemma nonEmpty_None_stable (x y : option string) :
  JS.nonEmpty x = None -> y = None \/ y = x -> JS.nonEmpty y = None.
Proof. intros H [->| ->]; [reflexivity | exact H]. Qed.

(** Removing a temporary item cannot make an absent temporary read present. *)
Lemma getTemporaryCache_None_removeTemporaryItem key removed w :
  getTemporaryCache this key false w = None ->
  getTemporaryCache this key false (removeTemporaryItem this removed w) = None.
Proof.
  rewrite !getTemporaryCache_items.
  assert (Hc : cookieItem (removeTemporaryItem this removed w) key = None
               \/ cookieItem (removeTemporaryItem this removed w) key
                  = cookieItem w key).
  { rewrite cookieItem_removeTemporaryItem.
    destruct (_ && _); auto. }
  assert (Ht : temporaryItem this (removeTemporaryItem this removed w) key = None
               \/ temporaryItem this (removeTemporaryItem this removed w) key
                  = temporaryItem this w key).
  { rewrite temporaryItem_removeTemporaryItem.
    destruct (_ =? _); auto. }
  assert (Hb : browserItem this (removeTemporaryItem this removed w) key = None
               \/ browserItem this (removeTemporaryItem this removed w) key
                  = browserItem this w key).
  { rewrite browserItem_removeTemporaryItem.
    destruct (_ && _); auto. }
  intros H.
  assert (H1 : (if storeAuthStateInCookie (cacheConfig this)
                then JS.nonEmpty (cookieItem w key) else None) = None).
  { destruct (if storeAuthStateInCookie (cacheConfig this)
              then JS.nonEmpty (cookieItem w key) else None);
      [discriminate | reflexivity]. }
  rewrite H1 in H.
  assert (H2 : JS.nonEmpty (temporaryItem this w key) = None).
  { destruct (JS.nonEmpty (temporaryItem this w key));
      [discriminate | reflexivity]. }
  rewrite H2 in H.
  rewrite (nonEmpty_None_stable _ _ H2 Ht).
  destruct (storeAuthStateInCookie (cacheConfig this)).
  - rewrite (nonEmpty_None_stable _ _ H1 Hc).
    destruct (BrowserCacheLocation_eqb _ _); [|reflexivity].
    exact (nonEmpty_None_stable _ _ H Hb).
  - destruct (BrowserCacheLocation_eqb _ _); [|reflexivity].
    exact (nonEmpty_None_stable _ _ H Hb).
Qed.

End CachedRequest.




(** ** Key indexes *)

Section KeyIndexes.

Context {host : Host}.
Hypothesis laws : JsonLaws.
Variable this : BrowserCacheManager.

Lemma updateStorage_same sc f w :
  f (getStorageImplementation (scopeLocation this sc) sc w)
  = getStorageImplementation (scopeLocation this sc) sc w ->
  updateStorage this sc f w = w.
Proof.
  unfold updateStorage. intros ->. unfold scopeLocation.
  destruct w, sc, (cacheLocation (cacheConfig this)),
    (temporaryCacheLocation (cacheConfig this)); reflexivity.
Qed.

Lemma browserStorage_setItem_same key value w :
  browserItem this w key = Some value ->
  browserStorage_setItem this key value w = w.
Proof.
  intros H. apply updateStorage_same. now apply setItem_same.
Qed.

Lemma browserStorage_removeItem_absent key w :
  browserItem this w key = None ->
  browserStorage_removeItem this key w = w.
Proof.
  intros H. apply updateStorage_same. now apply removeItem_absent.
Qed.

Lemma browserItem_setItem key value key' w :
  browserItem this (browserStorage_setItem this key value w) key'
  = if key =? key' then Some value else browserItem this w key'.
Proof.
  unfold browserItem, browserStorage_setItem.
  rewrite browserStorage_update_Persistent. apply getItem_setItem.
Qed.

Lemma browserItem_removeItem key key' w :
  browserItem this (browserStorage_removeItem this key w) key'
  = if key =? key' then None else browserItem this w key'.
Proof.
  unfold browserItem, browserStorage_removeItem.
  rewrite browserStorage_update_Persistent. apply getItem_removeItem.
Qed.

Lemma nonEmpty_stringify (j : json) :
  JS.nonEmpty (Some (JSON_stringify j)) = Some (JSON_stringify j).
Proof. apply nonEmpty_of_Some, (stringify_nonEmpty laws). Qed.

(** *** The account index *)

Lemma getAccountKeys_items w :
  getAccountKeys this w
  = match JS.nonEmpty (browserItem this w ACCOUNT_KEYS) with
    | Some text =>
        match JSON_parse text with
        | Some j => match asStringArray j with Some keys => keys | None => [] end
        | None => []
        end
    | None => []
    end.
Proof. reflexivity. Qed.

Lemma getAccountKeys_written keys w :
  getAccountKeys this
    (browserStorage_setItem this ACCOUNT_KEYS
       (JSON_stringify (ofStringArray keys)) w) = keys.
Proof.
  rewrite getAccountKeys_items, browserItem_setItem, String.eqb_refl.
  rewrite nonEmpty_stringify, (parse_stringify_keys laws).
  now rewrite asStringArray_ofStringArray.
Qed.

Lemma getAccountKeys_removeAccountKeyFromMap key w :
  getAccountKeys this (removeAccountKeyFromMap this key w)
  = removeFirst key (getAccountKeys this w).
Proof.
  rewrite <- spliceKey_removeFirst. unfold removeAccountKeyFromMap, spliceKey.
  destruct (JS.Array_indexOf (getAccountKeys this w) key);
    [apply getAccountKeys_written | reflexivity].
Qed.

Lemma getAccountKeys_addAccountKeyToMap key w :
  getAccountKeys this (addAccountKeyToMap this key w)
  = pushKey (getAccountKeys this w) key.
Proof.
  unfold addAccountKeyToMap, pushKey.
  destruct (JS.Array_indexOf (getAccountKeys this w) key);
    [reflexivity | apply getAccountKeys_written].
Qed.

Lemma removeAccountKeyFromMap_absent key w :
  ~ In key (getAccountKeys this w) -> removeAccountKeyFromMap this key w = w.
Proof.
  intros H. apply Array_indexOf_None in H.
  unfold removeAccountKeyFromMap. now rewrite H.
Qed.

(** *** The token index *)

Lemma getTokenKeys_items w :
  getTokenKeys this w
  = match JS.nonEmpty (browserItem this w (tokenKeysSlot this)) with
    | Some text =>
        match JSON_parse text with
        | Some j =>
            match tokenKeysOfJson j with
            | Some t => t
            | None => emptyTokenKeys
            end
        | None => emptyTokenKeys
        end
    | None => emptyTokenKeys
    end.
Proof. reflexivity. Qed.

Lemma getTokenKeys_written t w :
  getTokenKeys this
    (browserStorage_setItem this (tokenKeysSlot this)
       (JSON_stringify (tokenKeysToJson t)) w) = t.
Proof.
  rewrite getTokenKeys_items, browserItem_setItem, String.eqb_refl.
  rewrite nonEmpty_stringify, (parse_stringify_tokenKeys laws).
  now rewrite tokenKeysOfJson_tokenKeysToJson.
Qed.

Lemma removeTokenKey_writes key type w :
  indexed type ->
  removeTokenKey this key type w
  = (Ok tt,
     writeTokenKeys this (withCategory type (removeFirst key) (getTokenKeys this w)) w).
Proof.
  intros Hi. unfold removeTokenKey, bind, eval, ret, exec, writeTokenKeys.
  destruct type; simpl; try (exfalso; now apply Hi);
    rewrite <- spliceKey_removeFirst; unfold spliceKey;
    destruct (JS.Array_indexOf _ key); try reflexivity;
    destruct (getTokenKeys this w); reflexivity.
Qed.

Lemma addTokenKey_writes key type w :
  indexed type ->
  addTokenKey this key type w
  = (Ok tt,
     writeTokenKeys this (withCategory type (fun keys => pushKey keys key)
                       (getTokenKeys this w)) w).
Proof.
  intros Hi. unfold addTokenKey, bind, eval, ret, exec, writeTokenKeys.
  destruct type; simpl; try (exfalso; now apply Hi);
    unfold pushKey;
    destruct (JS.Array_indexOf _ key); try reflexivity;
    destruct (getTokenKeys this w); reflexivity.
Qed.

Lemma category_withCategory type f t :
  indexed type -> category type (withCategory type f t) = f (category type t).
Proof. intros Hi. destruct type; try reflexivity. exfalso. now apply Hi. Qed.

Lemma withCategory_same type f t :
  f (category type t) = category type t -> withCategory type f t = t.
Proof. destruct type, t; simpl; intros H; rewrite ?H; reflexivity. Qed.

Lemma writeTokenKeys_current w t :
  getTokenKeys this (writeTokenKeys this t w) = t.
Proof. apply getTokenKeys_written. Qed.

Lemma writeTokenKeys_twice t w :
  writeTokenKeys this t (writeTokenKeys this t w) = writeTokenKeys this t w.
Proof.
  unfold writeTokenKeys at 1. apply browserStorage_setItem_same.
  unfold writeTokenKeys. now rewrite browserItem_setItem, String.eqb_refl.
Qed.

End KeyIndexes.

Section IndexMaintenance.

Context {host : Host}.
Hypothesis laws : JsonLaws.
Variable this : BrowserCacheManager.

Lemma In_pushKey key keys : In key (pushKey keys key).
Proof.
  unfold pushKey, JS.push.
  destruct (JS.Array_indexOf keys key) eqn:E.
  - destruct (in_dec string_dec key keys) as [|Hn]; [assumption|].
    apply Array_indexOf_None in Hn. congruence.
  - apply in_or_app. right. now left.
Qed.

Lemma addTokenKey_twice key type w :
  indexed type ->
  exists w1,
    addTokenKey this key type w = (Ok tt, w1)
    /\ addTokenKey this key type w1 = (Ok tt, w1)
    /\ category type (getTokenKeys this w1)
       = pushKey (category type (getTokenKeys this w)) key.
Proof.
  intros Hi. eexists. split; [now apply addTokenKey_writes|].
  split.
  - rewrite addTokenKey_writes; [|assumption].
    rewrite (writeTokenKeys_current laws this).
    rewrite withCategory_same.
    + now rewrite (writeTokenKeys_twice this).
    + rewrite category_withCategory by assumption. apply pushKey_idempotent.
  - rewrite (writeTokenKeys_current laws this).
    now apply category_withCategory.
Qed.

Lemma getCredential_unreadable isEntity type key w :
  indexed type ->
  unreadable isEntity (browserItem this w key) ->
  getCredential this isEntity type key w
  = (Ok None,
     writeTokenKeys this
       (withCategory type (removeFirst key) (getTokenKeys this w)) w).
Proof.
  intros Hi Hu. unfold getCredential, bind, eval, ret.
  change (getUserData (browserStorage this w) key) with (browserItem this w key).
  assert (Hr := removeTokenKey_writes this key type w Hi).
  destruct (JS.nonEmpty (browserItem this w key)) as [text|] eqn:E.
  - apply nonEmpty_Some in E. destruct E as [E _].
    destruct Hu as [Hu | [[t [Ht Hp]] | [t [j [Ht [Hp He]]]]]];
      rewrite E in *; try discriminate; injection Ht as <-; rewrite Hp.
    + now rewrite Hr.
    + rewrite He. now rewrite Hr.
  - now rewrite Hr.
Qed.

Lemma removeEntity_then_removeTokenKey key type w :
  indexed type ->
  key <> tokenKeysSlot this ->
  NoDup (category type (getTokenKeys this w)) ->
  exists w1,
    (exec (CacheManager_removeEntity this key) ;; removeTokenKey this key type) w
    = (Ok tt, w1)
    /\ browserItem this w1 key = None
    /\ ~ In key (category type (getTokenKeys this w1))
    /\ (exec (CacheManager_removeEntity this key) ;; removeTokenKey this key type) w1
       = (Ok tt, w1).
Proof.
  intros Hi Hslot Hnd.
  assert (Hne : (tokenKeysSlot this =? key) = false)
    by (apply String.eqb_neq; congruence).
  assert (Hne' : (key =? tokenKeysSlot this) = false)
    by (apply String.eqb_neq; congruence).
  set (w0 := CacheManager_removeEntity this key w).
  assert (Hkeys : getTokenKeys this w0 = getTokenKeys this w).
  { rewrite !getTokenKeys_items. unfold w0, CacheManager_removeEntity, removeItem_.
    now rewrite browserItem_removeItem, Hne'. }
  set (t1 := withCategory type (removeFirst key) (getTokenKeys this w)).
  assert (Hout : ~ In key (category type t1)).
  { unfold t1. rewrite category_withCategory by assumption.
    apply removeFirst_not_In.
    now apply (proj1 (NoDup_count_occ string_dec _)). }
  exists (writeTokenKeys this t1 w0).
  assert (Hgone : browserItem this (writeTokenKeys this t1 w0) key = None).
  { unfold writeTokenKeys. rewrite browserItem_setItem, Hne.
    unfold w0, CacheManager_removeEntity, removeItem_.
    now rewrite browserItem_removeItem, String.eqb_refl. }
  split; [|split; [|split]].
  - unfold bind, exec. fold w0.
    rewrite (removeTokenKey_writes this key type w0 Hi). now rewrite Hkeys.
  - exact Hgone.
  - now rewrite (writeTokenKeys_current laws this).
  - unfold bind, exec.
    unfold CacheManager_removeEntity, removeItem_.
    rewrite (browserStorage_removeItem_absent this _ _ Hgone).
    rewrite (removeTokenKey_writes this key type _ Hi).
    rewrite (writeTokenKeys_current laws this).
    rewrite withCategory_same by (now apply removeFirst_absent).
    now rewrite (writeTokenKeys_twice this).
Qed.

End IndexMaintenance.

(** C7.  Adding a key to an index twice is the same as adding it once: the
    second [addTokenKey] (for each indexed credential type) or
    [addAccountKeyToMap] leaves the world of the first unchanged, and the key
    then occurs once, or as often as it already did in an index that held it
    before.  In particular [addTokenKey("k1", ACCESS_TOKEN)] twice on an
    empty access-token index leaves [getTokenKeys().accessToken] equal to
    [["k1"]]. *)
Theorem addKey_idempotent
    {host : Host} (laws : JsonLaws) (this : BrowserCacheManager)
    (key : string) (w : World) :
  (forall type : CredentialType, indexed type ->
     exists w1,
       addTokenKey this key type w = (Ok tt, w1)
       /\ addTokenKey this key type w1 = (Ok tt, w1)
       /\ count_occ string_dec (category type (getTokenKeys this w1)) key
          = Nat.max 1
              (count_occ string_dec (category type (getTokenKeys this w)) key))
  /\ (let w1 := addAccountKeyToMap this key w in
      addAccountKeyToMap this key w1 = w1
      /\ count_occ string_dec (getAccountKeys this w1) key
         = Nat.max 1 (count_occ string_dec (getAccountKeys this w) key))
  /\ (accessToken (getTokenKeys this w) = [] ->
      exists w1 w2,
        addTokenKey this "k1" ACCESS_TOKEN w = (Ok tt, w1)
        /\ addTokenKey this "k1" ACCESS_TOKEN w1 = (Ok tt, w2)
        /\ accessToken (getTokenKeys this w2) = ["k1"]).
Proof.
  split; [|split].
  - intros type Hi.
    destruct (addTokenKey_twice laws this key type w Hi) as [w1 [H1 [H2 H3]]].
    exists w1. split; [exact H1|]. split; [exact H2|].
    rewrite H3, count_occ_pushKey.
    destruct (string_dec key key); [reflexivity | congruence].
  - intros w1. split.
    + unfold addAccountKeyToMap at 1.
      destruct (JS.Array_indexOf (getAccountKeys this w1) key) eqn:E;
        [reflexivity|].
      apply Array_indexOf_None in E. exfalso. apply E. unfold w1.
      rewrite (getAccountKeys_addAccountKeyToMap laws this). apply In_pushKey.
    + unfold w1. rewrite (getAccountKeys_addAccountKeyToMap laws this).
      rewrite count_occ_pushKey.
      destruct (string_dec key key); [reflexivity | congruence].
  - intros Hempty.
    assert (Hi : indexed ACCESS_TOKEN) by discriminate.
    destruct (addTokenKey_twice laws this "k1" ACCESS_TOKEN w Hi) as [w1 [H1 [H2 H3]]].
    exists w1, w1. split; [exact H1|]. split; [exact H2|].
    simpl in H3. rewrite H3, Hempty. reflexivity.
Qed.

(** C1.  When the value stored under [K] is absent, is not the JSON text of
    an object, or is an object failing the entity check of the category,
    each getter returns absent without throwing and takes (the first
    occurrence of) [K] out of the category's key index, so that [K] is no
    longer in an index that listed it at most once. *)
Theorem getters_self_heal
    {host : Host} (laws : JsonLaws) (this : BrowserCacheManager)
    (K : string) (w : World) :
  (unreadable isAccountEntity (browserItem this w K) ->
   exists w',
     getAccount this K w = (None, w')
     /\ getAccountKeys this w' = removeFirst K (getAccountKeys this w)
     /\ (NoDup (getAccountKeys this w) -> ~ In K (getAccountKeys this w')))
  /\ (unreadable isIdTokenEntity (browserItem this w K) ->
      exists w',
        getIdTokenCredential this K w = (Ok None, w')
        /\ getTokenKeys this w'
           = withCategory ID_TOKEN (removeFirst K) (getTokenKeys this w)
        /\ (NoDup (idToken (getTokenKeys this w)) ->
            ~ In K (idToken (getTokenKeys this w'))))
  /\ (unreadable isAccessTokenEntity (browserItem this w K) ->
      exists w',
        getAccessTokenCredential this K w = (Ok None, w')
        /\ getTokenKeys this w'
           = withCategory ACCESS_TOKEN (removeFirst K) (getTokenKeys this w)
        /\ (NoDup (accessToken (getTokenKeys this w)) ->
            ~ In K (accessToken (getTokenKeys this w'))))
  /\ (unreadable isRefreshTokenEntity (browserItem this w K) ->
      exists w',
        getRefreshTokenCredential this K w = (Ok None, w')
        /\ getTokenKeys this w'
           = withCategory REFRESH_TOKEN (removeFirst K) (getTokenKeys this w)
        /\ (NoDup (refreshToken (getTokenKeys this w)) ->
            ~ In K (refreshToken (getTokenKeys this w')))).
Proof.
  assert (token : forall isEntity type,
             indexed type ->
             unreadable isEntity (browserItem this w K) ->
             exists w',
               getCredential this isEntity type K w = (Ok None, w')
               /\ getTokenKeys this w'
                  = withCategory type (removeFirst K) (getTokenKeys this w)
               /\ (NoDup (category type (getTokenKeys this w)) ->
                   ~ In K (category type (getTokenKeys this w')))).
  { intros isEntity type Hi Hu. eexists. split; [|split].
    - now apply getCredential_unreadable.
    - apply (writeTokenKeys_current laws this).
    - intros Hnd. rewrite (writeTokenKeys_current laws this).
      rewrite category_withCategory by assumption.
      apply removeFirst_not_In.
      now apply (proj1 (NoDup_count_occ string_dec _)). }
  split; [|split; [|split]].
  - intros Hu. exists (removeAccountKeyFromMap this K w). split; [|split].
    + unfold getAccount.
      change (getUserData (browserStorage this w) K) with (browserItem this w K).
      destruct (JS.nonEmpty (browserItem this w K)) as [text|] eqn:E;
        [|reflexivity].
      apply nonEmpty_Some in E. destruct E as [E _].
      destruct Hu as [Hu | [[t [Ht Hp]] | [t [j [Ht [Hp He]]]]]];
        rewrite E in *; try discriminate; injection Ht as <-; rewrite Hp.
      * reflexivity.
      * now rewrite He.
    + apply (getAccountKeys_removeAccountKeyFromMap laws this).
    + intros Hnd. rewrite (getAccountKeys_removeAccountKeyFromMap laws this).
      apply removeFirst_not_In.
      now apply (proj1 (NoDup_count_occ string_dec _)).
  - apply (token isIdTokenEntity ID_TOKEN). discriminate.
  - apply (token isAccessTokenEntity ACCESS_TOKEN). discriminate.
  - apply (token isRefreshTokenEntity REFRESH_TOKEN). discriminate.
Qed.

(** C6.  After [removeAccount], [removeIdToken], [removeAccessToken] or
    [removeRefreshToken] on an entity key [K] listed at most once in its
    index, [K] is absent from the backing store and from the index, and a
    second removal of [K] returns normally and leaves the world unchanged.
    (For a credential, [K] is an entity key, not the slot of the token index
    itself.) *)
Theorem remove_complete
    {host : Host} (laws : JsonLaws) (this : BrowserCacheManager)
    (K : string) (w : World) :
  (NoDup (getAccountKeys this w) ->
   let w1 := removeAccount this K w in
   browserItem this w1 K = None
   /\ ~ In K (getAccountKeys this w1)
   /\ removeAccount this K w1 = w1)
  /\ (K <> tokenKeysSlot this ->
      NoDup (idToken (getTokenKeys this w)) ->
      exists w1,
        removeIdToken this K w = (Ok tt, w1)
        /\ browserItem this w1 K = None
        /\ ~ In K (idToken (getTokenKeys this w1))
        /\ removeIdToken this K w1 = (Ok tt, w1))
  /\ (K <> tokenKeysSlot this ->
      NoDup (accessToken (getTokenKeys this w)) ->
      exists w1,
        removeAccessToken this K w = (Ok tt, w1)
        /\ browserItem this w1 K = None
        /\ ~ In K (accessToken (getTokenKeys this w1))
        /\ removeAccessToken this K w1 = (Ok tt, w1))
  /\ (K <> tokenKeysSlot this ->
      NoDup (refreshToken (getTokenKeys this w)) ->
      exists w1,
        removeRefreshToken this K w = (Ok tt, w1)
        /\ browserItem this w1 K = None
        /\ ~ In K (refreshToken (getTokenKeys this w1))
        /\ removeRefreshToken this K w1 = (Ok tt, w1)).
Proof.
  split; [|split; [|split]].
  - intros Hnd w1.
    set (w0 := CacheManager_removeEntity this K w).
    assert (Hgone0 : browserItem this w0 K = None).
    { unfold w0, CacheManager_removeEntity, removeItem_.
      now rewrite browserItem_removeItem, String.eqb_refl. }
    assert (Hout : ~ In K (getAccountKeys this w1)).
    { unfold w1, removeAccount. fold w0.
      rewrite (getAccountKeys_removeAccountKeyFromMap laws this).
      destruct (String.eqb_spec K ACCOUNT_KEYS) as [->|Hne].
      - rewrite getAccountKeys_items, Hgone0. simpl. tauto.
      - assert (Hsame : getAccountKeys this w0 = getAccountKeys this w).
        { rewrite !getAccountKeys_items.
          unfold w0, CacheManager_removeEntity, removeItem_.
          rewrite browserItem_removeItem.
          apply String.eqb_neq in Hne. now rewrite Hne. }
        rewrite Hsame. apply removeFirst_not_In.
        now apply (proj1 (NoDup_count_occ string_dec _)). }
    assert (Hgone : browserItem this w1 K = None).
    { unfold w1, removeAccount. fold w0. unfold removeAccountKeyFromMap.
      destruct (JS.Array_indexOf (getAccountKeys this w0) K) eqn:E;
        [|exact Hgone0].
      rewrite browserItem_setItem.
      destruct (String.eqb_spec ACCOUNT_KEYS K) as [<-|Hne]; [|exact Hgone0].
      exfalso. rewrite getAccountKeys_items, Hgone0 in E. discriminate. }
    split; [exact Hgone|]. split; [exact Hout|].
    unfold removeAccount at 1, CacheManager_removeEntity, removeItem_.
    rewrite (browserStorage_removeItem_absent this _ _ Hgone).
    now apply removeAccountKeyFromMap_absent.
  - intros Hslot Hnd.
    apply (removeEntity_then_removeTokenKey laws this K ID_TOKEN);
      [discriminate | assumption | assumption].
  - intros Hslot Hnd.
    apply (removeEntity_then_removeTokenKey laws this K ACCESS_TOKEN);
      [discriminate | assumption | assumption].
  - intros Hslot Hnd.
    apply (removeEntity_then_removeTokenKey laws this K REFRESH_TOKEN);
      [discriminate | assumption | assumption].
Qed.

(** ** The concrete host satisfies the JSON laws *)

Lemma append_assoc (a b c : string) :
  ((a ++ b) ++ c = a ++ (b ++ c))%string.
Proof. induction a as [|x a IH]; simpl; [reflexivity | now rewrite IH]. Qed.

Lemma length_append (a b : string) :
  String.length (a ++ b) = String.length a + String.length b.
Proof. induction a as [|x a IH]; simpl; [reflexivity | now rewrite IH]. Qed.

Lemma parseStringBody_escape (s rest : string) :
  Demo.parseStringBody (Demo.escape s ++ String Demo.dquote rest) = Some (s, rest).
Proof.
  induction s as [|c s IH]; simpl.
  - reflexivity.
  - destruct (Ascii.eqb c Demo.dquote) eqn:Eq; simpl.
    + rewrite IH. reflexivity.
    + destruct (Ascii.eqb c Demo.backslash) eqn:Eb; simpl.
      * rewrite IH. reflexivity.
      * rewrite Eq, Eb, IH. reflexivity.
Qed.

Lemma quote_append (s tail : string) :
  (Demo.quote s ++ tail)%string = String Demo.dquote (Demo.escape s ++ String Demo.dquote tail).
Proof. unfold Demo.quote. simpl. now rewrite append_assoc. Qed.

Lemma parseValue_quote (fuel : nat) (s tail : string) :
  Demo.parseValue (S fuel) (Demo.quote s ++ tail) = Some (JStr s, tail).
Proof.
  rewrite quote_append. simpl. now rewrite parseStringBody_escape.
Qed.

Lemma stringify_ofStringArray (keys : list string) :
  Demo.stringify (ofStringArray keys) = ("[" ++ Demo.keysText keys ++ "]")%string.
Proof.
  unfold ofStringArray, Demo.keysText. simpl. now rewrite map_map.
Qed.

Lemma parseItems_keys (keys : list string) :
  forall (k : string) (fuel : nat) (rest : string),
    List.length keys + 2 <= fuel ->
    Demo.parseItems fuel (Demo.keysText (k :: keys) ++ String "]" rest)
    = Some (map JStr (k :: keys), rest).
Proof.
  induction keys as [|k2 keys IH]; intros k fuel rest Hf.
  - destruct fuel as [|[|fuel]]; try (simpl in Hf; lia).
    unfold Demo.keysText. simpl map. simpl Demo.join.
    change (Demo.parseItems (S (S fuel)) (Demo.quote k ++ String "]" rest))
      with (match Demo.parseValue (S fuel) (Demo.quote k ++ String "]" rest) with
            | Some (v, String "," rest0) =>
                match Demo.parseItems (S fuel) rest0 with
                | Some (vs, rest') => Some (v :: vs, rest')
                | None => None
                end
            | Some (v, String "]" rest0) => Some ([v], rest0)
            | _ => None
            end).
    rewrite parseValue_quote. reflexivity.
  - destruct fuel as [|[|fuel]]; try (simpl in Hf; lia).
    assert (E : (Demo.keysText (k :: k2 :: keys) ++ String "]" rest)%string
                = (Demo.quote k ++ String "," (Demo.keysText (k2 :: keys) ++ String "]" rest))%string).
    { unfold Demo.keysText. simpl map. 
      change (Demo.join (Demo.quote k :: Demo.quote k2 :: map Demo.quote keys))
        with (Demo.quote k ++ "," ++ Demo.join (Demo.quote k2 :: map Demo.quote keys))%string.
      rewrite append_assoc. reflexivity. }
    rewrite E.
    change (Demo.parseItems (S (S fuel)) (Demo.quote k ++ String "," (Demo.keysText (k2 :: keys) ++ String "]" rest)))
      with (match Demo.parseValue (S fuel) (Demo.quote k ++ String "," (Demo.keysText (k2 :: keys) ++ String "]" rest)) with
            | Some (v, String "," rest0) =>
                match Demo.parseItems (S fuel) rest0 with
                | Some (vs, rest') => Some (v :: vs, rest')
                | None => None
                end
            | Some (v, String "]" rest0) => Some ([v], rest0)
            | _ => None
            end).
    rewrite parseValue_quote.
    rewrite IH by (simpl in Hf |- *; lia). reflexivity.
Qed.

Lemma keysText_cons (k : string) (keys : list string) :
  exists tail, Demo.keysText (k :: keys) = String Demo.dquote tail.
Proof.
  unfold Demo.keysText. destruct keys as [|k2 keys]; simpl; eexists; reflexivity.
Qed.

Lemma parseValue_keys (keys : list string) (fuel : nat) (rest : string) :
  List.length keys + 2 <= fuel ->
  Demo.parseValue (S fuel) (Demo.stringify (ofStringArray keys) ++ rest)
  = Some (ofStringArray keys, rest).
Proof.
  intros Hf. rewrite stringify_ofStringArray.
  destruct keys as [|k keys].
  - reflexivity.
  - assert (E : (("[" ++ Demo.keysText (k :: keys) ++ "]") ++ rest)%string
                = String "[" (Demo.keysText (k :: keys) ++ String "]" rest)).
    { simpl. now rewrite append_assoc. }
    rewrite E.
    assert (P := parseItems_keys keys k fuel rest ltac:(simpl in Hf; lia)).
    destruct (keysText_cons k keys) as [tail Ht].
    rewrite Ht in *. simpl in P |- *.
    destruct fuel; [simpl in Hf; lia|].
    simpl in P |- *. rewrite P. reflexivity.
Qed.

Lemma length_stringify_keys (keys : list string) :
  List.length keys + 2 <= String.length (Demo.stringify (ofStringArray keys)).
Proof.
  rewrite stringify_ofStringArray. simpl. rewrite length_append. simpl.
  assert (H : List.length keys <= String.length (Demo.keysText keys));
    [|lia].
  unfold Demo.keysText. induction keys as [|k keys IH]; [simpl; lia|].
  destruct keys as [|k2 keys]; [simpl; lia|].
  change (Demo.join (map Demo.quote (k :: k2 :: keys)))
    with (Demo.quote k ++ "," ++ Demo.join (map Demo.quote (k2 :: keys)))%string.
  rewrite !length_append. simpl in IH |- *. lia.
Qed.

Lemma demo_parse_keys (keys : list string) :
  Demo.parse (Demo.stringify (ofStringArray keys)) = Some (ofStringArray keys).
Proof.
  unfold Demo.parse.
  assert (E : Demo.stringify (ofStringArray keys)
              = (Demo.stringify (ofStringArray keys) ++ "")%string).
  { generalize (Demo.stringify (ofStringArray keys)). intros s.
    induction s as [|c s IH]; simpl; [reflexivity | now rewrite <- IH]. }
  rewrite E at 2.
  rewrite parseValue_keys; [reflexivity|].
  pose proof (length_stringify_keys keys). lia.
Qed.

Lemma parseFields_keys (name : string) (keys : list string) (fuel : nat)
    (tail : string) :
  List.length keys + 2 <= fuel ->
  Demo.parseFields (S (S fuel))
    (Demo.quote name ++ String ":" (Demo.stringify (ofStringArray keys) ++ tail))
  = match tail with
    | String "," rest =>
        match Demo.parseFields (S fuel) rest with
        | Some (fs, rest') => Some ((name, ofStringArray keys) :: fs, rest')
        | None => None
        end
    | String "}" rest => Some ([(name, ofStringArray keys)], rest)
    | _ => None
    end.
Proof.
  intros Hf. rewrite quote_append.
  change (Demo.parseFields (S (S fuel))
            (String Demo.dquote (Demo.escape name ++ String Demo.dquote
               (String ":" (Demo.stringify (ofStringArray keys) ++ tail)))))
    with (match Demo.parseStringBody (Demo.escape name ++ String Demo.dquote
               (String ":" (Demo.stringify (ofStringArray keys) ++ tail))) with
          | Some (name0, String ":" s2) =>
              match Demo.parseValue (S fuel) s2 with
              | Some (v, String "," rest) =>
                  match Demo.parseFields (S fuel) rest with
                  | Some (fs, rest') => Some ((name0, v) :: fs, rest')
                  | None => None
                  end
              | Some (v, String "}" rest) => Some ([(name0, v)], rest)
              | _ => None
              end
          | _ => None
          end).
  rewrite parseStringBody_escape.
  cbv beta iota.
  rewrite (parseValue_keys keys fuel tail Hf). reflexivity.
Qed.

Lemma object_shape (n1 n2 n3 a1 a2 a3 : string) :
  ("{" ++ Demo.join [n1 ++ ":" ++ a1; n2 ++ ":" ++ a2; n3 ++ ":" ++ a3] ++ "}")%string
  = String "{" (n1 ++ String ":" (a1 ++ String ","
                 (n2 ++ String ":" (a2 ++ String ","
                   (n3 ++ String ":" (a3 ++ String "}" EmptyString))))))%string.
Proof.
  simpl. repeat (progress (rewrite ?append_assoc; simpl)). reflexivity.
Qed.

Lemma length_quote (s : string) : 2 <= String.length (Demo.quote s).
Proof. unfold Demo.quote. simpl. rewrite length_append. simpl. lia. Qed.

Lemma demo_parse_tokenKeys (t : TokenKeys) :
  Demo.parse (Demo.stringify (tokenKeysToJson t)) = Some (tokenKeysToJson t).
Proof.
  destruct t as [ids ats rts]. unfold Demo.parse, tokenKeysToJson.
  cbn [idToken accessToken refreshToken].
  change (Demo.stringify
            (JObj [("idToken", ofStringArray ids);
                   ("accessToken", ofStringArray ats);
                   ("refreshToken", ofStringArray rts)]))
    with ("{" ++ Demo.join [Demo.quote "idToken" ++ ":" ++ Demo.stringify (ofStringArray ids);
                       Demo.quote "accessToken" ++ ":" ++ Demo.stringify (ofStringArray ats);
                       Demo.quote "refreshToken" ++ ":" ++ Demo.stringify (ofStringArray rts)]
              ++ "}")%string.
  rewrite object_shape.
  set (a1 := Demo.stringify (ofStringArray ids)).
  set (a2 := Demo.stringify (ofStringArray ats)).
  set (a3 := Demo.stringify (ofStringArray rts)).
  pose proof (length_stringify_keys ids) as L1. fold a1 in L1.
  pose proof (length_stringify_keys ats) as L2. fold a2 in L2.
  pose proof (length_stringify_keys rts) as L3. fold a3 in L3.
  pose proof (length_quote "idToken") as Q1.
  pose proof (length_quote "accessToken") as Q2.
  pose proof (length_quote "refreshToken") as Q3.
  remember (Demo.quote "idToken") as n1.
  remember (Demo.quote "accessToken") as n2.
  remember (Demo.quote "refreshToken") as n3.
  match goal with |- context [Demo.parseValue (S (String.length ?s)) ?s] =>
    assert (Hlen : List.length ids + List.length ats + List.length rts + 12
                   <= String.length s)
  end.
  { cbn [String.length]. repeat (rewrite length_append; cbn [String.length]). lia. }
  match goal with |- context [Demo.parseValue (S (String.length ?s)) ?s] =>
    remember (String.length s) as len
  end.
  destruct len as [|[|[|[|fuel]]]]; try lia.
  assert (R : exists tail, n1 = String Demo.dquote tail).
  { subst n1. unfold Demo.quote. eexists. reflexivity. }
  destruct R as [tail R].
  assert (Open : forall r,
             Demo.parseValue (S (S (S (S (S fuel))))) (String "{" (n1 ++ r))
             = match Demo.parseFields (S (S (S (S fuel)))) (n1 ++ r) with
               | Some (fields, rest') => Some (JObj fields, rest')
               | None => None
               end).
  { intros r. rewrite R. reflexivity. }
  rewrite Open. subst n1 n2 n3. unfold a1, a2, a3.
  rewrite parseFields_keys by lia.
  rewrite parseFields_keys by lia.
  rewrite parseFields_keys by lia.
  reflexivity.
Qed.

Lemma demo_stringify_nonEmpty (j : json) : Demo.stringify j <> EmptyString.
Proof.
  destruct j as [|[|]|n|s|items|fields]; try discriminate.
  simpl. unfold NilZero.string_of_uint.
  destruct (Nat.to_uint n); discriminate.
Qed.

Lemma demo_laws : JsonLaws (host := Demo.host).
Proof.
  constructor.
  - exact demo_parse_keys.
  - exact demo_parse_tokenKeys.
  - exact demo_stringify_nonEmpty.
Qed.

(** ** Scenarios on the concrete host *)

Lemma addKey_idempotent_witness :
  (exists w1,
     addTokenKey (host := Demo.host) Demo.memoryManager "k1" ID_TOKEN
       emptyWorld = (Ok tt, w1)
     /\ addTokenKey (host := Demo.host) Demo.memoryManager "k1" ID_TOKEN w1
        = (Ok tt, w1)
     /\ count_occ string_dec
          (category ID_TOKEN
             (getTokenKeys (host := Demo.host) Demo.memoryManager w1))
          "k1"
        = Nat.max 1
            (count_occ string_dec
               (category ID_TOKEN
                  (getTokenKeys (host := Demo.host) Demo.memoryManager
                     emptyWorld)) "k1"))
  /\ (exists w1 w2,
        addTokenKey (host := Demo.host) Demo.memoryManager "k1"
          ACCESS_TOKEN emptyWorld = (Ok tt, w1)
        /\ addTokenKey (host := Demo.host) Demo.memoryManager "k1"
             ACCESS_TOKEN w1 = (Ok tt, w2)
        /\ accessToken
             (getTokenKeys (host := Demo.host) Demo.memoryManager w2)
           = ["k1"]).
Proof.
  pose proof (addKey_idempotent demo_laws Demo.memoryManager "k1"
                emptyWorld) as [tokens [_ scenario]].
  split.
  - apply (tokens ID_TOKEN). discriminate.
  - apply scenario. reflexivity.
Defined.

Lemma getters_self_heal_witness :
  (exists w',
     getAccount (host := Demo.host) (Demo.manager false) "acct"
       (Demo.world (Demo.indexedEntry "acct" "{}") [] []) = (None, w')
     /\ ~ In "acct"
          (getAccountKeys (host := Demo.host) (Demo.manager false) w'))
  /\ (exists w',
        getIdTokenCredential (host := Demo.host) (Demo.manager false)
          "acct" (Demo.world (Demo.indexedEntry "acct" "{}") [] [])
        = (Ok None, w')
        /\ ~ In "acct"
             (idToken
                (getTokenKeys (host := Demo.host) (Demo.manager false) w'))).
Proof.
  pose proof (getters_self_heal demo_laws (Demo.manager false) "acct"
                (Demo.world (Demo.indexedEntry "acct" "{}") [] []))
    as [account [idtoken _]].
  assert (broken : forall isEntity,
             isEntity (JObj []) = false ->
             unreadable (host := Demo.host) isEntity
               (browserItem (Demo.manager false)
                  (Demo.world (Demo.indexedEntry "acct" "{}") [] [])
                  "acct")).
  { intros isEntity H. right. right. exists "{}", (JObj []).
    split; [reflexivity|]. split; [reflexivity | exact H]. }
  assert (once : NoDup ["acct"]).
  { constructor; [simpl; tauto | constructor]. }
  split.
  - destruct (account (broken _ eq_refl)) as [w' [H1 [_ H3]]].
    exists w'. split; [exact H1 | exact (H3 once)].
  - destruct (idtoken (broken _ eq_refl)) as [w' [H1 [_ H3]]].
    exists w'. split; [exact H1 | exact (H3 once)].
Defined.

Lemma remove_complete_witness :
  (let w1 := removeAccount (host := Demo.host) (Demo.manager false) "acct"
               (Demo.world (Demo.indexedEntry "acct" "{}") [] []) in
   browserItem (Demo.manager false) w1 "acct" = None
   /\ ~ In "acct"
        (getAccountKeys (host := Demo.host) (Demo.manager false) w1)
   /\ removeAccount (host := Demo.host) (Demo.manager false) "acct" w1
      = w1)
  /\ (exists w1,
        removeIdToken (host := Demo.host) (Demo.manager false) "acct"
          (Demo.world (Demo.indexedEntry "acct" "{}") [] [])
        = (Ok tt, w1)
        /\ browserItem (Demo.manager false) w1 "acct" = None
        /\ ~ In "acct"
             (idToken
                (getTokenKeys (host := Demo.host) (Demo.manager false) w1))
        /\ removeIdToken (host := Demo.host) (Demo.manager false) "acct" w1
           = (Ok tt, w1)).
Proof.
  pose proof (remove_complete demo_laws (Demo.manager false) "acct"
                (Demo.world (Demo.indexedEntry "acct" "{}") [] []))
    as [account [idtoken _]].
  assert (once : NoDup ["acct"]).
  { constructor; [simpl; tauto | constructor]. }
  split.
  - exact (account once).
  - apply idtoken; [discriminate | exact once].
Defined.

(** ** Loops over keys *)

Section Sweeps.

Context {host : Host}.
Variable this : BrowserCacheManager.

Lemma forEach_filter (p : string -> bool) (g : string -> World -> World)
    (keys : list string) (w : World) :
  forEach keys (fun key => if p key then exec (g key) else ret tt) w
  = (Ok tt, fold_left (fun w key => g key w) (filter p keys) w).
Proof.
  revert w. induction keys as [|k keys IH]; intros w; [reflexivity|].
  simpl. unfold bind at 1. destruct (p k); simpl; apply IH.
Qed.

Lemma forEach_ok (f : string -> M unit) (keys : list string) :
  (forall key w, exists w', f key w = (Ok tt, w')) ->
  forall w, exists w', forEach keys f w = (Ok tt, w').
Proof.
  intros Hf. induction keys as [|k keys IH]; intros w.
  - exists w. reflexivity.
  - simpl. unfold bind. destruct (Hf k w) as [w1 ->]. apply IH.
Qed.

Lemma listed_In keys key : listed keys key = true <-> In key keys.
Proof.
  unfold listed. rewrite existsb_exists. split.
  - intros [k [Hin E]]. apply String.eqb_eq in E. now subst.
  - intros Hin. exists key. split; [assumption | apply String.eqb_refl].
Qed.

Lemma listed_app keys1 keys2 key :
  listed (keys1 ++ keys2) key = listed keys1 key || listed keys2 key.
Proof. apply existsb_app. Qed.

Lemma temporaryItem_removeTemporaryItems keys key w :
  temporaryItem this (removeTemporaryItems this keys w) key
  = if listed keys key then None else temporaryItem this w key.
Proof.
  revert w. induction keys as [|k keys IH]; intros w; [reflexivity|].
  unfold removeTemporaryItems in *. simpl. rewrite IH.
  rewrite temporaryItem_removeTemporaryItem.
  destruct (listed keys key), (k =? key); reflexivity.
Qed.

Lemma cookieItem_removeTemporaryItems keys key w :
  cookieItem (removeTemporaryItems this keys w) key
  = if storeAuthStateInCookie (cacheConfig this) && listed keys key
    then None else cookieItem w key.
Proof.
  revert w. induction keys as [|k keys IH]; intros w.
  - simpl. now rewrite andb_false_r.
  - unfold removeTemporaryItems in *. simpl. rewrite IH.
    rewrite cookieItem_removeTemporaryItem.
    destruct (storeAuthStateInCookie (cacheConfig this)),
      (listed keys key), (k =? key); reflexivity.
Qed.

Lemma browserItem_removeTemporaryItems keys key w :
  browserItem this (removeTemporaryItems this keys w) key
  = if sharesMedium this && listed keys key
    then None else browserItem this w key.
Proof.
  revert w. induction keys as [|k keys IH]; intros w.
  - simpl. now rewrite andb_false_r.
  - unfold removeTemporaryItems in *. simpl. rewrite IH.
    rewrite browserItem_removeTemporaryItem.
    destruct (sharesMedium this), (listed keys key), (k =? key); reflexivity.
Qed.

Lemma removeTemporaryItems_app keys1 keys2 w :
  removeTemporaryItems this (keys1 ++ keys2) w
  = removeTemporaryItems this keys2 (removeTemporaryItems this keys1 w).
Proof. apply fold_left_app. Qed.

(** *** Releasing the lock *)

Lemma releaseLock_cases w :
  (getInteractionInProgress this w = Some (clientId this)
   /\ releaseLock this w = removeTemporaryItem this interactionStatusKey w)
  \/ (getInteractionInProgress this w <> Some (clientId this)
      /\ releaseLock this w = w).
Proof.
  unfold releaseLock, after, setInteractionInProgress, bind, eval, exec, ret.
  destruct (getInteractionInProgress this w) as [owner|]; simpl.
  - destruct (String.eqb_spec owner (clientId this)) as [->|Hne]; simpl.
    + left. split; reflexivity.
    + right. split; [congruence | reflexivity].
  - right. split; [discriminate | reflexivity].
Qed.

Lemma setInteractionInProgress_false w :
  setInteractionInProgress this false w = (Ok tt, releaseLock this w).
Proof.
  unfold releaseLock, after, setInteractionInProgress, bind, eval, exec, ret.
  destruct (getInteractionInProgress this w) as [owner|]; [|reflexivity].
  destruct (owner =? clientId this); reflexivity.
Qed.

Lemma lockPending_removeTemporaryItem key w :
  lockPending this w -> lockPending this (removeTemporaryItem this key w).
Proof.
  intros H. destruct (String.eqb_spec key interactionStatusKey) as [->|Hne].
  - right. split.
    + now rewrite temporaryItem_removeTemporaryItem, String.eqb_refl.
    + intros Hc. now rewrite cookieItem_removeTemporaryItem, Hc, String.eqb_refl.
  - apply String.eqb_neq in Hne.
    destruct H as [H | [Ht Hc]].
    + left. unfold getInteractionInProgress in *.
      rewrite getTemporaryCache_items in *.
      rewrite cookieItem_removeTemporaryItem, temporaryItem_removeTemporaryItem,
        browserItem_removeTemporaryItem, Hne, !andb_false_r. exact H.
    + right. split.
      * now rewrite temporaryItem_removeTemporaryItem, Hne.
      * intros Hf. rewrite cookieItem_removeTemporaryItem, Hne, andb_false_r.
        now apply Hc.
Qed.

Lemma lockPending_removeTemporaryItems keys w :
  lockPending this w -> lockPending this (removeTemporaryItems this keys w).
Proof.
  revert w. induction keys as [|k keys IH]; intros w H; [exact H|].
  unfold removeTemporaryItems in *. simpl. apply IH.
  now apply lockPending_removeTemporaryItem.
Qed.

Lemma lockGone_releaseLock w : lockPending this w -> lockGone this (releaseLock this w).
Proof.
  intros H. destruct (releaseLock_cases w) as [[Hmine ->] | [Hother ->]].
  - split.
    + now rewrite temporaryItem_removeTemporaryItem, String.eqb_refl.
    + intros Hc. now rewrite cookieItem_removeTemporaryItem, Hc, String.eqb_refl.
  - destruct H as [H | H]; [contradiction | exact H].
Qed.

Lemma lockGone_pending w : lockGone this w -> lockPending this w.
Proof. intros H. right. exact H. Qed.

End Sweeps.

(** ** Resetting the request cache *)

Section RequestCache.

Context {host : Host}.
Variable this : BrowserCacheManager.

Lemma resetRequestCache_run state stateId w :
  state <> "" ->
  requestStateId state = Ok stateId ->
  resetRequestCache this state w
  = (Ok tt,
     releaseLock this
       (removeTemporaryItems this
          (scanned this state w ++ derivedRequestKeys this stateId
             ++ genericRequestKeys this) w)).
Proof.
  intros Hne Hparse. apply String.eqb_neq in Hne.
  unfold resetRequestCache. rewrite Hne. simpl negb. cbv iota.
  unfold bind at 1. unfold bind at 1. unfold eval at 1.
  unfold bind at 1. rewrite forEach_filter. fold (scanned this state w).
  unfold generateStateKey, generateNonceKey, generateAuthorityKey.
  rewrite Hparse. unfold bind, liftR, exec.
  rewrite setInteractionInProgress_false.
  rewrite !removeTemporaryItems_app. reflexivity.
Qed.

Lemma resetRequestCache_run_empty w :
  resetRequestCache this "" w
  = (Ok tt,
     releaseLock this (removeTemporaryItems this (genericRequestKeys this) w)).
Proof.
  unfold resetRequestCache. simpl negb. cbv iota.
  unfold bind, exec, ret. rewrite setInteractionInProgress_false. reflexivity.
Qed.

Lemma temporaryItem_releaseLock key w :
  temporaryItem this (releaseLock this w) key = None
  \/ (key <> interactionStatusKey \/ getInteractionInProgress this w <> Some (clientId this))
     /\ temporaryItem this (releaseLock this w) key = temporaryItem this w key.
Proof.
  destruct (releaseLock_cases this w) as [[Hmine ->] | [Hother ->]].
  - rewrite temporaryItem_removeTemporaryItem.
    destruct (String.eqb_spec interactionStatusKey key) as [<-|Hne]; auto.
  - auto.
Qed.

Lemma temporaryItem_releaseLock_None key w :
  temporaryItem this w key = None ->
  temporaryItem this (releaseLock this w) key = None.
Proof.
  intros H. destruct (temporaryItem_releaseLock key w) as [E | [_ E]];
    [exact E | now rewrite E].
Qed.

Lemma cookieItem_releaseLock_None key w :
  cookieItem w key = None -> cookieItem (releaseLock this w) key = None.
Proof.
  intros H. destruct (releaseLock_cases this w) as [[_ ->] | [_ ->]];
    [|exact H].
  rewrite cookieItem_removeTemporaryItem. now destruct (_ && _).
Qed.

Lemma browserItem_releaseLock key w :
  browserItem this (releaseLock this w) key = None
  \/ browserItem this (releaseLock this w) key = browserItem this w key.
Proof.
  destruct (releaseLock_cases this w) as [[_ ->] | [_ ->]]; [|auto].
  rewrite browserItem_removeTemporaryItem. destruct (_ && _); auto.
Qed.

Lemma listed_scanned state w key :
  listed (scanned this state w) key = true <->
  JS.includes key state = true /\ temporaryItem this w key <> None.
Proof.
  rewrite listed_In. unfold scanned. rewrite filter_In.
  unfold temporaryItem. rewrite getItem_In_getKeys. tauto.
Qed.

End RequestCache.

(** C4.  For a non-empty state blob whose request id can be read,
    [resetRequestCache] returns normally and has removed every temporary key
    that contains the state blob itself as a substring, the derived state,
    nonce and authority keys and the six generic per-flow keys; it has
    released the interaction lock when this client held it; and every other
    temporary key keeps its value. *)
Theorem resetRequestCache_removes
    {host : Host} (this : BrowserCacheManager)
    (state stateId : string) (w : World) :
  state <> "" ->
  requestStateId state = Ok stateId ->
  exists w',
    resetRequestCache this state w = (Ok tt, w')
    /\ (forall key, JS.includes key state = true ->
                    temporaryItem this w' key = None)
    /\ (forall key,
           In key (derivedRequestKeys this stateId ++ genericRequestKeys this) ->
           temporaryItem this w' key = None)
    /\ (getInteractionInProgress this w = Some (clientId this) ->
        temporaryItem this w' interactionStatusKey = None
        /\ (storeAuthStateInCookie (cacheConfig this) = true ->
            cookieItem w' interactionStatusKey = None))
    /\ (forall key,
           JS.includes key state = false ->
           ~ In key (derivedRequestKeys this stateId ++ genericRequestKeys this) ->
           key <> interactionStatusKey ->
           temporaryItem this w' key = temporaryItem this w key).
Proof.
  intros Hne Hparse. eexists.
  split; [exact (resetRequestCache_run this state stateId w Hne Hparse)|].
  set (keys := scanned this state w ++ derivedRequestKeys this stateId
                 ++ genericRequestKeys this).
  split; [|split; [|split]].
  - intros key Hinc. apply temporaryItem_releaseLock_None.
    rewrite temporaryItem_removeTemporaryItems.
    destruct (listed keys key) eqn:E; [reflexivity|].
    destruct (temporaryItem this w key) eqn:Ht; [|reflexivity].
    unfold keys in E. rewrite listed_app in E.
    apply orb_false_iff in E. destruct E as [E _].
    assert (listed (scanned this state w) key = true); [|congruence].
    apply listed_scanned. split; [assumption | congruence].
  - intros key Hin. apply temporaryItem_releaseLock_None.
    rewrite temporaryItem_removeTemporaryItems.
    assert (E : listed keys key = true); [|now rewrite E].
    unfold keys. rewrite listed_app. apply orb_true_iff. right.
    now apply listed_In.
  - intros Hmine. apply lockGone_releaseLock.
    apply lockPending_removeTemporaryItems. now left.
  - intros key Hinc Hout Hlock.
    assert (L : listed keys key = false).
    { unfold keys. rewrite listed_app. apply orb_false_iff. split.
      - destruct (listed (scanned this state w) key) eqn:L; [|reflexivity].
        apply listed_scanned in L. destruct L as [L _]. congruence.
      - destruct (listed (derivedRequestKeys this stateId
                            ++ genericRequestKeys this) key) eqn:L;
          [|reflexivity].
        apply listed_In in L. contradiction. }
    destruct (releaseLock_cases this (removeTemporaryItems this keys w))
      as [[_ R] | [_ R]]; rewrite R.
    + rewrite temporaryItem_removeTemporaryItem.
      apply String.eqb_neq in Hlock. rewrite String.eqb_sym, Hlock.
      now rewrite temporaryItem_removeTemporaryItems, L.
    + now rewrite temporaryItem_removeTemporaryItems, L.
Qed.

Lemma resetRequestCache_removes_witness :
  exists w',
    resetRequestCache (host := Demo.host) (Demo.manager false)
      Demo.redirectState
      (Demo.world []
         [ ("msal.app.request.state.abc", Demo.redirectState);
           ("flow." ++ Demo.redirectState, "1");
           ("msal.interaction.status", "app");
           ("other", "kept") ]%string [])
    = (Ok tt, w')
    /\ temporaryItem (Demo.manager false) w'
         ("flow." ++ Demo.redirectState) = None
    /\ temporaryItem (Demo.manager false) w' "msal.app.request.state.abc"
       = None
    /\ temporaryItem (Demo.manager false) w' "msal.interaction.status" = None
    /\ temporaryItem (Demo.manager false) w' "other" = Some "kept".
Proof.
  destruct (resetRequestCache_removes (host := Demo.host)
              (Demo.manager false) Demo.redirectState "abc"
              (Demo.world []
                 [ ("msal.app.request.state.abc", Demo.redirectState);
                   ("flow." ++ Demo.redirectState, "1");
                   ("msal.interaction.status", "app");
                   ("other", "kept") ]%string [])
              ltac:(discriminate) eq_refl)
    as [w' [run [scan [explicit [lock frame]]]]].
  exists w'. split; [exact run|]. split; [|split; [|split]].
  - apply scan. reflexivity.
  - apply explicit. left. reflexivity.
  - apply lock. reflexivity.
  - rewrite frame.
    + reflexivity.
    + reflexivity.
    + simpl. intros H. repeat (destruct H as [H|H]; [discriminate|]).
      exact H.
    + discriminate.
Defined.

(** C4, as stated, fails: the scan compares keys with the whole state blob,
    not with the request id embedded in it.  A temporary key that contains
    the request id [abc] but not the blob survives the reset. *)
Lemma resetRequestCache_keeps_key_with_request_id :
  let this := Demo.manager false in
  let w := Demo.world [] [("custom.abc", "x")] [] in
  let reset :=
    resetRequestCache (host := Demo.host) this Demo.redirectState in
  requestStateId (host := Demo.host) Demo.redirectState = Ok "abc"
  /\ JS.includes "custom.abc" "abc" = true
  /\ temporaryItem this w "custom.abc" = Some "x"
  /\ fst (reset w) = Ok tt
  /\ temporaryItem this (after reset w) "custom.abc" = Some "x".
Proof. vm_compute. repeat split; reflexivity. Qed.

(** ** Request state written and reset *)

Section FlowCorrelation.

Context {host : Host}.
Variable this : BrowserCacheManager.

Lemma browserItem_setTemporaryCache_unshared cacheKey value generateKey key w :
  sharesMedium this = false ->
  browserItem this (setTemporaryCache this cacheKey value generateKey w) key
  = browserItem this w key.
Proof.
  intros H. unfold browserItem, setTemporaryCache, temporaryCacheStorage_setItem,
    cookieStorage_setItem.
  destruct (storeAuthStateInCookie (cacheConfig this));
    rewrite ?browserStorage_updateCookies, browserStorage_update_Temporary, H;
    reflexivity.
Qed.

Lemma updateCacheEntries_ok state stateId nonce authorityInstance loginHint
    account w :
  requestStateId state = Ok stateId ->
  exists w1,
    updateCacheEntries this state nonce authorityInstance loginHint account w
    = (Ok tt, w1)
    /\ (sharesMedium this = false ->
        forall key, browserItem this w1 key = browserItem this w key).
Proof.
  intros Hparse.
  unfold updateCacheEntries, generateStateKey, generateNonceKey,
    generateAuthorityKey.
  rewrite Hparse. unfold bind, liftR, exec, ret.
  destruct account as [account|]; [|destruct (negb (loginHint =? ""))];
    eexists; (split; [reflexivity|]); intros Hs key;
    now rewrite ?browserItem_setTemporaryCache_unshared.
Qed.

End FlowCorrelation.

(** C3.  For a non-empty state blob [S] whose request id can be read,
    [updateCacheEntries(S, N, A, hint, account)] followed by
    [resetRequestCache(S)] leaves no entry under the derived state, nonce and
    authority keys in the temporary backend (nor in the cookie jar when it
    is in use), and [getCachedAuthority(S)] then returns absent, unless the
    persistent scope is a local storage distinct from the temporary backend
    that itself holds a non-empty entry under the state key, which the
    reader of temporary items falls back to. *)
Theorem updateCacheEntries_then_resetRequestCache
    {host : Host} (this : BrowserCacheManager)
    (state stateId nonce authorityInstance loginHint : string)
    (account : option AccountInfo) (w : World) :
  state <> "" ->
  requestStateId state = Ok stateId ->
  exists w1 w2,
    updateCacheEntries this state nonce authorityInstance loginHint account w
    = (Ok tt, w1)
    /\ resetRequestCache this state w1 = (Ok tt, w2)
    /\ (forall key, In key (derivedRequestKeys this stateId) ->
          temporaryItem this w2 key = None
          /\ (storeAuthStateInCookie (cacheConfig this) = true ->
              cookieItem w2 key = None))
    /\ ((cacheLocation (cacheConfig this) = LocalStorage ->
         sharesMedium this = false ->
         JS.nonEmpty
           (browserItem this w
              (generateCacheKey this (REQUEST_STATE ++ "." ++ stateId)%string))
         = None) ->
        getCachedAuthority this state w2 = Ok None).
Proof.
  intros Hne Hparse.
  destruct (updateCacheEntries_ok this state stateId nonce authorityInstance
              loginHint account w Hparse) as [w1 [Hupdate Hbrowser]].
  exists w1. eexists. split; [exact Hupdate|].
  split; [exact (resetRequestCache_run this state stateId w1 Hne Hparse)|].
  set (keys := scanned this state w1 ++ derivedRequestKeys this stateId
                 ++ genericRequestKeys this).
  assert (Hlisted : forall key, In key (derivedRequestKeys this stateId) ->
                                listed keys key = true).
  { intros key Hin. unfold keys. rewrite !listed_app.
    apply orb_true_iff. right. apply orb_true_iff. left.
    now apply listed_In. }
  assert (Hgone : forall key, In key (derivedRequestKeys this stateId) ->
            temporaryItem this
              (releaseLock this (removeTemporaryItems this keys w1)) key = None
            /\ (storeAuthStateInCookie (cacheConfig this) = true ->
                cookieItem (releaseLock this (removeTemporaryItems this keys w1))
                  key = None)).
  { intros key Hin. split.
    - apply temporaryItem_releaseLock_None.
      now rewrite temporaryItem_removeTemporaryItems, (Hlisted key Hin).
    - intros Hc. apply cookieItem_releaseLock_None.
      now rewrite cookieItem_removeTemporaryItems, Hc, (Hlisted key Hin). }
  split; [exact Hgone|].
  intros Hlegacy.
  set (stateKey := generateCacheKey this (REQUEST_STATE ++ "." ++ stateId)%string)
    in *.
  assert (Hin : In stateKey (derivedRequestKeys this stateId)) by (now left).
  destruct (Hgone stateKey Hin) as [Ht Hc].
  unfold getCachedAuthority, generateStateKey. rewrite Hparse. fold stateKey.
  assert (Hread : getTemporaryCache this stateKey false
                    (releaseLock this (removeTemporaryItems this keys w1))
                  = None); [|now rewrite Hread].
  rewrite getTemporaryCache_items, Ht.
  assert (Hcookie : (if storeAuthStateInCookie (cacheConfig this)
                     then JS.nonEmpty
                            (cookieItem
                               (releaseLock this
                                  (removeTemporaryItems this keys w1)) stateKey)
                     else None) = None).
  { destruct (storeAuthStateInCookie (cacheConfig this)); [|reflexivity].
    now rewrite (Hc eq_refl). }
  rewrite Hcookie. simpl.
  destruct (BrowserCacheLocation_eqb (cacheLocation (cacheConfig this))
              LocalStorage) eqn:Eloc; [|reflexivity].
  assert (Hlocal : cacheLocation (cacheConfig this) = LocalStorage).
  { destruct (cacheLocation (cacheConfig this)); (reflexivity || discriminate). }
  apply nonEmpty_None_stable
    with (x := browserItem this (removeTemporaryItems this keys w1) stateKey);
    [|apply browserItem_releaseLock].
  rewrite browserItem_removeTemporaryItems, (Hlisted stateKey Hin).
  destruct (sharesMedium this) eqn:Es; [reflexivity|]. simpl.
  rewrite (Hbrowser eq_refl). now apply Hlegacy.
Qed.

Lemma updateCacheEntries_then_resetRequestCache_witness :
  exists w1 w2,
    updateCacheEntries (host := Demo.host) (Demo.manager true)
      Demo.redirectState "nonce" "https://login.example.com/tenant" ""
      None emptyWorld = (Ok tt, w1)
    /\ resetRequestCache (host := Demo.host) (Demo.manager true)
         Demo.redirectState w1 = (Ok tt, w2)
    /\ temporaryItem (Demo.manager true) w2 "msal.app.authority.abc" = None
    /\ cookieItem w2 "msal.app.authority.abc" = None
    /\ getCachedAuthority (host := Demo.host) (Demo.manager true)
         Demo.redirectState w2 = Ok None.
Proof.
  destruct (updateCacheEntries_then_resetRequestCache (host := Demo.host)
              (Demo.manager true) Demo.redirectState "abc" "nonce"
              "https://login.example.com/tenant" "" None emptyWorld
              ltac:(discriminate) eq_refl)
    as [w1 [w2 [update [reset [gone absent]]]]].
  exists w1, w2.
  split; [exact update|].
  split; [exact reset|].
  destruct (gone "msal.app.authority.abc") as [Ht Hc];
    [right; right; left; reflexivity|].
  split; [exact Ht|]. split; [exact (Hc eq_refl)|].
  apply absent. intros _ _. reflexivity.
Defined.

(** C3, as stated, fails: with the persistent scope on the local storage and
    the temporary scope on the session storage, entries left in the local
    storage under the state and authority keys are still read back after the
    reset. *)
Lemma getCachedAuthority_after_reset_reads_local_storage :
  let this := Demo.manager false in
  let w :=
    Demo.world
      [ ("msal.app.request.state.abc", Demo.redirectState);
        ("msal.app.authority.abc", "https://old.example.com") ] [] [] in
  let update :=
    updateCacheEntries (host := Demo.host) this Demo.redirectState
      "nonce" "https://login.example.com/tenant" "" None in
  let reset :=
    resetRequestCache (host := Demo.host) this Demo.redirectState in
  fst (update w) = Ok tt
  /\ fst (reset (after update w)) = Ok tt
  /\ getCachedAuthority (host := Demo.host) this Demo.redirectState
       (after reset (after update w))
     = Ok (Some "https://old.example.com").
Proof. vm_compute. repeat split; reflexivity. Qed.

(** ** Cleaning by interaction type *)

Section InteractionType.

Context {host : Host}.
Variable this : BrowserCacheManager.
Hypothesis agree : StateParsersAgree.

Lemma InteractionType_eqb_eq a b : InteractionType_eqb a b = true <-> a = b.
Proof. destruct a, b; simpl; split; congruence. Qed.

Lemma resetRequestCache_stored stateValue parsed w :
  stateValue <> "" ->
  extractBrowserRequestState stateValue = Ok (Some parsed) ->
  exists keys,
    resetRequestCache this stateValue w
    = (Ok tt, releaseLock this (removeTemporaryItems this keys w)).
Proof.
  intros Hne Hx. destruct (agree stateValue parsed Hx) as [stateId Hparse].
  eexists. exact (resetRequestCache_run this _ _ w Hne Hparse).
Qed.

Lemma lockPending_reset keys w :
  lockPending this w ->
  lockPending this (releaseLock this (removeTemporaryItems this keys w)).
Proof.
  intros H. apply lockGone_pending, lockGone_releaseLock.
  now apply lockPending_removeTemporaryItems.
Qed.

Lemma temporaryWithin_reset keys w w0 :
  temporaryWithin this w w0 ->
  temporaryWithin this w
    (releaseLock this (removeTemporaryItems this keys w0)).
Proof.
  intros H key.
  destruct (temporaryItem_releaseLock this key
              (removeTemporaryItems this keys w0)) as [E | [_ E]];
    [now left|].
  rewrite E, temporaryItem_removeTemporaryItems.
  destruct (listed keys key); [now left | apply H].
Qed.

Lemma forEach_maintains (f : string -> M unit) (I : World -> Prop)
    (keys : list string) :
  (forall key w0, I w0 -> exists w1, f key w0 = (Ok tt, w1) /\ I w1) ->
  forall w0, I w0 -> exists w1, forEach keys f w0 = (Ok tt, w1) /\ I w1.
Proof.
  intros Hf. induction keys as [|k keys IH]; intros w0 H0.
  - exists w0. split; [reflexivity | exact H0].
  - simpl. unfold bind. destruct (Hf k w0 H0) as [w1 [-> H1]].
    exact (IH w1 H1).
Qed.

Lemma forEach_unchanged (f : string -> M unit) (keys : list string) (w : World) :
  (forall key, In key keys -> f key w = (Ok tt, w)) ->
  forEach keys f w = (Ok tt, w).
Proof.
  induction keys as [|k keys IH]; intros Hf; [reflexivity|].
  simpl. unfold bind. rewrite (Hf k (or_introl eq_refl)).
  apply IH. intros key Hin. apply Hf. now right.
Qed.

End InteractionType.


Lemma demo_agree : StateParsersAgree (host := Demo.host).
Proof.
  intros state parsed. unfold requestStateId. simpl.
  unfold Demo.extractState, Demo.parseState.
  destruct (state =? "")%string; [discriminate|].
  destruct (Demo.decodeLibraryState state) as [[| | | | |fields]|e];
    try discriminate; intros _; eexists; reflexivity.
Qed.



(** ** Bulk clear *)

Section Clear.

Context {host : Host}.
Variable this : BrowserCacheManager.

Lemma temporaryItem_browserStorage_removeItem key key' w :
  temporaryItem this (browserStorage_removeItem this key w) key'
  = if sharesMedium this && (key =? key') then None
    else temporaryItem this w key'.
Proof.
  unfold temporaryItem, browserStorage_removeItem.
  rewrite temporaryCacheStorage_update_Persistent.
  destruct (sharesMedium this); simpl; [apply getItem_removeItem | reflexivity].
Qed.

Lemma temporaryItem_browserStorage_setItem_unshared key value key' w :
  sharesMedium this = false ->
  temporaryItem this (browserStorage_setItem this key value w) key'
  = temporaryItem this w key'.
Proof.
  intros H. unfold temporaryItem, browserStorage_setItem.
  now rewrite temporaryCacheStorage_update_Persistent, H.
Qed.

Lemma browserItem_removeBrowserItems keys key w :
  browserItem this (removeBrowserItems this keys w) key
  = if listed keys key then None else browserItem this w key.
Proof.
  revert w. induction keys as [|k keys IH]; intros w; [reflexivity|].
  unfold removeBrowserItems in *. simpl. rewrite IH, browserItem_removeItem.
  destruct (listed keys key), (k =? key); reflexivity.
Qed.

Lemma temporaryItem_removeBrowserItems keys key w :
  temporaryItem this (removeBrowserItems this keys w) key
  = if sharesMedium this && listed keys key then None
    else temporaryItem this w key.
Proof.
  revert w. induction keys as [|k keys IH]; intros w.
  - simpl. now rewrite andb_false_r.
  - unfold removeBrowserItems in *. simpl.
    rewrite IH, temporaryItem_browserStorage_removeItem.
    destruct (sharesMedium this), (listed keys key), (k =? key); reflexivity.
Qed.

Lemma listed_filter (p : string -> bool) keys key :
  listed (filter p keys) key = listed keys key && p key.
Proof.
  destruct (listed (filter p keys) key) eqn:E.
  - apply listed_In, filter_In in E. destruct E as [Hin Hp].
    apply listed_In in Hin. now rewrite Hin, Hp.
  - destruct (listed keys key) eqn:El; [|reflexivity].
    destruct (p key) eqn:Hp; [|reflexivity].
    apply listed_In in El.
    assert (In key (filter p keys)) by (apply filter_In; auto).
    apply listed_In in H. congruence.
Qed.

Lemma listed_getKeys (s : Storage) key :
  listed (getKeys s) key = match getItem s key with Some _ => true | None => false end.
Proof.
  destruct (listed (getKeys s) key) eqn:E.
  - apply listed_In, getItem_In_getKeys in E.
    destruct (getItem s key); [reflexivity | congruence].
  - destruct (getItem s key) eqn:G; [|reflexivity].
    assert (In key (getKeys s)) by (apply getItem_In_getKeys; congruence).
    apply listed_In in H. congruence.
Qed.

Lemma bind_eval {A B : Type} (f : World -> A) (k : A -> M B) (w : World) :
  (x <- eval f ;; k x) w = k (f w) w.
Proof. reflexivity. Qed.

Lemma bind_run {A B : Type} (c : M A) (k : A -> M B) (w w' : World) (a : A) :
  c w = (Ok a, w') -> (x <- c ;; k x) w = k a w'.
Proof. intros H. unfold bind. now rewrite H. Qed.

Lemma clear_run w w1 :
  (removeAllAccounts this ;; removeAppMetadata this) w = (Ok tt, w1) ->
  clear this w = (Ok tt, swept this w1).
Proof.
  intros H. unfold clear.
  assert (E : forall (k : M unit),
             (removeAllAccounts this ;; removeAppMetadata this ;; k) w = k w1).
  { intros k. unfold bind in *.
    destruct (removeAllAccounts this w) as [[[]|e] w0]; [|discriminate].
    now rewrite H. }
  rewrite E. rewrite bind_eval.
  set (p := fun cacheKey : string =>
              JS.includes cacheKey CACHE_PREFIX
              || JS.includes cacheKey (clientId this)).
  rewrite (bind_run _ _ _ _ tt
             (forEach_filter p (removeTemporaryItem this) _ w1)).
  rewrite bind_eval.
  rewrite (bind_run _ _ _ _ tt
             (forEach_filter p (browserStorage_removeItem this) _ _)).
  reflexivity.
Qed.

Lemma temporaryItem_updateInternal f w key :
  temporaryItem this (updateInternal f w) key = temporaryItem this w key.
Proof.
  unfold temporaryItem. now rewrite temporaryCacheStorage_updateInternal.
Qed.

Lemma browserItem_updateInternal f w key :
  browserItem this (updateInternal f w) key = browserItem this w key.
Proof.
  unfold browserItem. now rewrite browserStorage_updateInternal.
Qed.

Lemma listed_temporaryKeys w key :
  listed (getKeys (temporaryCacheStorage this w)) key
  = match temporaryItem this w key with Some _ => true | None => false end.
Proof. apply listed_getKeys. Qed.

Lemma listed_browserKeys w key :
  listed (getKeys (browserStorage this w)) key
  = match browserItem this w key with Some _ => true | None => false end.
Proof. apply listed_getKeys. Qed.

Lemma temporaryItem_swept w1 key :
  temporaryItem this (swept this w1) key
  = if namespaced this key then None else temporaryItem this w1 key.
Proof.
  unfold swept. cbv zeta.
  rewrite temporaryItem_updateInternal, temporaryItem_removeBrowserItems,
    temporaryItem_removeTemporaryItems.
  rewrite !listed_filter, listed_temporaryKeys.
  destruct (namespaced this key); rewrite ?andb_false_r, ?andb_true_r.
  - destruct (temporaryItem this w1 key); now destruct (_ && _).
  - reflexivity.
Qed.

Lemma browserItem_swept w1 key :
  browserItem this (swept this w1) key
  = if namespaced this key then None else browserItem this w1 key.
Proof.
  unfold swept. cbv zeta.
  rewrite browserItem_updateInternal, browserItem_removeBrowserItems.
  rewrite listed_filter, listed_browserKeys.
  rewrite browserItem_removeTemporaryItems, listed_filter.
  destruct (namespaced this key); rewrite ?andb_false_r, ?andb_true_r.
  - destruct (sharesMedium this && _); [reflexivity|].
    destruct (browserItem this w1 key); reflexivity.
  - reflexivity.
Qed.

End Clear.

Section ClearFootprint.

Context {host : Host}.
Hypothesis laws : JsonLaws.
Variable this : BrowserCacheManager.
Variable w : World.

Lemma forEach_invariant_In (f : string -> M unit) (I : World -> Prop)
    (keys : list string) :
  (forall key, In key keys ->
     forall w0, I w0 -> exists w1, f key w0 = (Ok tt, w1) /\ I w1) ->
  forall w0, I w0 -> exists w1, forEach keys f w0 = (Ok tt, w1) /\ I w1.
Proof.
  induction keys as [|k keys IH]; intros Hf w0 H0.
  - exists w0. split; [reflexivity | assumption].
  - simpl. unfold bind.
    destruct (Hf k (or_introl eq_refl) w0 H0) as [w1 [-> H1]].
    apply IH; [|assumption]. intros key Hin. apply Hf. now right.
Qed.

Lemma withinEntities_refl : withinEntities this w w.
Proof.
  split; [auto|]. split; [auto|]. repeat split; apply incl_refl.
Qed.

Lemma getTokenKeys_removeItem key w' :
  getTokenKeys this (browserStorage_removeItem this key w')
  = if key =? tokenKeysSlot this then emptyTokenKeys else getTokenKeys this w'.
Proof.
  rewrite !getTokenKeys_items, browserItem_removeItem.
  destruct (key =? tokenKeysSlot this); reflexivity.
Qed.

Lemma withinEntities_removeItem key w' :
  entityKey this w key ->
  withinEntities this w w' ->
  withinEntities this w (browserStorage_removeItem this key w').
Proof.
  intros Hkey [Hb [Ht [Hi [Ha Hr]]]].
  split; [|split].
  - intros k Hk. rewrite browserItem_removeItem.
    destruct (String.eqb_spec key k) as [->|_]; [contradiction | now apply Hb].
  - intros Hs k. rewrite temporaryItem_browserStorage_removeItem, Hs.
    now apply Ht.
  - rewrite getTokenKeys_removeItem.
    destruct (key =? tokenKeysSlot this); [|auto].
    repeat split; apply incl_nil_l.
Qed.

Lemma withinEntities_writeTokenKeys t w' :
  withinEntities this w w' ->
  incl (idToken t) (idToken (getTokenKeys this w')) ->
  incl (accessToken t) (accessToken (getTokenKeys this w')) ->
  incl (refreshToken t) (refreshToken (getTokenKeys this w')) ->
  withinEntities this w (writeTokenKeys this t w').
Proof.
  intros [Hb [Ht [Hi [Ha Hr]]]] Ii Ia Ir.
  split; [|split].
  - intros k Hk. unfold writeTokenKeys. rewrite browserItem_setItem.
    destruct (String.eqb_spec (tokenKeysSlot this) k) as [<-|_];
      [|now apply Hb].
    exfalso. apply Hk. right. now left.
  - intros Hs k. unfold writeTokenKeys.
    rewrite temporaryItem_browserStorage_setItem_unshared by assumption.
    now apply Ht.
  - rewrite (writeTokenKeys_current laws).
    repeat split; eapply incl_tran; eassumption.
Qed.

Lemma incl_removeFirst key keys : incl (removeFirst key keys) keys.
Proof.
  induction keys as [|k keys IH]; simpl; [apply incl_refl|].
  destruct (k =? key); [apply incl_tl, incl_refl|].
  apply incl_cons; [now left | now apply incl_tl].
Qed.

Lemma withinEntities_writeAccountKeys keys w' :
  withinEntities this w w' ->
  withinEntities this w
    (browserStorage_setItem this ACCOUNT_KEYS
       (JSON_stringify (ofStringArray keys)) w').
Proof.
  intros [Hb [Ht [Hi [Ha Hr]]]].
  split; [|split].
  - intros k Hk. rewrite browserItem_setItem.
    destruct (String.eqb_spec ACCOUNT_KEYS k) as [<-|_]; [|now apply Hb].
    exfalso. apply Hk. now left.
  - intros Hs k.
    rewrite temporaryItem_browserStorage_setItem_unshared by assumption.
    now apply Ht.
  - rewrite (getTokenKeys_items this (browserStorage_setItem _ _ _ _)).
    rewrite browserItem_setItem.
    destruct (ACCOUNT_KEYS =? tokenKeysSlot this).
    + rewrite (nonEmpty_stringify laws), (parse_stringify_keys laws).
      simpl. repeat split; apply incl_nil_l.
    + rewrite <- getTokenKeys_items. auto.
Qed.


Lemma withinEntities_removeToken key type w' :
  indexed type ->
  entityKey this w key ->
  withinEntities this w w' ->
  exists w'',
    (exec (CacheManager_removeEntity this key) ;; removeTokenKey this key type) w'
    = (Ok tt, w'')
    /\ withinEntities this w w''.
Proof.
  intros Hi Hkey Hw. eexists. split.
  - unfold bind, exec. apply removeTokenKey_writes. exact Hi.
  - apply withinEntities_writeTokenKeys.
    + now apply withinEntities_removeItem.
    + destruct type; simpl; try apply incl_refl; apply incl_removeFirst.
    + destruct type; simpl; try apply incl_refl; apply incl_removeFirst.
    + destruct type; simpl; try apply incl_refl; apply incl_removeFirst.
Qed.

Lemma withinEntities_removeAccount key w' :
  entityKey this w key ->
  withinEntities this w w' ->
  withinEntities this w (removeAccount this key w').
Proof.
  intros Hkey Hw. unfold removeAccount, removeAccountKeyFromMap.
  assert (H0 : withinEntities this w (CacheManager_removeEntity this key w'))
    by (now apply withinEntities_removeItem).
  destruct (JS.Array_indexOf _ key); [|exact H0].
  now apply withinEntities_writeAccountKeys.
Qed.

Lemma withinEntities_removeAccountContext accountKey w' :
  withinEntities this w w' ->
  exists w'',
    removeAccountContext this accountKey w' = (Ok tt, w'')
    /\ withinEntities this w w''.
Proof.
  intros Hw. unfold removeAccountContext. rewrite bind_eval.
  destruct Hw as [Hb [Ht [Hi [Ha Hr]]]].
  assert (Hw : withinEntities this w w') by (repeat split; assumption).
  set (t := getTokenKeys this w') in *.
  assert (S1 : exists w1,
             forEach (idToken t)
               (fun key => if credentialOfAccount accountKey key
                           then removeIdToken this key else ret tt) w'
             = (Ok tt, w1) /\ withinEntities this w w1).
  { apply forEach_invariant_In; [|exact Hw].
    intros key Hin w0 H0. destruct (credentialOfAccount accountKey key).
    - apply withinEntities_removeToken; [discriminate | | exact H0].
      right. right. right. right. left. now apply Hi.
    - exists w0. split; [reflexivity | exact H0]. }
  destruct S1 as [w1 [E1 H1]]. rewrite (bind_run _ _ _ _ tt E1).
  assert (S2 : exists w2,
             forEach (accessToken t)
               (fun key => if credentialOfAccount accountKey key
                           then removeAccessToken this key else ret tt) w1
             = (Ok tt, w2) /\ withinEntities this w w2).
  { apply forEach_invariant_In; [|exact H1].
    intros key Hin w0 H0. destruct (credentialOfAccount accountKey key).
    - apply withinEntities_removeToken; [discriminate | | exact H0].
      right. right. right. right. right. left. now apply Ha.
    - exists w0. split; [reflexivity | exact H0]. }
  destruct S2 as [w2 [E2 H2]]. rewrite (bind_run _ _ _ _ tt E2).
  apply forEach_invariant_In; [|exact H2].
  intros key Hin w0 H0. destruct (credentialOfAccount accountKey key).
  - apply withinEntities_removeToken; [discriminate | | exact H0].
    right. right. right. right. right. right. now apply Hr.
  - exists w0. split; [reflexivity | exact H0].
Qed.

Lemma withinEntities_removeAllAccounts :
  exists w1,
    removeAllAccounts this w = (Ok tt, w1) /\ withinEntities this w w1.
Proof.
  unfold removeAllAccounts. rewrite bind_eval.
  apply forEach_invariant_In; [|apply withinEntities_refl].
  intros key Hin w0 H0.
  destruct (withinEntities_removeAccountContext key w0 H0) as [w1 [E1 H1]].
  rewrite (bind_run _ _ _ _ tt E1). eexists. split; [reflexivity|].
  apply withinEntities_removeAccount; [|exact H1].
  right. right. right. now left.
Qed.

Lemma withinEntities_removeAppMetadata w' :
  withinEntities this w w' ->
  exists w'',
    removeAppMetadata this w' = (Ok tt, w'') /\ withinEntities this w w''.
Proof.
  intros Hw. unfold removeAppMetadata. rewrite bind_eval.
  apply forEach_invariant_In; [|exact Hw].
  intros key _ w0 H0. destruct (isAppMetadata key) eqn:E.
  - eexists. split; [reflexivity|].
    apply withinEntities_removeItem; [|exact H0]. right. right. now left.
  - exists w0. split; [reflexivity | exact H0].
Qed.

Lemma removeAccountsAndMetadata :
  exists w1,
    (removeAllAccounts this ;; removeAppMetadata this) w = (Ok tt, w1)
    /\ withinEntities this w w1.
Proof.
  destruct withinEntities_removeAllAccounts as [w0 [E0 H0]].
  destruct (withinEntities_removeAppMetadata w0 H0) as [w1 [E1 H1]].
  exists w1. split; [|exact H1].
  rewrite (bind_run _ _ _ _ tt E0). exact E1.
Qed.

End ClearFootprint.

(** C5.  [clear()] returns normally; afterwards no key of the temporary or
    of the persistent backend contains the cache prefix or the client id;
    and a key that contains neither keeps its value in both backends unless
    it is one of the entity keys the removal of accounts, credentials and
    app metadata works on: an index slot, a key listed in the account index
    or in the token index, or an app-metadata key. *)
Theorem clear_scoped
    {host : Host} (laws : JsonLaws) (this : BrowserCacheManager) (w : World) :
  exists w',
    clear this w = (Ok tt, w')
    /\ (forall key,
           In key (getKeys (temporaryCacheStorage this w'))
           \/ In key (getKeys (browserStorage this w')) ->
           JS.includes key CACHE_PREFIX = false
           /\ JS.includes key (clientId this) = false)
    /\ (forall key,
           JS.includes key CACHE_PREFIX = false ->
           JS.includes key (clientId this) = false ->
           ~ entityKey this w key ->
           browserItem this w' key = browserItem this w key
           /\ temporaryItem this w' key = temporaryItem this w key).
Proof.
  destruct (removeAccountsAndMetadata laws this w) as [w1 [E1 H1]].
  exists (swept this w1). split; [now apply clear_run|]. split.
  - intros key Hin.
    assert (Hn : namespaced this key = false).
    { destruct Hin as [Hin|Hin]; apply getItem_In_getKeys in Hin.
      - change (temporaryItem this (swept this w1) key <> None) in Hin.
        rewrite temporaryItem_swept in Hin.
        destruct (namespaced this key); [contradiction | reflexivity].
      - change (browserItem this (swept this w1) key <> None) in Hin.
        rewrite browserItem_swept in Hin.
        destruct (namespaced this key); [contradiction | reflexivity]. }
    now apply orb_false_iff in Hn.
  - intros key Hp Hc Hkey.
    assert (Hn : namespaced this key = false).
    { unfold namespaced. now rewrite Hp, Hc. }
    destruct H1 as [Hb [Ht _]].
    rewrite temporaryItem_swept, browserItem_swept, Hn.
    split; [now apply Hb|].
    destruct (sharesMedium this) eqn:Es; [|now apply Ht].
    unfold temporaryItem.
    rewrite <- !(sharesMedium_same this _ Es).
    now apply Hb.
Qed.

Lemma clear_scoped_witness :
  exists w',
    clear (host := Demo.host) (Demo.manager false)
      (Demo.world
         [ ("msal.app.active-account-filters", "{}"); ("theme", "dark") ]
         [ ("msal.app.request.params", "e30="); ("draft", "hello") ] [])
    = (Ok tt, w')
    /\ browserItem (Demo.manager false) w' "theme" = Some "dark"
    /\ temporaryItem (Demo.manager false) w' "draft" = Some "hello"
    /\ ~ In "msal.app.active-account-filters"
           (getKeys (browserStorage (Demo.manager false) w'))
    /\ ~ In "msal.app.request.params"
           (getKeys (temporaryCacheStorage (Demo.manager false) w')).
Proof.
  destruct (clear_scoped demo_laws (Demo.manager false)
              (Demo.world
                 [ ("msal.app.active-account-filters", "{}"); ("theme", "dark") ]
                 [ ("msal.app.request.params", "e30="); ("draft", "hello") ] []))
    as [w' [run [none frame]]].
  assert (foreign : forall key,
             key = "theme" \/ key = "draft" ->
             ~ entityKey (host := Demo.host) (Demo.manager false)
                 (Demo.world
                    [ ("msal.app.active-account-filters", "{}");
                      ("theme", "dark") ]
                    [ ("msal.app.request.params", "e30="); ("draft", "hello") ]
                    []) key).
  { intros key [-> | ->] H; vm_compute in H;
      repeat (destruct H as [H|H]; [discriminate || contradiction|]);
      contradiction. }
  exists w'. split; [exact run|]. split; [|split; [|split]].
  - rewrite (proj1 (frame "theme" eq_refl eq_refl (foreign _ (or_introl eq_refl)))).
    reflexivity.
  - rewrite (proj2 (frame "draft" eq_refl eq_refl (foreign _ (or_intror eq_refl)))).
    reflexivity.
  - intros Hin. destruct (none _ (or_intror Hin)) as [H _]. discriminate.
  - intros Hin. destruct (none _ (or_introl Hin)) as [H _]. discriminate.
Defined.

(** C5, as stated, fails: [clear()] first removes every account listed in
    the account index, and the key of an account contains neither the cache
    prefix nor the client id. *)
Lemma clear_removes_indexed_account_key :
  let this := Demo.manager false in
  let w := Demo.world Demo.accountStore [] [] in
  JS.includes Demo.accountKey "msal" = false
  /\ JS.includes Demo.accountKey "app" = false
  /\ browserItem this w Demo.accountKey
     = Some (Demo.stringify Demo.account)
  /\ fst (clear (host := Demo.host) this w) = Ok tt
  /\ browserItem this (after (clear (host := Demo.host) this) w)
       Demo.accountKey = None.
Proof. vm_compute. repeat split; reflexivity. Qed.

(** Scenario A of the spec on the concrete host: an account set under its
    key is listed by [getAccountKeys] and read back by [getAccount]; after
    [removeAccount] the index is empty. *)
Lemma scenario_account_set_then_removed :
  let this := Demo.memoryManager in
  let w1 := setAccount (host := Demo.host) this Demo.accountKey Demo.account
              emptyWorld in
  getAccountKeys (host := Demo.host) this w1 = [Demo.accountKey]
  /\ fst (getAccount (host := Demo.host) this Demo.accountKey w1)
     = Some Demo.account
  /\ getAccountKeys (host := Demo.host) this
       (removeAccount (host := Demo.host) this Demo.accountKey w1) = [].
Proof. vm_compute. repeat split; reflexivity. Qed.

(** ** Temporary items written and read back *)

Section TemporaryRoundTrip.

Context {host : Host}.
Variable this : BrowserCacheManager.

Lemma getTemporaryCache_generate cacheKey w :
  getTemporaryCache this cacheKey true w
  = getTemporaryCache this (generateCacheKey this cacheKey) false w.
Proof. reflexivity. Qed.

Lemma setTemporaryCache_generate cacheKey value w :
  setTemporaryCache this cacheKey value true w
  = setTemporaryCache this (generateCacheKey this cacheKey) value false w.
Proof. reflexivity. Qed.

Lemma cookieItem_setTemporaryCache key value key' w :
  cookieItem (setTemporaryCache this key value false w) key'
  = if storeAuthStateInCookie (cacheConfig this) && (key =? key')
    then Some value else cookieItem w key'.
Proof.
  unfold cookieItem, setTemporaryCache, temporaryCacheStorage_setItem,
    cookieStorage_setItem.
  destruct (storeAuthStateInCookie (cacheConfig this)); simpl.
  - rewrite cookieStorage_updateStorage. apply getItem_setItem.
  - now rewrite cookieStorage_updateStorage.
Qed.

Lemma browserItem_setTemporaryCache key value key' w :
  browserItem this (setTemporaryCache this key value false w) key'
  = if sharesMedium this && (key =? key')
    then Some value else browserItem this w key'.
Proof.
  unfold browserItem, setTemporaryCache, temporaryCacheStorage_setItem,
    cookieStorage_setItem.
  destruct (storeAuthStateInCookie (cacheConfig this));
    rewrite ?browserStorage_updateCookies, browserStorage_update_Temporary;
    destruct (sharesMedium this); simpl; try reflexivity; apply getItem_setItem.
Qed.

Lemma getTemporaryCache_set_same key value w :
  value <> "" ->
  getTemporaryCache this key false (setTemporaryCache this key value false w)
  = Some value.
Proof.
  intros Hne. rewrite getTemporaryCache_items.
  rewrite cookieItem_setTemporaryCache, temporaryItem_setTemporaryCache,
    String.eqb_refl, andb_true_r, (nonEmpty_of_Some _ Hne).
  destruct (storeAuthStateInCookie (cacheConfig this));
    [now rewrite (nonEmpty_of_Some _ Hne) | reflexivity].
Qed.

Lemma getTemporaryCache_set_other key value key' w :
  key <> key' ->
  getTemporaryCache this key' false (setTemporaryCache this key value false w)
  = getTemporaryCache this key' false w.
Proof.
  intros Hne. apply String.eqb_neq in Hne. rewrite !getTemporaryCache_items.
  now rewrite cookieItem_setTemporaryCache, temporaryItem_setTemporaryCache,
    browserItem_setTemporaryCache, Hne, !andb_false_r.
Qed.

Lemma getTemporaryCache_remove_same key w :
  getTemporaryCache this key false (removeTemporaryItem this key w)
  = if BrowserCacheLocation_eqb (cacheLocation (cacheConfig this)) LocalStorage
       && negb (sharesMedium this)
    then JS.nonEmpty (browserItem this w key)
    else None.
Proof.
  rewrite getTemporaryCache_items.
  rewrite cookieItem_removeTemporaryItem, temporaryItem_removeTemporaryItem,
    browserItem_removeTemporaryItem, String.eqb_refl, !andb_true_r.
  destruct (storeAuthStateInCookie (cacheConfig this)); simpl;
    destruct (BrowserCacheLocation_eqb _ _), (sharesMedium this); reflexivity.
Qed.

Lemma getTemporaryCache_remove_other key key' w :
  key <> key' ->
  getTemporaryCache this key' false (removeTemporaryItem this key w)
  = getTemporaryCache this key' false w.
Proof.
  intros Hne. apply String.eqb_neq in Hne. rewrite !getTemporaryCache_items.
  now rewrite cookieItem_removeTemporaryItem, temporaryItem_removeTemporaryItem,
    browserItem_removeTemporaryItem, Hne, !andb_false_r.
Qed.

Lemma getTemporaryCache_remove_legacyFree key w :
  legacyFree this w key ->
  getTemporaryCache this key false (removeTemporaryItem this key w) = None.
Proof.
  intros Hfree. rewrite getTemporaryCache_remove_same.
  destruct (BrowserCacheLocation_eqb _ _) eqn:El; [|reflexivity].
  destruct (sharesMedium this) eqn:Es; [reflexivity|]. simpl.
  apply Hfree; [|assumption].
  destruct (cacheLocation (cacheConfig this)); (reflexivity || discriminate).
Qed.

End TemporaryRoundTrip.

(** X1.  A non-empty value written with [setTemporaryCache] is what
    [getTemporaryCache] returns for the same key, with or without key
    generation, and the reads of every other key are as before. *)
Theorem getTemporaryCache_setTemporaryCache
    {host : Host} (this : BrowserCacheManager) (w : World)
    (cacheKey value : string) (generateKey : bool) :
  value <> "" ->
  getTemporaryCache this cacheKey generateKey
    (setTemporaryCache this cacheKey value generateKey w) = Some value
  /\ (forall other : string,
        other <> (if generateKey then generateCacheKey this cacheKey
                  else cacheKey) ->
        getTemporaryCache this other false
          (setTemporaryCache this cacheKey value generateKey w)
        = getTemporaryCache this other false w).
Proof.
  intros Hne. destruct generateKey.
  - rewrite getTemporaryCache_generate, setTemporaryCache_generate. split.
    + now apply getTemporaryCache_set_same.
    + intros other Ho. apply getTemporaryCache_set_other. congruence.
  - split.
    + now apply getTemporaryCache_set_same.
    + intros other Ho. apply getTemporaryCache_set_other. congruence.
Qed.

Lemma getTemporaryCache_setTemporaryCache_witness :
  getTemporaryCache (host := Demo.host) (Demo.manager true) "request.origin" true
    (setTemporaryCache (host := Demo.host) (Demo.manager true)
       "request.origin" "https://app.example.com/" true emptyWorld)
  = Some "https://app.example.com/".
Proof.
  apply (getTemporaryCache_setTemporaryCache (host := Demo.host)
           (Demo.manager true) emptyWorld "request.origin"
           "https://app.example.com/" true).
  discriminate.
Defined.

(** X2.  After [removeTemporaryItem(key)] a read of [key] through
    [getTemporaryCache] finds nothing in the temporary backend or the cookie
    jar: it returns the non-empty value the persistent local storage still
    holds under [key] when that storage is the persistent scope and a medium
    of its own, and absent otherwise; the reads of every other key are as
    before. *)
Theorem getTemporaryCache_removeTemporaryItem
    {host : Host} (this : BrowserCacheManager) (w : World) (key : string) :
  getTemporaryCache this key false (removeTemporaryItem this key w)
  = (if BrowserCacheLocation_eqb (cacheLocation (cacheConfig this)) LocalStorage
        && negb (sharesMedium this)
     then JS.nonEmpty (browserItem this w key)
     else None)
  /\ (forall other : string,
        other <> key ->
        getTemporaryCache this other false (removeTemporaryItem this key w)
        = getTemporaryCache this other false w).
Proof.
  split; [apply getTemporaryCache_remove_same|].
  intros other Ho. apply getTemporaryCache_remove_other. congruence.
Qed.

Lemma getTemporaryCache_removeTemporaryItem_witness :
  getTemporaryCache (host := Demo.host) (Demo.manager false) "kept" false
    (removeTemporaryItem (Demo.manager false) "gone"
       (Demo.world [] [("gone", "1"); ("kept", "2")] []))
  = Some "2".
Proof.
  rewrite (proj2 (getTemporaryCache_removeTemporaryItem (host := Demo.host)
                    (Demo.manager false)
                    (Demo.world [] [("gone", "1"); ("kept", "2")] []) "gone")
             "kept"); [reflexivity | discriminate].
Defined.

(** ** The interaction lock over a whole flow *)

Section LockCycle.

Context {host : Host}.
Variable this : BrowserCacheManager.

Lemma getTemporaryCache_None_legacyFree key w :
  getTemporaryCache this key false w = None -> legacyFree this w key.
Proof.
  rewrite getTemporaryCache_items. intros H Hloc _. rewrite Hloc in H.
  simpl in H.
  destruct (if storeAuthStateInCookie (cacheConfig this)
            then JS.nonEmpty (cookieItem w key) else None); [discriminate|].
  destruct (JS.nonEmpty (temporaryItem this w key)); [discriminate|].
  exact H.
Qed.

Lemma legacyFree_setTemporaryCache key value key' w :
  legacyFree this w key' ->
  legacyFree this (setTemporaryCache this key value false w) key'.
Proof.
  intros H Hloc Hs. rewrite browserItem_setTemporaryCache, Hs. simpl.
  now apply H.
Qed.

Lemma truthy_Some (s : string) : s <> "" -> JS.truthy (Some s) = true.
Proof. intros H. simpl. apply String.eqb_neq in H. now rewrite H. Qed.

End LockCycle.

(** X3.  With a non-empty client id and the lock free,
    [setInteractionInProgress(true)] succeeds and the lock then reads as
    held, by this client and by anyone; a second acquisition throws the
    conflict error and changes nothing; [setInteractionInProgress(false)]
    then succeeds and the lock reads as free again. *)
Theorem interaction_lock_cycle
    {host : Host} (this : BrowserCacheManager) (w : World) :
  clientId this <> "" ->
  getInteractionInProgress this w = None ->
  exists w1 w2,
    setInteractionInProgress this true w = (Ok tt, w1)
    /\ isInteractionInProgress this true w1 = true
    /\ isInteractionInProgress this false w1 = true
    /\ setInteractionInProgress this true w1 = (Throw interactionInProgress, w1)
    /\ setInteractionInProgress this false w1 = (Ok tt, w2)
    /\ isInteractionInProgress this true w2 = false
    /\ isInteractionInProgress this false w2 = false.
Proof.
  intros Hid Hfree.
  set (w1 := setTemporaryCache this interactionStatusKey (clientId this) false w).
  assert (Hheld : getInteractionInProgress this w1 = Some (clientId this)).
  { unfold getInteractionInProgress, w1. now apply getTemporaryCache_set_same. }
  assert (Hgone : getInteractionInProgress this
                    (removeTemporaryItem this interactionStatusKey w1) = None).
  { unfold getInteractionInProgress.
    apply getTemporaryCache_remove_legacyFree.
    apply legacyFree_setTemporaryCache.
    now apply getTemporaryCache_None_legacyFree. }
  exists w1, (removeTemporaryItem this interactionStatusKey w1).
  split; [|split; [|split; [|split; [|split; [|split]]]]].
  - unfold setInteractionInProgress, bind, eval, exec. now rewrite Hfree.
  - unfold isInteractionInProgress. rewrite Hheld. apply String.eqb_refl.
  - unfold isInteractionInProgress. rewrite Hheld. now apply truthy_Some.
  - unfold setInteractionInProgress, bind, eval, throw.
    now rewrite Hheld, (truthy_Some _ Hid).
  - unfold setInteractionInProgress, bind, eval, exec.
    now rewrite Hheld, String.eqb_refl.
  - unfold isInteractionInProgress. now rewrite Hgone.
  - unfold isInteractionInProgress. now rewrite Hgone.
Qed.

Lemma interaction_lock_cycle_witness :
  exists w1 w2,
    setInteractionInProgress (host := Demo.host) (Demo.manager true) true
      emptyWorld = (Ok tt, w1)
    /\ isInteractionInProgress (host := Demo.host) (Demo.manager true) true w1
       = true
    /\ isInteractionInProgress (host := Demo.host) (Demo.manager true) false w1
       = true
    /\ setInteractionInProgress (host := Demo.host) (Demo.manager true) true w1
       = (Throw interactionInProgress, w1)
    /\ setInteractionInProgress (host := Demo.host) (Demo.manager true) false w1
       = (Ok tt, w2)
    /\ isInteractionInProgress (host := Demo.host) (Demo.manager true) true w2
       = false
    /\ isInteractionInProgress (host := Demo.host) (Demo.manager true) false w2
       = false.
Proof.
  apply (interaction_lock_cycle (host := Demo.host) (Demo.manager true)
           emptyWorld); [discriminate | reflexivity].
Defined.

(** X4.  With an empty client id the lock cannot be held: an acquisition on
    a free lock succeeds, but the lock still reads as free afterwards, so
    that a second acquisition succeeds as well. *)
Theorem interaction_lock_empty_clientId
    {host : Host} (this : BrowserCacheManager) (w : World) :
  clientId this = "" ->
  getInteractionInProgress this w = None ->
  exists w1 w2,
    setInteractionInProgress this true w = (Ok tt, w1)
    /\ isInteractionInProgress this false w1 = false
    /\ setInteractionInProgress this true w1 = (Ok tt, w2).
Proof.
  intros Hid Hfree.
  set (w1 := setTemporaryCache this interactionStatusKey (clientId this) false w).
  assert (Hstill : getInteractionInProgress this w1 = None).
  { pose proof (getTemporaryCache_None_legacyFree this _ _ Hfree) as Hlegacy.
    unfold getInteractionInProgress in *. rewrite getTemporaryCache_items in *.
    unfold w1.
    rewrite cookieItem_setTemporaryCache, temporaryItem_setTemporaryCache,
      browserItem_setTemporaryCache, String.eqb_refl, !andb_true_r, Hid.
    change (JS.nonEmpty (Some "")) with (@None string).
    assert (Hc : (if storeAuthStateInCookie (cacheConfig this)
                  then JS.nonEmpty
                         (if storeAuthStateInCookie (cacheConfig this)
                          then Some "" else cookieItem w interactionStatusKey)
                  else None) = None).
    { now destruct (storeAuthStateInCookie (cacheConfig this)). }
    rewrite Hc.
    destruct (BrowserCacheLocation_eqb (cacheLocation (cacheConfig this))
                LocalStorage) eqn:El; [|reflexivity].
    destruct (sharesMedium this) eqn:Es; [reflexivity|].
    simpl. apply Hlegacy; [|assumption].
    destruct (cacheLocation (cacheConfig this)); (reflexivity || discriminate). }
  exists w1. eexists. split; [|split].
  - unfold setInteractionInProgress, bind, eval, exec. now rewrite Hfree.
  - unfold isInteractionInProgress. now rewrite Hstill.
  - unfold setInteractionInProgress, bind, eval, exec. now rewrite Hstill.
Qed.

Lemma interaction_lock_empty_clientId_witness :
  exists w1 w2,
    setInteractionInProgress (host := Demo.host)
      (DEFAULT_BROWSER_CACHE_MANAGER "") true emptyWorld = (Ok tt, w1)
    /\ isInteractionInProgress (host := Demo.host)
         (DEFAULT_BROWSER_CACHE_MANAGER "") false w1 = false
    /\ setInteractionInProgress (host := Demo.host)
         (DEFAULT_BROWSER_CACHE_MANAGER "") true w1 = (Ok tt, w2).
Proof.
  apply (interaction_lock_empty_clientId (host := Demo.host)
           (DEFAULT_BROWSER_CACHE_MANAGER "") emptyWorld); reflexivity.
Defined.

(** ** Request state and cached requests read back *)

Section RequestRoundTrip.

Context {host : Host}.
Variable this : BrowserCacheManager.

Lemma field_setField name value fields :
  field name (setField name value fields) = Some value.
Proof.
  induction fields as [|[k v] fields IH]; simpl.
  - now rewrite String.eqb_refl.
  - destruct (k =? name) eqn:E; simpl; now rewrite E.
Qed.

(** A successful [getCachedRequest] leaves the world with the cached
    request parameters removed, and nothing else changed. *)
Lemma getCachedRequest_Ok state request w w' :
  getCachedRequest this state w = (Ok request, w') ->
  w' = removeTemporaryItem this (generateCacheKey this REQUEST_PARAMS) w.
Proof.
  unfold getCachedRequest, bind, eval, exec, throw, ret, liftR.
  destruct (JS.nonEmpty (getTemporaryCache this REQUEST_PARAMS true w));
    [|discriminate].
  destruct (match base64Decode s with
            | Some decoded => JSON_parse decoded
            | None => None
            end) as [parsed|]; [|discriminate].
  destruct (readAuthority parsed) as [authority|e]; [|discriminate].
  destruct (match authority with
            | Some a => json_truthy a
            | None => false
            end).
  - intros H. now injection H.
  - destruct (generateAuthorityKey this state); [|discriminate].
    destruct (JS.nonEmpty (getTemporaryCache this a false _));
      [|discriminate].
    destruct (writeAuthority parsed s0); [|discriminate].
    intros H. now injection H.
Qed.

(** The world [updateCacheEntries] leaves: the three derived entries
    written in turn, then the routing hint when there is one. *)
Lemma updateCacheEntries_run state stateId nonce authorityInstance loginHint
    account w :
  requestStateId state = Ok stateId ->
  let w3 :=
    setTemporaryCache this
      (generateCacheKey this (AUTHORITY ++ "." ++ stateId)%string)
      authorityInstance false
      (setTemporaryCache this
         (generateCacheKey this (NONCE_IDTOKEN ++ "." ++ stateId)%string)
         nonce false
         (setTemporaryCache this
            (generateCacheKey this (REQUEST_STATE ++ "." ++ stateId)%string)
            state false w)) in
  exists wf,
    updateCacheEntries this state nonce authorityInstance loginHint account w
    = (Ok tt, wf)
    /\ (wf = w3
        \/ exists v,
             wf = setTemporaryCache this (generateCacheKey this CCS_CREDENTIAL)
                    v false w3).
Proof.
  intros Hparse w3.
  unfold updateCacheEntries, generateStateKey, generateNonceKey,
    generateAuthorityKey.
  rewrite Hparse. unfold bind, liftR, exec, ret. fold w3.
  destruct account as [account|]; [|destruct (negb (loginHint =? ""))];
    eexists; (split; [reflexivity|]);
    try (right; eexists; apply setTemporaryCache_generate);
    now left.
Qed.

(** [cleanRequestByState] resets the request cache for the blob the
    temporary backend holds under the state key. *)
Lemma cleanRequestByState_stored stateString stateId w :
  stateString <> "" ->
  requestStateId stateString = Ok stateId ->
  cleanRequestByState this stateString w
  = resetRequestCache this
      match JS.nonEmpty
              (temporaryItem this w
                 (generateCacheKey this
                    (REQUEST_STATE ++ "." ++ stateId)%string)) with
      | Some cachedState => cachedState
      | None => ""
      end w.
Proof.
  intros Hne Hparse. apply String.eqb_neq in Hne.
  unfold cleanRequestByState, generateStateKey. rewrite Hne, Hparse. simpl.
  unfold bind at 1. unfold liftR. now rewrite bind_eval.
Qed.

End RequestRoundTrip.

(** X5.  After [updateCacheEntries(state, nonce, authority, hint, account)],
    for a non-empty parseable state and a non-empty authority whose derived
    keys and the routing-hint key are pairwise distinct,
    [getCachedAuthority(state)] returns the authority, and the state and
    (non-empty) nonce are read back under their keys. *)
Theorem getCachedAuthority_updateCacheEntries
    {host : Host} (this : BrowserCacheManager)
    (state stateId nonce authorityInstance loginHint : string)
    (account : option AccountInfo) (w : World) :
  state <> "" ->
  authorityInstance <> "" ->
  requestStateId state = Ok stateId ->
  NoDup (derivedRequestKeys this stateId
           ++ [generateCacheKey this CCS_CREDENTIAL]) ->
  exists w1,
    updateCacheEntries this state nonce authorityInstance loginHint account w
    = (Ok tt, w1)
    /\ getCachedAuthority this state w1 = Ok (Some authorityInstance)
    /\ getTemporaryCache this
         (generateCacheKey this (REQUEST_STATE ++ "." ++ stateId)%string)
         false w1 = Some state
    /\ (nonce <> "" ->
        getTemporaryCache this
          (generateCacheKey this (NONCE_IDTOKEN ++ "." ++ stateId)%string)
          false w1 = Some nonce).
Proof.
  intros Hs Ha Hparse Hnd.
  set (sk := generateCacheKey this (REQUEST_STATE ++ "." ++ stateId)%string).
  set (nk := generateCacheKey this (NONCE_IDTOKEN ++ "." ++ stateId)%string).
  set (ak := generateCacheKey this (AUTHORITY ++ "." ++ stateId)%string).
  set (ck := generateCacheKey this CCS_CREDENTIAL).
  assert (D : sk <> nk /\ sk <> ak /\ sk <> ck /\ nk <> ak /\ nk <> ck
              /\ ak <> ck).
  { unfold derivedRequestKeys in Hnd. fold sk nk ak ck in Hnd. simpl in Hnd.
    inversion Hnd as [|? ? H1 Hnd1]; subst.
    inversion Hnd1 as [|? ? H2 Hnd2]; subst.
    inversion Hnd2 as [|? ? H3 Hnd3]; subst.
    simpl in H1, H2, H3. intuition congruence. }
  destruct D as [Dsn [Dsa [Dsc [Dna [Dnc Dac]]]]].
  set (w3 := setTemporaryCache this ak authorityInstance false
               (setTemporaryCache this nk nonce false
                  (setTemporaryCache this sk state false w))).
  assert (R : forall wf,
             (wf = w3 \/ exists v, wf = setTemporaryCache this ck v false w3) ->
             getTemporaryCache this sk false wf = Some state
             /\ getTemporaryCache this ak false wf = Some authorityInstance
             /\ (nonce <> "" -> getTemporaryCache this nk false wf = Some nonce)).
  { assert (R3 : getTemporaryCache this sk false w3 = Some state
                 /\ getTemporaryCache this ak false w3 = Some authorityInstance
                 /\ (nonce <> "" ->
                     getTemporaryCache this nk false w3 = Some nonce)).
    { unfold w3. split; [|split].
      - rewrite getTemporaryCache_set_other by congruence.
        rewrite getTemporaryCache_set_other by congruence.
        now apply getTemporaryCache_set_same.
      - now apply getTemporaryCache_set_same.
      - intros Hn. rewrite getTemporaryCache_set_other by congruence.
        now apply getTemporaryCache_set_same. }
    intros wf [-> | [v ->]]; [exact R3|].
    rewrite !getTemporaryCache_set_other by congruence. exact R3. }
  destruct (updateCacheEntries_run this state stateId nonce authorityInstance
              loginHint account w Hparse) as [wf [Hrun Hwf]].
  fold sk nk ak ck in Hwf. fold w3 in Hwf.
  destruct (R wf Hwf) as [Rs [Ra Rn]].
  exists wf. split; [exact Hrun|]. split; [|split; assumption].
  unfold getCachedAuthority, generateStateKey. rewrite Hparse. fold sk.
  rewrite Rs, (nonEmpty_of_Some _ Hs).
  unfold generateAuthorityKey. rewrite Hparse. fold ak. now rewrite Ra.
Qed.

Lemma getCachedAuthority_updateCacheEntries_witness :
  exists w1,
    updateCacheEntries (host := Demo.host) (Demo.manager true)
      Demo.redirectState "n-1" "https://login.example.com/contoso"
      "user@contoso.example" None emptyWorld = (Ok tt, w1)
    /\ getCachedAuthority (host := Demo.host) (Demo.manager true)
         Demo.redirectState w1
       = Ok (Some "https://login.example.com/contoso").
Proof.
  destruct (getCachedAuthority_updateCacheEntries (host := Demo.host)
              (Demo.manager true) Demo.redirectState "abc" "n-1"
              "https://login.example.com/contoso" "user@contoso.example" None
              emptyWorld ltac:(discriminate) ltac:(discriminate) eq_refl)
    as [w1 [run [read _]]].
  - repeat constructor; simpl; intuition discriminate.
  - exists w1. split; assumption.
Defined.

(** X6.  A successful [getCachedRequest] consumes the cached request: unless
    the persistent local storage holds an entry of its own under the request
    parameters key, any further [getCachedRequest] throws
    [noTokenRequestCacheError] and changes nothing. *)
Theorem getCachedRequest_once
    {host : Host} (this : BrowserCacheManager)
    (state state' : string) (request : json) (w w' : World) :
  getCachedRequest this state w = (Ok request, w') ->
  legacyFree this w (generateCacheKey this REQUEST_PARAMS) ->
  getCachedRequest this state' w' = (Throw noTokenRequestCacheError, w').
Proof.
  intros Hok Hfree. apply getCachedRequest_Ok in Hok. subst w'.
  unfold getCachedRequest, bind, eval, throw.
  rewrite getTemporaryCache_generate.
  now rewrite (getTemporaryCache_remove_legacyFree this _ _ Hfree).
Qed.

(** X7.  When the decoded cached request is an object without a usable
    authority and the authority cached for the state is [A],
    [getCachedRequest(state)] returns the request with its authority set to
    [A] and removes the cached request parameters. *)
Theorem getCachedRequest_fills_authority
    {host : Host} (this : BrowserCacheManager)
    (state encoded text authorityKey cachedAuthority : string)
    (fields : list (string * json)) (w : World) :
  getTemporaryCache this REQUEST_PARAMS true w = Some encoded ->
  base64Decode encoded = Some text ->
  JSON_parse text = Some (JObj fields) ->
  lacksAuthority (JObj fields) = true ->
  generateAuthorityKey this state = Ok authorityKey ->
  authorityKey <> generateCacheKey this REQUEST_PARAMS ->
  getTemporaryCache this authorityKey false w = Some cachedAuthority ->
  getCachedRequest this state w
  = (Ok (JObj (setField "authority" (JStr cachedAuthority) fields)),
     removeTemporaryItem this (generateCacheKey this REQUEST_PARAMS) w)
  /\ field "authority" (setField "authority" (JStr cachedAuthority) fields)
     = Some (JStr cachedAuthority).
Proof.
  intros Hread Hdecode Hparse Hlack Hkey Hne Hauth.
  split; [|apply field_setField].
  assert (Hn : JS.nonEmpty (Some encoded) = Some encoded).
  { rewrite <- Hread. apply getTemporaryCache_nonEmpty. }
  assert (Hn' : JS.nonEmpty (Some cachedAuthority) = Some cachedAuthority).
  { rewrite <- Hauth. apply getTemporaryCache_nonEmpty. }
  unfold getCachedRequest, bind, eval, exec, throw, ret, liftR.
  rewrite Hread, Hn, Hdecode, Hparse.
  unfold lacksAuthority in Hlack. simpl in Hlack |- *.
  assert (Hfalse : match field "authority" fields with
                   | Some a => json_truthy a
                   | None => false
                   end = false).
  { destruct (field "authority" fields) as [a|]; [|reflexivity].
    now apply negb_true_iff in Hlack. }
  rewrite Hfalse, Hkey.
  rewrite getTemporaryCache_remove_other by congruence.
  now rewrite Hauth, Hn'.
Qed.

Lemma getCachedRequest_once_witness :
  let this := Demo.manager true in
  let w := cacheCodeRequest (host := Demo.host) (imports := DemoImports.imports)
             this DemoImports.request emptyWorld in
  getCachedRequest (host := Demo.host) this Demo.redirectState
    (removeTemporaryItem this
       (generateCacheKey (host := Demo.host) this
          (REQUEST_PARAMS (Host := Demo.host))) w)
  = (Throw noTokenRequestCacheError,
     removeTemporaryItem this
       (generateCacheKey (host := Demo.host) this
          (REQUEST_PARAMS (Host := Demo.host))) w).
Proof.
  intros this w.
  apply (getCachedRequest_once (host := Demo.host) this Demo.redirectState
           Demo.redirectState DemoImports.request w).
  - vm_compute. reflexivity.
  - intros _ _. vm_compute. reflexivity.
Defined.

Lemma getCachedRequest_fills_authority_witness :
  let this := Demo.manager false in
  let w := setTemporaryCache (host := Demo.host) this
             "msal.app.authority.abc" "https://login.example.com/contoso" false
             (cacheCodeRequest (host := Demo.host)
                (imports := DemoImports.imports) this
                DemoImports.requestWithoutAuthority emptyWorld) in
  fst (getCachedRequest (host := Demo.host) this Demo.redirectState w)
  = Ok (JObj [ ("code", JStr "abc"); ("scopes", JArr [JStr "openid"]);
               ("authority", JStr "https://login.example.com/contoso") ]).
Proof.
  intros this w.
  rewrite (proj1 (getCachedRequest_fills_authority (host := Demo.host) this
                    Demo.redirectState
                    (DemoImports.encode64
                       (Demo.stringify DemoImports.requestWithoutAuthority))
                    (Demo.stringify DemoImports.requestWithoutAuthority)
                    "msal.app.authority.abc"
                    "https://login.example.com/contoso"
                    [ ("code", JStr "abc"); ("scopes", JArr [JStr "openid"]) ]
                    w
                    ltac:(vm_compute; reflexivity)
                    ltac:(vm_compute; reflexivity)
                    ltac:(vm_compute; reflexivity)
                    ltac:(vm_compute; reflexivity)
                    ltac:(vm_compute; reflexivity)
                    ltac:(vm_compute; discriminate)
                    ltac:(vm_compute; reflexivity))).
  reflexivity.
Defined.

(** X8.  [cacheCodeRequest] followed by [getCachedRequest] hands the request
    back, for a request that carries a truthy authority and survives the
    JSON and base64 codecs with a non-empty encoding; the cached request
    parameters are removed by the read. *)
Theorem getCachedRequest_cacheCodeRequest
    {host : Host} {imports : Imports} (this : BrowserCacheManager)
    (state : string) (authCodeRequest authority : json) (w : World) :
  roundTrips authCodeRequest ->
  base64Encode (JSON_stringify authCodeRequest) <> "" ->
  base64Decode (base64Encode (JSON_stringify authCodeRequest))
  = Some (JSON_stringify authCodeRequest) ->
  readAuthority authCodeRequest = Ok (Some authority) ->
  json_truthy authority = true ->
  getCachedRequest this state (cacheCodeRequest this authCodeRequest w)
  = (Ok authCodeRequest,
     removeTemporaryItem this (generateCacheKey this REQUEST_PARAMS)
       (cacheCodeRequest this authCodeRequest w)).
Proof.
  intros Hjson Hne Hdecode Hread Htruthy.
  unfold getCachedRequest, cacheCodeRequest, bind, eval, exec, ret, liftR.
  rewrite getTemporaryCache_generate, setTemporaryCache_generate.
  rewrite (getTemporaryCache_set_same this _ _ w Hne).
  rewrite (nonEmpty_of_Some _ Hne), Hdecode, Hjson, Hread.
  now rewrite Htruthy.
Qed.

Lemma getCachedRequest_cacheCodeRequest_witness :
  fst (getCachedRequest (host := Demo.host) (Demo.manager true)
         Demo.redirectState
         (cacheCodeRequest (host := Demo.host) (imports := DemoImports.imports)
            (Demo.manager true) DemoImports.request emptyWorld))
  = Ok DemoImports.request.
Proof.
  rewrite (getCachedRequest_cacheCodeRequest (host := Demo.host)
             (imports := DemoImports.imports) (Demo.manager true)
             Demo.redirectState DemoImports.request
             (JStr "https://login.example.com/contoso") emptyWorld
             ltac:(vm_compute; reflexivity)
             ltac:(vm_compute; discriminate)
             ltac:(vm_compute; reflexivity)
             ltac:(vm_compute; reflexivity)
             ltac:(vm_compute; reflexivity)).
  reflexivity.
Defined.

(** ** Entities read back *)

Section EntityRoundTrip.

Context {host : Host}.
Hypothesis laws : JsonLaws.
Variable this : BrowserCacheManager.

Lemma validateAndParseJson_stringify (j : json) :
  roundTrips j -> json_isObject j = true ->
  validateAndParseJson (JSON_stringify j) = Some j.
Proof.
  unfold roundTrips, validateAndParseJson. intros -> Hobj. rewrite Hobj.
  destruct j; try discriminate; reflexivity.
Qed.

Lemma getKeyedEntity_setItem isEntity (storage : Storage) key entity :
  roundTrips entity -> json_isObject entity = true ->
  isEntity key entity = true ->
  getKeyedEntity isEntity (setItem storage key (JSON_stringify entity)) key
  = Some entity.
Proof.
  intros Hjson Hobj Hentity. unfold getKeyedEntity.
  rewrite getItem_setItem, String.eqb_refl, (nonEmpty_stringify laws).
  now rewrite (validateAndParseJson_stringify _ Hjson Hobj), Hentity.
Qed.

Lemma getKeyedEntity_setItem_other isEntity (storage : Storage)
    key value key' :
  key <> key' ->
  getKeyedEntity isEntity (setItem storage key value) key'
  = getKeyedEntity isEntity storage key'.
Proof.
  intros Hne. apply String.eqb_neq in Hne. unfold getKeyedEntity.
  now rewrite getItem_setItem, Hne.
Qed.

Lemma browserStorage_browserStorage_setItem key value w :
  browserStorage this (browserStorage_setItem this key value w)
  = setItem (browserStorage this w) key value.
Proof.
  unfold browserStorage_setItem. apply browserStorage_update_Persistent.
Qed.

(** The value stored under an entity key survives the update of an index
    kept under another key. *)
Lemma browserItem_addAccountKeyToMap key key' w :
  key' <> ACCOUNT_KEYS ->
  browserItem this (addAccountKeyToMap this key w) key'
  = browserItem this w key'.
Proof.
  intros Hne. unfold addAccountKeyToMap.
  destruct (JS.Array_indexOf _ _); [reflexivity|].
  rewrite browserItem_setItem.
  destruct (String.eqb_spec ACCOUNT_KEYS key'); [congruence | reflexivity].
Qed.

Lemma browserItem_writeTokenKeys t key' w :
  key' <> tokenKeysSlot this ->
  browserItem this (writeTokenKeys this t w) key' = browserItem this w key'.
Proof.
  intros Hne. unfold writeTokenKeys. rewrite browserItem_setItem.
  destruct (String.eqb_spec (tokenKeysSlot this) key');
    [congruence | reflexivity].
Qed.

Lemma credential_set_get isEntity type key credential w :
  indexed type ->
  key <> tokenKeysSlot this ->
  roundTrips credential ->
  json_isObject credential = true ->
  isEntity credential = true ->
  exists w1,
    setCredential this type key credential w = (Ok tt, w1)
    /\ getCredential this isEntity type key w1 = (Ok (Some credential), w1)
    /\ In key (category type (getTokenKeys this w1))
    /\ (forall other,
           other <> key -> other <> tokenKeysSlot this ->
           browserItem this w1 other = browserItem this w other).
Proof.
  intros Hidx Hne Hjson Hobj Hentity.
  set (w0 := browserStorage_setItem this key (JSON_stringify credential) w).
  set (t := withCategory type (fun keys => pushKey keys key)
              (getTokenKeys this w0)).
  exists (writeTokenKeys this t w0).
  assert (Hitem : browserItem this (writeTokenKeys this t w0) key
                  = Some (JSON_stringify credential)).
  { rewrite browserItem_writeTokenKeys by assumption. unfold w0.
    now rewrite browserItem_setItem, String.eqb_refl. }
  split; [|split; [|split]].
  - unfold setCredential, bind, exec.
    change (updateStorage this Persistent
              (fun s => setUserData s key (JSON_stringify credential)) w)
      with w0.
    now rewrite (addTokenKey_writes this key type w0 Hidx).
  - unfold getCredential. rewrite bind_eval.
    change (getUserData (browserStorage this (writeTokenKeys this t w0)) key)
      with (browserItem this (writeTokenKeys this t w0) key).
    rewrite Hitem, (nonEmpty_stringify laws).
    now rewrite (validateAndParseJson_stringify _ Hjson Hobj), Hentity.
  - rewrite (writeTokenKeys_current laws). unfold t.
    rewrite category_withCategory by assumption. apply In_pushKey.
  - intros other Ho Hs. rewrite browserItem_writeTokenKeys by assumption.
    unfold w0. rewrite browserItem_setItem.
    destruct (String.eqb_spec key other); [congruence | reflexivity].
Qed.

End EntityRoundTrip.

(** X9.  [setAccount] followed by [getAccount] under the same key returns
    the account and repairs nothing, the key is then listed in the account
    index, and no other entry of the persistent backend changes but the
    index slot; this for a key other than the index slot and an account
    object the entity check accepts and the JSON codec preserves. *)
Theorem getAccount_setAccount
    {host : Host} (laws : JsonLaws) (this : BrowserCacheManager)
    (key : string) (account : json) (w : World) :
  key <> ACCOUNT_KEYS ->
  roundTrips account ->
  json_isObject account = true ->
  isAccountEntity account = true ->
  getAccount this key (setAccount this key account w)
  = (Some account, setAccount this key account w)
  /\ In key (getAccountKeys this (setAccount this key account w))
  /\ (forall other,
         other <> key -> other <> ACCOUNT_KEYS ->
         browserItem this (setAccount this key account w) other
         = browserItem this w other).
Proof.
  intros Hne Hjson Hobj Hentity.
  assert (Hitem : forall other,
             other <> ACCOUNT_KEYS ->
             browserItem this (setAccount this key account w) other
             = if key =? other then Some (JSON_stringify account)
               else browserItem this w other).
  { intros other Ho. unfold setAccount.
    rewrite browserItem_addAccountKeyToMap by assumption.
    apply browserItem_setItem. }
  split; [|split].
  - unfold getAccount.
    change (getUserData (browserStorage this (setAccount this key account w))
              key)
      with (browserItem this (setAccount this key account w) key).
    rewrite (Hitem key Hne), String.eqb_refl, (nonEmpty_stringify laws).
    now rewrite (validateAndParseJson_stringify _ Hjson Hobj), Hentity.
  - unfold setAccount. rewrite (getAccountKeys_addAccountKeyToMap laws).
    apply In_pushKey.
  - intros other Ho Hs. rewrite (Hitem other Hs).
    destruct (String.eqb_spec key other); [congruence | reflexivity].
Qed.

Lemma getAccount_setAccount_witness :
  fst (getAccount (host := Demo.host) (Demo.manager false) Demo.accountKey
         (setAccount (host := Demo.host) (Demo.manager false) Demo.accountKey
            Demo.account emptyWorld))
  = Some Demo.account.
Proof.
  rewrite (proj1 (getAccount_setAccount (host := Demo.host) demo_laws
                    (Demo.manager false) Demo.accountKey Demo.account
                    emptyWorld
                    ltac:(vm_compute; discriminate)
                    ltac:(vm_compute; reflexivity)
                    ltac:(vm_compute; reflexivity)
                    ltac:(vm_compute; reflexivity))).
  reflexivity.
Defined.

(** X10.  Each of the three credential setters followed by the getter of the
    same category returns the credential without repairing the index, lists
    the key in that category of the token index, and leaves every other
    persistent entry but the index slot as it was; this for a key other than
    the token index slot and a credential object the category's entity check
    accepts and the JSON codec preserves. *)
Theorem credential_setters_then_getters
    {host : Host} {imports : Imports} (laws : JsonLaws)
    (this : BrowserCacheManager) (key : string) (credential : json)
    (w : World) :
  key <> tokenKeysSlot this ->
  roundTrips credential ->
  json_isObject credential = true ->
  (isIdTokenEntity credential = true ->
   exists w1,
     setIdTokenCredential this key credential w = (Ok tt, w1)
     /\ getIdTokenCredential this key w1 = (Ok (Some credential), w1)
     /\ In key (idToken (getTokenKeys this w1))
     /\ (forall other,
            other <> key -> other <> tokenKeysSlot this ->
            browserItem this w1 other = browserItem this w other))
  /\ (isAccessTokenEntity credential = true ->
      exists w1,
        setAccessTokenCredential this key credential w = (Ok tt, w1)
        /\ getAccessTokenCredential this key w1 = (Ok (Some credential), w1)
        /\ In key (accessToken (getTokenKeys this w1))
        /\ (forall other,
               other <> key -> other <> tokenKeysSlot this ->
               browserItem this w1 other = browserItem this w other))
  /\ (isRefreshTokenEntity credential = true ->
      exists w1,
        setRefreshTokenCredential this key credential w = (Ok tt, w1)
        /\ getRefreshTokenCredential this key w1 = (Ok (Some credential), w1)
        /\ In key (refreshToken (getTokenKeys this w1))
        /\ (forall other,
               other <> key -> other <> tokenKeysSlot this ->
               browserItem this w1 other = browserItem this w other)).
Proof.
  intros Hne Hjson Hobj. split; [|split]; intros Hentity.
  - apply (credential_set_get laws this isIdTokenEntity ID_TOKEN key credential
             w ltac:(discriminate) Hne Hjson Hobj Hentity).
  - apply (credential_set_get laws this isAccessTokenEntity ACCESS_TOKEN key
             credential w ltac:(discriminate) Hne Hjson Hobj Hentity).
  - apply (credential_set_get laws this isRefreshTokenEntity REFRESH_TOKEN key
             credential w ltac:(discriminate) Hne Hjson Hobj Hentity).
Qed.

Lemma credential_setters_then_getters_witness :
  exists w1,
    setIdTokenCredential (host := Demo.host) (Demo.manager false)
      (DemoImports.credentialKey "idtoken") (DemoImports.credential "IdToken")
      emptyWorld = (Ok tt, w1)
    /\ getIdTokenCredential (host := Demo.host) (Demo.manager false)
         (DemoImports.credentialKey "idtoken") w1
       = (Ok (Some (DemoImports.credential "IdToken")), w1).
Proof.
  destruct (proj1 (credential_setters_then_getters (host := Demo.host)
                     (imports := DemoImports.imports) demo_laws
                     (Demo.manager false)
                     (DemoImports.credentialKey "idtoken")
                     (DemoImports.credential "IdToken") emptyWorld
                     ltac:(vm_compute; discriminate)
                     ltac:(vm_compute; reflexivity)
                     ltac:(vm_compute; reflexivity))
              ltac:(vm_compute; reflexivity))
    as [w1 [set [get _]]].
  exists w1. split; assumption.
Defined.

(** X11.  App metadata, server telemetry and throttling entries read back
    what their setter stored under the same key, and a setter leaves the
    reads of the three getters at every other key unchanged; this for an
    entity object the shape check accepts for the key and the JSON codec
    preserves. *)
Theorem keyed_entities_read_back
    {host : Host} {imports : Imports} (laws : JsonLaws)
    (this : BrowserCacheManager) (key : string) (entity : json) (w : World) :
  roundTrips entity ->
  json_isObject entity = true ->
  (isAppMetadataEntity key entity = true ->
   getAppMetadata this key (setAppMetadata this key entity w) = Some entity)
  /\ (isServerTelemetryEntity key entity = true ->
      getServerTelemetry this key (setServerTelemetry this key entity w)
      = Some entity)
  /\ (isThrottlingEntity key entity = true ->
      getThrottlingCache this key (setThrottlingCache this key entity w)
      = Some entity)
  /\ (forall other,
         other <> key ->
         getAppMetadata this other (setThrottlingCache this key entity w)
         = getAppMetadata this other w
         /\ getServerTelemetry this other (setAppMetadata this key entity w)
            = getServerTelemetry this other w
         /\ getThrottlingCache this other (setServerTelemetry this key entity w)
            = getThrottlingCache this other w).
Proof.
  intros Hjson Hobj.
  unfold getAppMetadata, getServerTelemetry, getThrottlingCache,
    setAppMetadata, setServerTelemetry, setThrottlingCache.
  rewrite browserStorage_browserStorage_setItem.
  repeat split; intros;
    try (apply (getKeyedEntity_setItem laws); assumption);
    apply getKeyedEntity_setItem_other; congruence.
Qed.

Lemma keyed_entities_read_back_witness :
  getAppMetadata (host := Demo.host) (imports := DemoImports.imports)
    (Demo.manager false) DemoImports.appMetadataKey
    (setAppMetadata (host := Demo.host) (Demo.manager false)
       DemoImports.appMetadataKey DemoImports.appMetadata emptyWorld)
  = Some DemoImports.appMetadata.
Proof.
  apply (proj1 (keyed_entities_read_back (host := Demo.host)
                  (imports := DemoImports.imports) demo_laws
                  (Demo.manager false) DemoImports.appMetadataKey
                  DemoImports.appMetadata emptyWorld
                  ltac:(vm_compute; reflexivity)
                  ltac:(vm_compute; reflexivity))).
  vm_compute. reflexivity.
Defined.

(** ** In-memory metadata and the active account *)

Section Metadata.

Context {host : Host} {imports : Imports}.
Variable this : BrowserCacheManager.

Lemma internalStorage_updateInternal f w :
  internalStorage (updateInternal f w) = f (internalStorage w).
Proof. reflexivity. Qed.

Lemma nonEmpty_or_empty (value : string) :
  match JS.nonEmpty (Some value) with
  | Some v => v
  | None => ""
  end = value.
Proof.
  unfold JS.nonEmpty, JS.truthy.
  destruct (String.eqb_spec value ""); simpl; congruence.
Qed.

Lemma In_getKeys_setItem (s : Storage) key value :
  In key (getKeys (setItem s key value)).
Proof.
  apply getItem_In_getKeys. now rewrite getItem_setItem, String.eqb_refl.
Qed.

End Metadata.

(** X12.  [getWrapperMetadata] after [setWrapperMetadata(sku, version)]
    returns the pair [sku, version], empty strings included, when the two
    in-memory keys differ; the persistent and temporary backends and the
    cookies are not touched. *)
Theorem getWrapperMetadata_setWrapperMetadata
    {host : Host} {imports : Imports} (this : BrowserCacheManager)
    (wrapperSKU wrapperVersion : string) (w : World) :
  WRAPPER_SKU <> WRAPPER_VER ->
  getWrapperMetadata (setWrapperMetadata wrapperSKU wrapperVersion w)
  = (wrapperSKU, wrapperVersion)
  /\ browserStorage this (setWrapperMetadata wrapperSKU wrapperVersion w)
     = browserStorage this w
  /\ temporaryCacheStorage this
       (setWrapperMetadata wrapperSKU wrapperVersion w)
     = temporaryCacheStorage this w
  /\ cookieStorage (setWrapperMetadata wrapperSKU wrapperVersion w)
     = cookieStorage w.
Proof.
  intros Hne. split; [|split; [|split]].
  - unfold getWrapperMetadata, setWrapperMetadata.
    rewrite !internalStorage_updateInternal, !getItem_setItem.
    apply not_eq_sym in Hne. apply String.eqb_neq in Hne.
    rewrite Hne, !String.eqb_refl. now rewrite !nonEmpty_or_empty.
  - unfold setWrapperMetadata. now rewrite !browserStorage_updateInternal.
  - unfold setWrapperMetadata. now rewrite !temporaryCacheStorage_updateInternal.
  - reflexivity.
Qed.

Lemma getWrapperMetadata_setWrapperMetadata_witness :
  getWrapperMetadata (imports := DemoImports.imports)
    (setWrapperMetadata (imports := DemoImports.imports) "@azure/msal-react"
       "" emptyWorld)
  = ("@azure/msal-react", "").
Proof.
  apply (getWrapperMetadata_setWrapperMetadata (host := Demo.host)
           (imports := DemoImports.imports) (Demo.manager false)
           "@azure/msal-react" "" emptyWorld).
  vm_compute. discriminate.
Defined.

(** X13.  [getAuthorityMetadata] after [setAuthorityMetadata] under the same
    key returns the entity, for an entity object the shape check accepts for
    the key and the JSON codec preserves; the key is among
    [getAuthorityMetadataKeys] exactly when [isAuthorityMetadata] accepts
    it; and the entry lives in memory only: the persistent and temporary
    backends are not touched. *)
Theorem getAuthorityMetadata_setAuthorityMetadata
    {host : Host} {imports : Imports} (laws : JsonLaws)
    (this : BrowserCacheManager) (key : string) (entity : json) (w : World) :
  roundTrips entity ->
  json_isObject entity = true ->
  isAuthorityMetadataEntity key entity = true ->
  getAuthorityMetadata key (setAuthorityMetadata key entity w) = Some entity
  /\ (In key (getAuthorityMetadataKeys (setAuthorityMetadata key entity w))
      <-> isAuthorityMetadata key = true)
  /\ browserStorage this (setAuthorityMetadata key entity w)
     = browserStorage this w
  /\ temporaryCacheStorage this (setAuthorityMetadata key entity w)
     = temporaryCacheStorage this w.
Proof.
  intros Hjson Hobj Hentity. split; [|split; [|split]].
  - unfold getAuthorityMetadata, setAuthorityMetadata.
    rewrite internalStorage_updateInternal.
    now apply (getKeyedEntity_setItem laws).
  - unfold getAuthorityMetadataKeys, setAuthorityMetadata.
    rewrite internalStorage_updateInternal, filter_In. split.
    + now intros [_ H].
    + intros H. split; [apply In_getKeys_setItem | exact H].
  - apply browserStorage_updateInternal.
  - apply temporaryCacheStorage_updateInternal.
Qed.

Lemma getAuthorityMetadata_setAuthorityMetadata_witness :
  getAuthorityMetadata (host := Demo.host) (imports := DemoImports.imports)
    "authority-metadata-app-login.example.com"
    (setAuthorityMetadata (host := Demo.host)
       "authority-metadata-app-login.example.com" DemoImports.appMetadata
       emptyWorld)
  = Some DemoImports.appMetadata.
Proof.
  apply (getAuthorityMetadata_setAuthorityMetadata (host := Demo.host)
           (imports := DemoImports.imports) demo_laws (Demo.manager false)
           "authority-metadata-app-login.example.com" DemoImports.appMetadata
           emptyWorld
           ltac:(vm_compute; reflexivity)
           ltac:(vm_compute; reflexivity)
           ltac:(vm_compute; reflexivity)).
Defined.

(** X14.  After [setActiveAccount(null)] the active account reads as [null]
    and nothing is looked up; after [setActiveAccount(account)] the read is
    the account lookup filtered by exactly the account's home account id,
    local account id and tenant id, run on the world the setter left, when
    the JSON codec preserves the filter object. *)
Theorem getActiveAccount_setActiveAccount
    {host : Host} {imports : Imports} (laws : JsonLaws)
    (this : BrowserCacheManager) (w : World) :
  getActiveAccount this (setActiveAccount this None w)
  = (None, setActiveAccount this None w)
  /\ (forall account : AccountInfo,
         roundTrips (activeAccountFilters account) ->
         getActiveAccount this (setActiveAccount this (Some account) w)
         = getAccountInfoFilteredBy this
             {| filterHomeAccountId := Some (JStr (homeAccountId account));
                filterLocalAccountId := Some (JStr (localAccountId account));
                filterTenantId := Some (JStr (tenantId account)) |}
             (setActiveAccount this (Some account) w)).
Proof.
  split.
  - unfold getActiveAccount, setActiveAccount.
    change (getItem (browserStorage this ?w) ?k) with (browserItem this w k).
    now rewrite browserItem_removeItem, String.eqb_refl.
  - intros account Hjson. unfold getActiveAccount, setActiveAccount.
    change (getItem (browserStorage this ?w) ?k) with (browserItem this w k).
    rewrite browserItem_setItem, String.eqb_refl, (nonEmpty_stringify laws).
    rewrite (validateAndParseJson_stringify _ Hjson eq_refl).
    unfold activeAccountFilters, property. simpl.
    reflexivity.
Qed.

Lemma getActiveAccount_setActiveAccount_witness :
  let this := Demo.manager false in
  let w := setAccount (host := Demo.host) this Demo.accountKey Demo.account
             emptyWorld in
  fst (getActiveAccount (host := Demo.host) (imports := DemoImports.imports)
         this
         (setActiveAccount (host := Demo.host)
            (imports := DemoImports.imports) this (Some DemoImports.user) w))
  = Some DemoImports.user.
Proof.
  intros this w.
  rewrite (proj2 (getActiveAccount_setActiveAccount (host := Demo.host)
                    (imports := DemoImports.imports) demo_laws this w)
             DemoImports.user ltac:(vm_compute; reflexivity)).
  vm_compute. reflexivity.
Defined.

(** ** What [clear] and [cleanRequestByState] leave of the temporary cache *)

Section Namespace.

Context {host : Host}.
Variable this : BrowserCacheManager.

Lemma prefix_app (p s : string) : prefix p (p ++ s) = true.
Proof.
  induction p as [|c p IH]; simpl.
  - now destruct s.
  - destruct (ascii_dec c c); [exact IH | congruence].
Qed.

Lemma includes_startsWith (s p : string) :
  JS.startsWith s p = true -> JS.includes s p = true.
Proof.
  unfold JS.startsWith, JS.includes, JS.indexOf. intros H.
  destruct s as [|c s].
  - destruct p; [reflexivity | discriminate].
  - change (index 0 p (String c s))
      with (if prefix p (String c s) then Some 0
            else match index 0 p s with
                 | Some n => Some (S n)
                 | None => None
                 end).
    now rewrite H.
Qed.

Lemma startsWith_generateCacheKey key :
  validateAndParseJson key = None ->
  JS.startsWith (generateCacheKey this key) CACHE_PREFIX = true.
Proof.
  intros Hkey. unfold generateCacheKey. rewrite Hkey.
  destruct (JS.startsWith key CACHE_PREFIX) eqn:E; [exact E|].
  apply prefix_app.
Qed.

Lemma namespaced_generateCacheKey key :
  validateAndParseJson key = None ->
  namespaced this (generateCacheKey this key) = true.
Proof.
  intros Hkey. unfold namespaced.
  now rewrite (includes_startsWith _ _ (startsWith_generateCacheKey key Hkey)).
Qed.

Lemma namespaced_interactionStatusKey :
  namespaced this interactionStatusKey = true.
Proof.
  unfold namespaced, interactionStatusKey.
  now rewrite (includes_startsWith _ _ (prefix_app CACHE_PREFIX _)).
Qed.

Lemma getTemporaryCache_swept w1 key :
  storeAuthStateInCookie (cacheConfig this) = false ->
  namespaced this key = true ->
  getTemporaryCache this key false (swept this w1) = None.
Proof.
  intros Hcookie Hkey. rewrite getTemporaryCache_items, Hcookie.
  rewrite temporaryItem_swept, browserItem_swept, Hkey. simpl.
  now destruct (BrowserCacheLocation_eqb _ _).
Qed.

(** The temporary entries [setInteractionInProgress(false)] leaves alone. *)
Lemma temporaryItem_releaseLock_other key w :
  key <> interactionStatusKey ->
  temporaryItem this (releaseLock this w) key = temporaryItem this w key.
Proof.
  intros Hne. destruct (releaseLock_cases this w) as [[_ ->] | [_ ->]];
    [|reflexivity].
  rewrite temporaryItem_removeTemporaryItem.
  destruct (String.eqb_spec interactionStatusKey key);
    [congruence | reflexivity].
Qed.

Lemma listed_false keys key : ~ In key keys -> listed keys key = false.
Proof.
  intros H. destruct (listed keys key) eqn:E; [|reflexivity].
  now apply listed_In in E.
Qed.

End Namespace.

(** X15.  With the cookie option off, [clear()] returns normally and empties
    the temporary cache of the library: every key that contains the cache
    prefix or the client id, hence every key [generateCacheKey] builds from
    a name that is not JSON, reads as absent, the legacy fallback included;
    the interaction lock reads as free whoever held it; and the in-memory
    store holds no wrapper metadata and no authority metadata. *)
Theorem clear_frees_temporary_cache
    {host : Host} {imports : Imports} (laws : JsonLaws)
    (this : BrowserCacheManager) (w : World) :
  storeAuthStateInCookie (cacheConfig this) = false ->
  exists w',
    clear this w = (Ok tt, w')
    /\ (forall key, namespaced this key = true ->
          getTemporaryCache this key false w' = None)
    /\ (forall cacheKey, validateAndParseJson cacheKey = None ->
          getTemporaryCache this cacheKey true w' = None)
    /\ isInteractionInProgress this false w' = false
    /\ getWrapperMetadata w' = ("", "")
    /\ getAuthorityMetadataKeys w' = [].
Proof.
  intros Hcookie.
  destruct (removeAccountsAndMetadata laws this w) as [w1 [E1 _]].
  exists (swept this w1). split; [now apply clear_run|].
  split; [|split; [|split; [|split]]].
  - intros key Hkey. now apply getTemporaryCache_swept.
  - intros cacheKey Hkey. rewrite getTemporaryCache_generate.
    apply getTemporaryCache_swept; [assumption|].
    now apply namespaced_generateCacheKey.
  - unfold isInteractionInProgress, getInteractionInProgress.
    now rewrite (getTemporaryCache_swept this w1 _ Hcookie
                   (namespaced_interactionStatusKey this)).
  - reflexivity.
  - reflexivity.
Qed.

Lemma clear_frees_temporary_cache_witness :
  exists w',
    clear (host := Demo.host) (Demo.manager false)
      (Demo.world [] [(Demo.lockKey, "another-app")] []) = (Ok tt, w')
    /\ isInteractionInProgress (host := Demo.host) (Demo.manager false) false
         w' = false.
Proof.
  destruct (clear_frees_temporary_cache (host := Demo.host)
              (imports := DemoImports.imports) demo_laws (Demo.manager false)
              (Demo.world [] [(Demo.lockKey, "another-app")] []) eq_refl)
    as [w' [run [_ [_ [lock _]]]]].
  exists w'. split; assumption.
Defined.



(** X17.  After [updateCacheEntries(S, N, A, hint, account)], for a
    non-empty parseable [S] whose three derived keys are pairwise distinct,
    [cleanRequestByState(S)] does what [resetRequestCache(S)] does, and
    leaves no entry under the derived state, nonce and authority keys in the
    temporary backend, nor in the cookie jar when it is in use. *)
Theorem updateCacheEntries_then_cleanRequestByState
    {host : Host} (this : BrowserCacheManager)
    (state stateId nonce authorityInstance loginHint : string)
    (account : option AccountInfo) (w : World) :
  state <> "" ->
  requestStateId state = Ok stateId ->
  NoDup (derivedRequestKeys this stateId
           ++ [generateCacheKey this CCS_CREDENTIAL]) ->
  exists w1 w2,
    updateCacheEntries this state nonce authorityInstance loginHint account w
    = (Ok tt, w1)
    /\ cleanRequestByState this state w1 = (Ok tt, w2)
    /\ resetRequestCache this state w1 = (Ok tt, w2)
    /\ (forall key, In key (derivedRequestKeys this stateId) ->
          temporaryItem this w2 key = None
          /\ (storeAuthStateInCookie (cacheConfig this) = true ->
              cookieItem w2 key = None)).
Proof.
  intros Hne Hparse Hnd.
  set (sk := generateCacheKey this (REQUEST_STATE ++ "." ++ stateId)%string).
  set (nk := generateCacheKey this (NONCE_IDTOKEN ++ "." ++ stateId)%string).
  set (ak := generateCacheKey this (AUTHORITY ++ "." ++ stateId)%string).
  set (ck := generateCacheKey this CCS_CREDENTIAL).
  assert (D : sk <> nk /\ sk <> ak /\ sk <> ck).
  { unfold derivedRequestKeys in Hnd. fold sk nk ak ck in Hnd. simpl in Hnd.
    inversion Hnd as [|? ? H1 _]; subst. simpl in H1. intuition congruence. }
  destruct D as [Dsn [Dsa Dsc]].
  set (w3 := setTemporaryCache this ak authorityInstance false
               (setTemporaryCache this nk nonce false
                  (setTemporaryCache this sk state false w))).
  assert (Hstored : forall wf,
             (wf = w3 \/ exists v, wf = setTemporaryCache this ck v false w3) ->
             temporaryItem this wf sk = Some state).
  { assert (H3 : temporaryItem this w3 sk = Some state).
    { unfold w3. rewrite !temporaryItem_setTemporaryCache.
      destruct (String.eqb_spec ak sk); [congruence|].
      destruct (String.eqb_spec nk sk); [congruence|].
      now rewrite String.eqb_refl. }
    intros wf [-> | [v ->]]; [exact H3|].
    rewrite temporaryItem_setTemporaryCache.
    destruct (String.eqb_spec ck sk); [congruence | exact H3]. }
  destruct (updateCacheEntries_run this state stateId nonce authorityInstance
              loginHint account w Hparse) as [w1 [Hrun Hw1]].
  fold sk nk ak ck in Hw1. fold w3 in Hw1.
  specialize (Hstored w1 Hw1).
  exists w1. eexists.
  assert (Hreset := resetRequestCache_run this state stateId w1 Hne Hparse).
  split; [exact Hrun|]. split; [|split; [exact Hreset|]].
  - rewrite <- Hreset.
    rewrite (cleanRequestByState_stored this state stateId w1 Hne Hparse).
    fold sk. now rewrite Hstored, (nonEmpty_of_Some _ Hne).
  - intros key Hin.
    set (keys := scanned this state w1 ++ derivedRequestKeys this stateId
                   ++ genericRequestKeys this).
    assert (Hlisted : listed keys key = true).
    { apply listed_In. unfold keys. apply in_or_app. right.
      apply in_or_app. now left. }
    split.
    + apply temporaryItem_releaseLock_None.
      now rewrite temporaryItem_removeTemporaryItems, Hlisted.
    + intros Hcookie. apply cookieItem_releaseLock_None.
      now rewrite cookieItem_removeTemporaryItems, Hcookie, Hlisted.
Qed.

Lemma updateCacheEntries_then_cleanRequestByState_witness :
  exists w1 w2,
    updateCacheEntries (host := Demo.host) (Demo.manager true)
      Demo.redirectState "n-1" "https://login.example.com/contoso" "" None
      emptyWorld = (Ok tt, w1)
    /\ cleanRequestByState (host := Demo.host) (Demo.manager true)
         Demo.redirectState w1 = (Ok tt, w2)
    /\ temporaryItem (Demo.manager true) w2
         "msal.app.nonce.id_token.abc" = None.
Proof.
  destruct (updateCacheEntries_then_cleanRequestByState (host := Demo.host)
              (Demo.manager true) Demo.redirectState "abc" "n-1"
              "https://login.example.com/contoso" "" None emptyWorld
              ltac:(discriminate) eq_refl)
    as [w1 [w2 [update [clean [_ gone]]]]].
  - repeat constructor; simpl; intuition discriminate.
  - exists w1, w2. split; [exact update|]. split; [exact clean|].
    apply gone. vm_compute. right. left. reflexivity.
Defined.

(** ** Access tokens keyed by a claims hash *)

Section ClaimsSweep.

Context {host : Host} {imports : Imports}.
Hypothesis laws : JsonLaws.
Variable this : BrowserCacheManager.

Lemma getCredential_stored isEntity type key wc :
  indexed type ->
  getCredential this isEntity type key wc
  = match storedEntity this isEntity wc key with
    | Some credential => (Ok (Some credential), wc)
    | None =>
        (Ok None,
         writeTokenKeys this
           (withCategory type (removeFirst key) (getTokenKeys this wc)) wc)
    end.
Proof.
  intros Hidx. unfold getCredential, storedEntity. rewrite bind_eval.
  change (getUserData (browserStorage this wc) key)
    with (browserItem this wc key).
  assert (Hdrop : (removeTokenKey this key type ;; ret None) wc
                  = (Ok (@None json),
                     writeTokenKeys this
                       (withCategory type (removeFirst key)
                          (getTokenKeys this wc)) wc)).
  { unfold bind. now rewrite (removeTokenKey_writes this key type wc Hidx). }
  destruct (JS.nonEmpty (browserItem this wc key)) as [value|]; [|exact Hdrop].
  destruct (validateAndParseJson value) as [parsed|]; [|exact Hdrop].
  destruct (isEntity parsed); [reflexivity | exact Hdrop].
Qed.

Lemma removeFirst_app_absent key (a rest : list string) :
  ~ In key a -> removeFirst key (a ++ key :: rest) = a ++ rest.
Proof.
  induction a as [|y a IH]; simpl; intros Hin.
  - now rewrite String.eqb_refl.
  - destruct (String.eqb_spec y key) as [->|Hne].
    + exfalso. apply Hin. now left.
    + f_equal. apply IH. intros H. apply Hin. now right.
Qed.

Lemma listed_snoc keys k key :
  listed (keys ++ [k]) key = listed keys key || (k =? key).
Proof. rewrite listed_app. simpl. now rewrite orb_false_r. Qed.

Variable w : World.

(** The index after a visited key was dropped from it. *)
Lemma claimsSwept_drop done k rest wc wc0 :
  k <> tokenKeysSlot this ->
  kept this w k = false ->
  claimsSwept this w done (k :: rest) wc ->
  getTokenKeys this wc0 = getTokenKeys this wc ->
  (forall key, key <> tokenKeysSlot this ->
     browserItem this wc0 key
     = if listed (done ++ [k]) key && keyedByClaims this w key then None
       else browserItem this w key) ->
  claimsSwept this w (done ++ [k]) rest
    (writeTokenKeys this
       (withCategory ACCESS_TOKEN (removeFirst k) (getTokenKeys this wc0)) wc0).
Proof.
  intros Hslot Hkept [Ha [Hi [Hr _]]] Hkeys Hitems.
  unfold claimsSwept. rewrite (writeTokenKeys_current laws), Hkeys. simpl.
  split; [|split; [exact Hi | split; [exact Hr|]]].
  - rewrite Ha, filter_app. simpl. rewrite Hkept, app_nil_r.
    apply removeFirst_app_absent. intros Hin. apply filter_In in Hin.
    destruct Hin as [_ Hin]. congruence.
  - intros key Hkey. rewrite browserItem_writeTokenKeys by assumption.
    now apply Hitems.
Qed.

Lemma claimsSwept_keep done k rest wc :
  kept this w k = true ->
  claimsSwept this w done (k :: rest) wc ->
  claimsSwept this w (done ++ [k]) rest wc.
Proof.
  intros Hkept [Ha [Hi [Hr Hitems]]].
  split; [|split; [exact Hi | split; [exact Hr|]]].
  - rewrite Ha, filter_app. simpl. rewrite Hkept. now rewrite <- app_assoc.
  - intros key Hkey. rewrite (Hitems key Hkey), listed_snoc.
    destruct (String.eqb_spec k key) as [<-|_]; [|now rewrite orb_false_r].
    unfold kept in Hkept. unfold keyedByClaims.
    destruct (claimsVerdict this w k); try discriminate.
    now rewrite !andb_false_r.
Qed.

Lemma storedEntity_item isEntity wc key :
  browserItem this wc key = browserItem this w key ->
  storedEntity this isEntity wc key = storedEntity this isEntity w key.
Proof. unfold storedEntity. now intros ->. Qed.

Lemma storedEntity_None isEntity wc key :
  browserItem this wc key = None -> storedEntity this isEntity wc key = None.
Proof. unfold storedEntity. now intros ->. Qed.

(** One visit, by what the key holds when it is reached. *)
Lemma clearTokenWithClaims_verdict k wc :
  storedEntity this isAccessTokenEntity wc k
  = storedEntity this isAccessTokenEntity w k ->
  clearTokenWithClaims this k wc
  = match claimsVerdict this w k with
    | Unreadable =>
        (Ok tt,
         writeTokenKeys this
           (withCategory ACCESS_TOKEN (removeFirst k) (getTokenKeys this wc))
           wc)
    | Kept => (Ok tt, wc)
    | KeyedByClaims => removeAccessToken this k wc
    | BadHash => (Throw TypeError, wc)
    end.
Proof.
  intros Hstored.
  assert (Hidx : indexed ACCESS_TOKEN) by discriminate.
  unfold clearTokenWithClaims, getAccessTokenCredential, claimsVerdict.
  unfold bind at 1.
  rewrite (getCredential_stored isAccessTokenEntity ACCESS_TOKEN k wc Hidx).
  rewrite Hstored.
  destruct (storedEntity this isAccessTokenEntity w k) as [credential|];
    [|reflexivity].
  destruct (property "requestedClaimsHash" credential) as [h|]; [|reflexivity].
  destruct (json_truthy h); [|reflexivity].
  destruct h as [|b|n|s|items|fields]; try reflexivity.
  now destruct (JS.includes k (toLowerCase s)).
Qed.

Lemma removeAccessToken_run k wc :
  k <> tokenKeysSlot this ->
  removeAccessToken this k wc
  = (Ok tt,
     writeTokenKeys this
       (withCategory ACCESS_TOKEN (removeFirst k) (getTokenKeys this wc))
       (browserStorage_removeItem this k wc)).
Proof.
  intros Hslot. assert (Hidx : indexed ACCESS_TOKEN) by discriminate.
  unfold removeAccessToken, CacheManager_removeEntity, removeItem_.
  unfold bind, exec.
  rewrite (removeTokenKey_writes this k ACCESS_TOKEN _ Hidx).
  rewrite getTokenKeys_removeItem.
  destruct (String.eqb_spec k (tokenKeysSlot this)); [congruence | reflexivity].
Qed.

(** One visit of the sweep: the key is dropped from the index unless it
    is kept, its entry is removed when the key contains the claims hash, and
    a claims hash that is not a string throws before anything is written. *)
Lemma clearTokenWithClaims_step done k rest wc :
  k <> tokenKeysSlot this ->
  claimsSwept this w done (k :: rest) wc ->
  (badHash this w k = false ->
   exists wc',
     clearTokenWithClaims this k wc = (Ok tt, wc')
     /\ claimsSwept this w (done ++ [k]) rest wc')
  /\ (badHash this w k = true ->
      clearTokenWithClaims this k wc = (Throw TypeError, wc)).
Proof.
  intros Hslot Hinv. pose proof Hinv as [Ha [Hi [Hr Hitems]]].
  assert (Hidx : indexed ACCESS_TOKEN) by discriminate.
  pose proof (Hitems k Hslot) as Hitem.
  destruct (listed done k && keyedByClaims this w k) eqn:Evisited.
  - (* visited before, and removed then *)
    apply andb_prop in Evisited. destruct Evisited as [Hlisted Hkeyed].
    assert (Hkept : kept this w k = false).
    { unfold kept. unfold keyedByClaims in Hkeyed.
      now destruct (claimsVerdict this w k). }
    unfold clearTokenWithClaims, getAccessTokenCredential.
    unfold bind at 1.
    rewrite (getCredential_stored isAccessTokenEntity ACCESS_TOKEN k wc Hidx).
    rewrite (storedEntity_None _ _ _ Hitem).
    split.
    + intros _. eexists. split; [reflexivity|].
      apply (claimsSwept_drop done k rest wc wc Hslot Hkept Hinv eq_refl).
      intros key Hkey. rewrite (Hitems key Hkey), listed_snoc.
      destruct (String.eqb_spec k key) as [<-|_]; [|now rewrite orb_false_r].
      now rewrite Hlisted.
    + unfold badHash. unfold keyedByClaims in Hkeyed.
      destruct (claimsVerdict this w k); discriminate.
  - rewrite (clearTokenWithClaims_verdict k wc
               (storedEntity_item _ _ _ Hitem)).
    unfold badHash.
    destruct (claimsVerdict this w k) eqn:Ev.
    + (* unreadable *)
      split; [|discriminate]. intros _. eexists. split; [reflexivity|].
      apply (claimsSwept_drop done k rest wc wc Hslot); trivial.
      * unfold kept. now rewrite Ev.
      * intros key Hkey. rewrite (Hitems key Hkey), listed_snoc.
        destruct (String.eqb_spec k key) as [<-|_]; [|now rewrite orb_false_r].
        unfold keyedByClaims. now rewrite Ev, !andb_false_r.
    + (* kept *)
      split; [|discriminate]. intros _. eexists. split; [reflexivity|].
      apply claimsSwept_keep; [|exact Hinv]. unfold kept. now rewrite Ev.
    + (* the key contains the claims hash *)
      split; [|discriminate]. intros _.
      rewrite (removeAccessToken_run k wc Hslot).
      eexists. split; [reflexivity|].
      assert (Hkeys : getTokenKeys this (browserStorage_removeItem this k wc)
                      = getTokenKeys this wc).
      { rewrite getTokenKeys_removeItem.
        destruct (String.eqb_spec k (tokenKeysSlot this));
          [congruence | reflexivity]. }
      rewrite <- Hkeys.
      apply (claimsSwept_drop done k rest wc _ Hslot); trivial.
      * unfold kept. now rewrite Ev.
      * intros key Hkey. rewrite browserItem_removeItem, listed_snoc.
        destruct (String.eqb_spec k key) as [<-|_].
        -- unfold keyedByClaims. now rewrite Ev, orb_true_r.
        -- rewrite orb_false_r. now apply Hitems.
    + split; [discriminate | reflexivity].
Qed.

(** The sweep over the keys still to visit: it runs to the end when no key
    has a claims hash that is not a string, and stops at the first that
    has one, the keys before it swept. *)
Lemma clearTokenWithClaims_sweep rest :
  ~ In (tokenKeysSlot this) rest ->
  forall done wc,
    claimsSwept this w done rest wc ->
    (forallb (fun key => negb (badHash this w key)) rest = true ->
     exists w',
       forEach rest (clearTokenWithClaims this) wc = (Ok tt, w')
       /\ claimsSwept this w (done ++ rest) [] w')
    /\ (forall before k after,
          rest = before ++ k :: after ->
          forallb (fun key => negb (badHash this w key)) before = true ->
          badHash this w k = true ->
          exists w',
            forEach rest (clearTokenWithClaims this) wc = (Throw TypeError, w')
            /\ claimsSwept this w (done ++ before) (k :: after) w').
Proof.
  induction rest as [|k rest IH]; intros Hslot done wc Hinv.
  - split.
    + intros _. exists wc. split; [reflexivity|]. now rewrite app_nil_r.
    + intros [|? ?] ? ? H; discriminate.
  - assert (Hk : k <> tokenKeysSlot this).
    { intros ->. apply Hslot. now left. }
    assert (Hrest : ~ In (tokenKeysSlot this) rest).
    { intros H. apply Hslot. now right. }
    destruct (clearTokenWithClaims_step done k rest wc Hk Hinv)
      as [Hgood Hbad].
    split.
    + simpl. intros Hall. apply andb_prop in Hall. destruct Hall as [Hb Hall].
      apply negb_true_iff in Hb.
      destruct (Hgood Hb) as [wc' [Hrun Hinv']].
      destruct (proj1 (IH Hrest (done ++ [k]) wc' Hinv') Hall)
        as [w' [Hrun' Hfinal]].
      exists w'. split.
      * now rewrite (bind_run _ _ _ _ tt Hrun).
      * now rewrite <- app_assoc in Hfinal.
    + intros before k' after Hsplit Hall Hk'.
      destruct before as [|b before]; simpl in Hsplit;
        injection Hsplit as <- ->.
      * exists wc. split.
        -- simpl. unfold bind. now rewrite (Hbad Hk').
        -- now rewrite app_nil_r.
      * simpl in Hall. apply andb_prop in Hall. destruct Hall as [Hb Hall].
        apply negb_true_iff in Hb.
        destruct (Hgood Hb) as [wc' [Hrun Hinv']].
        destruct (proj2 (IH Hrest (done ++ [k]) wc' Hinv') before k' after
                    eq_refl Hall Hk') as [w' [Hrun' Hfinal]].
        exists w'. split.
        -- simpl. now rewrite (bind_run _ _ _ _ tt Hrun).
        -- now rewrite <- app_assoc in Hfinal.
Qed.

Lemma claimsSwept_start :
  claimsSwept this w [] (accessToken (getTokenKeys this w)) w.
Proof. repeat split. Qed.

End ClaimsSweep.

(** X18.  When the token index slot is not itself listed as an access token
    and no readable access token has a truthy claims hash that is not a
    string, [clearTokensAndKeysWithClaims] returns normally; afterwards the
    access-token index lists, in order, exactly the keys whose token reads
    back and whose key does not contain its lower-cased claims hash; the
    id-token and refresh-token indexes are unchanged; and of the persistent
    entries other than the index slot, those of listed keys that contain
    their claims hash are removed and all others are unchanged. *)
Theorem clearTokensAndKeysWithClaims_sweeps
    {host : Host} {imports : Imports} (laws : JsonLaws)
    (this : BrowserCacheManager) (w : World) :
  ~ In (tokenKeysSlot this) (accessToken (getTokenKeys this w)) ->
  (forall key, In key (accessToken (getTokenKeys this w)) ->
     badHash this w key = false) ->
  exists w',
    clearTokensAndKeysWithClaims this w = (Ok tt, w')
    /\ accessToken (getTokenKeys this w')
       = filter (kept this w) (accessToken (getTokenKeys this w))
    /\ idToken (getTokenKeys this w') = idToken (getTokenKeys this w)
    /\ refreshToken (getTokenKeys this w') = refreshToken (getTokenKeys this w)
    /\ (forall key, key <> tokenKeysSlot this ->
          browserItem this w' key
          = if listed (accessToken (getTokenKeys this w)) key
               && keyedByClaims this w key
            then None else browserItem this w key).
Proof.
  intros Hslot Hgood.
  assert (Hall : forallb (fun key => negb (badHash this w key))
                   (accessToken (getTokenKeys this w)) = true).
  { apply forallb_forall. intros key Hin. now rewrite (Hgood key Hin). }
  destruct (proj1 (clearTokenWithClaims_sweep laws this w _ Hslot [] w
                     (claimsSwept_start this w)) Hall)
    as [w' [Hrun [Ha [Hi [Hr Hitems]]]]].
  simpl in Ha, Hitems. rewrite app_nil_r in Ha.
  exists w'. split; [|now repeat split].
  unfold clearTokensAndKeysWithClaims.
  now rewrite (bind_eval (getTokenKeys this)
                 (fun tokenKeys =>
                    forEach (accessToken tokenKeys)
                      (clearTokenWithClaims this)) w).
Qed.

(** X19.  [clearTokensAndKeysWithClaims] is not atomic: when the first
    readable access token with a truthy claims hash that is not a string is
    listed at [k], after keys [before], the call throws and leaves the keys
    of [before] swept, [k] and the keys after it still listed, and every
    persistent entry other than the index slot and the removed entries of
    [before] unchanged. *)
Theorem clearTokensAndKeysWithClaims_throws
    {host : Host} {imports : Imports} (laws : JsonLaws)
    (this : BrowserCacheManager) (w : World)
    (before after : list string) (k : string) :
  accessToken (getTokenKeys this w) = before ++ k :: after ->
  ~ In (tokenKeysSlot this) (before ++ k :: after) ->
  (forall key, In key before -> badHash this w key = false) ->
  badHash this w k = true ->
  exists w',
    clearTokensAndKeysWithClaims this w = (Throw TypeError, w')
    /\ accessToken (getTokenKeys this w')
       = filter (kept this w) before ++ k :: after
    /\ (forall key, key <> tokenKeysSlot this ->
          browserItem this w' key
          = if listed before key && keyedByClaims this w key
            then None else browserItem this w key).
Proof.
  intros Hkeys Hslot Hgood Hbad.
  assert (Hall : forallb (fun key => negb (badHash this w key)) before = true).
  { apply forallb_forall. intros key Hin. now rewrite (Hgood key Hin). }
  assert (Hstart : claimsSwept this w [] (before ++ k :: after) w).
  { rewrite <- Hkeys. apply claimsSwept_start. }
  destruct (proj2 (clearTokenWithClaims_sweep laws this w _ Hslot [] w Hstart)
              before k after eq_refl Hall Hbad)
    as [w' [Hrun [Ha [_ [_ Hitems]]]]].
  simpl in Ha, Hitems.
  exists w'. split; [|now split].
  unfold clearTokensAndKeysWithClaims.
  now rewrite (bind_eval (getTokenKeys this)
                 (fun tokenKeys =>
                    forEach (accessToken tokenKeys)
                      (clearTokenWithClaims this)) w), Hkeys.
Qed.

Lemma clearTokensAndKeysWithClaims_sweeps_witness :
  exists w',
    clearTokensAndKeysWithClaims (host := Demo.host)
      (imports := DemoImports.imports) (Demo.manager false)
      (Demo.world DemoImports.claimsStore [] []) = (Ok tt, w')
    /\ accessToken (getTokenKeys (host := Demo.host) (Demo.manager false) w')
       = [DemoImports.credentialKey "accesstoken"]
    /\ browserItem (Demo.manager false) w'
         DemoImports.claimsTokenKey = None.
Proof.
  destruct (clearTokensAndKeysWithClaims_sweeps (host := Demo.host)
              (imports := DemoImports.imports) demo_laws (Demo.manager false)
              (Demo.world DemoImports.claimsStore [] []))
    as [w' [run [access [_ [_ items]]]]].
  - vm_compute. intros [H|[H|[]]]; discriminate.
  - intros key Hin. vm_compute in Hin.
    destruct Hin as [<-|[<-|[]]]; vm_compute; reflexivity.
  - exists w'. split; [exact run|]. split.
    + rewrite access. vm_compute. reflexivity.
    + rewrite items by (vm_compute; discriminate). vm_compute. reflexivity.
Defined.

Lemma clearTokensAndKeysWithClaims_throws_witness :
  exists w',
    clearTokensAndKeysWithClaims (host := Demo.host)
      (imports := DemoImports.imports) (Demo.manager false)
      (Demo.world DemoImports.brokenClaimsStore [] []) = (Throw TypeError, w')
    /\ accessToken (getTokenKeys (host := Demo.host) (Demo.manager false) w')
       = [DemoImports.brokenClaimsTokenKey;
          DemoImports.credentialKey "accesstoken"].
Proof.
  destruct (clearTokensAndKeysWithClaims_throws (host := Demo.host)
              (imports := DemoImports.imports) demo_laws (Demo.manager false)
              (Demo.world DemoImports.brokenClaimsStore [] [])
              [DemoImports.claimsTokenKey]
              [DemoImports.credentialKey "accesstoken"]
              DemoImports.brokenClaimsTokenKey)
    as [w' [run [access _]]].
  - vm_compute. reflexivity.
  - vm_compute. intros [H|[H|[H|[]]]]; discriminate.
  - intros key Hin. vm_compute in Hin.
    destruct Hin as [<-|[]]; vm_compute; reflexivity.
  - vm_compute. reflexivity.
  - exists w'. split; [exact run|]. rewrite access. vm_compute. reflexivity.
Defined.

(** ** What the calls never write *)

Section Spares.

Context {host : Host} {imports : Imports}.
Variable this : BrowserCacheManager.
Variable view : World -> Storage.

Lemma spares_ret {A : Type} (a : A) : spares view (ret a).
Proof. intros w. reflexivity. Qed.

Lemma spares_throw {A : Type} (e : AuthError) : spares view (@throw A e).
Proof. intros w. reflexivity. Qed.

Lemma spares_eval {A : Type} (f : World -> A) : spares view (eval f).
Proof. intros w. reflexivity. Qed.

Lemma spares_liftR {A : Type} (r : Result A) : spares view (liftR r).
Proof. intros w. reflexivity. Qed.

Lemma spares_exec (f : World -> World) :
  (forall w, view (f w) = view w) -> spares view (exec f).
Proof. intros H w. apply H. Qed.

Lemma spares_bind {A B : Type} (c : M A) (k : A -> M B) :
  spares view c -> (forall a, spares view (k a)) -> spares view (bind c k).
Proof.
  intros Hc Hk w. unfold after, bind. specialize (Hc w). unfold after in Hc.
  destruct (c w) as [[a|e] w1]; simpl in *.
  - rewrite <- Hc. apply Hk.
  - exact Hc.
Qed.

Lemma spares_forEach (keys : list string) (f : string -> M unit) :
  (forall key, spares view (f key)) -> spares view (forEach keys f).
Proof.
  intros Hf. induction keys as [|key keys IH]; simpl.
  - apply spares_ret.
  - apply spares_bind; [apply Hf | intros _; exact IH].
Qed.

(** Splitting a call into its statements, down to the writes. *)
Ltac spare :=
  repeat match goal with
         | |- spares _ (ret _) => apply spares_ret
         | |- spares _ (throw _) => apply spares_throw
         | |- spares _ (eval _) => apply spares_eval
         | |- spares _ (liftR _) => apply spares_liftR
         | |- spares _ (bind _ _) => apply spares_bind; [|intros ?]
         | |- spares _ (forEach _ _) => apply spares_forEach; intros ?
         | |- spares _ (exec _) => apply spares_exec; intros ?
         | |- spares _ (if ?b then _ else _) => destruct b
         | |- spares _ (match ?x with _ => _ end) => destruct x
         end.

Section Temporary.

Hypothesis temporaryWrites :
  forall f w, view (updateStorage this Temporary f w) = view w.
Hypothesis cookieWrites :
  storeAuthStateInCookie (cacheConfig this) = true ->
  forall f w, view (updateCookies f w) = view w.

Lemma view_setTemporaryCache cacheKey value generateKey w :
  view (setTemporaryCache this cacheKey value generateKey w) = view w.
Proof.
  unfold setTemporaryCache, temporaryCacheStorage_setItem,
    cookieStorage_setItem.
  destruct (storeAuthStateInCookie (cacheConfig this)) eqn:E.
  - now rewrite (cookieWrites eq_refl), temporaryWrites.
  - apply temporaryWrites.
Qed.

Lemma view_removeTemporaryItem key w :
  view (removeTemporaryItem this key w) = view w.
Proof.
  unfold removeTemporaryItem, temporaryCacheStorage_removeItem,
    cookieStorage_removeItem.
  destruct (storeAuthStateInCookie (cacheConfig this)) eqn:E.
  - now rewrite (cookieWrites eq_refl), temporaryWrites.
  - apply temporaryWrites.
Qed.

Lemma spares_setInteractionInProgress inProgress :
  spares view (setInteractionInProgress this inProgress).
Proof.
  unfold setInteractionInProgress. destruct inProgress; spare;
    first [apply view_setTemporaryCache | apply view_removeTemporaryItem].
Qed.

Lemma spares_resetRequestCache state :
  spares view (resetRequestCache this state).
Proof.
  unfold resetRequestCache. spare;
    first [apply view_removeTemporaryItem
          | apply spares_setInteractionInProgress].
Qed.

Lemma spares_temporaryOnly call :
  temporaryOnly call = true -> spares view (perform this call).
Proof.
  destruct call; try discriminate; intros _; simpl.
  - spare. apply view_setTemporaryCache.
  - spare. apply view_removeTemporaryItem.
  - unfold updateCacheEntries. spare; apply view_setTemporaryCache.
  - apply spares_resetRequestCache.
  - unfold cleanRequestByState. spare. apply spares_resetRequestCache.
  - unfold cleanRequestByInteractionType. spare;
      first [apply spares_resetRequestCache
            | apply spares_setInteractionInProgress].
  - spare. apply view_setTemporaryCache.
  - unfold getCachedRequest. spare. apply view_removeTemporaryItem.
  - apply spares_setInteractionInProgress.
Qed.

End Temporary.

Section Persistent.

Hypothesis persistentWrites :
  forall f w, view (updateStorage this Persistent f w) = view w.

Lemma view_browserStorage_setItem key value w :
  view (browserStorage_setItem this key value w) = view w.
Proof. apply persistentWrites. Qed.

Lemma view_browserStorage_removeItem key w :
  view (browserStorage_removeItem this key w) = view w.
Proof. apply persistentWrites. Qed.

Lemma view_addAccountKeyToMap key w :
  view (addAccountKeyToMap this key w) = view w.
Proof.
  unfold addAccountKeyToMap. destruct (JS.Array_indexOf _ _);
    [reflexivity | apply persistentWrites].
Qed.

Lemma view_removeAccountKeyFromMap key w :
  view (removeAccountKeyFromMap this key w) = view w.
Proof.
  unfold removeAccountKeyFromMap. destruct (JS.Array_indexOf _ _);
    [apply persistentWrites | reflexivity].
Qed.

Lemma view_removeAccount key w : view (removeAccount this key w) = view w.
Proof.
  unfold removeAccount, CacheManager_removeEntity, removeItem_.
  now rewrite view_removeAccountKeyFromMap, view_browserStorage_removeItem.
Qed.

Lemma spares_addTokenKey key type : spares view (addTokenKey this key type).
Proof. unfold addTokenKey. spare. apply persistentWrites. Qed.

Lemma spares_removeTokenKey key type :
  spares view (removeTokenKey this key type).
Proof. unfold removeTokenKey. spare. apply persistentWrites. Qed.

Lemma spares_setCredential type key credential :
  spares view (setCredential this type key credential).
Proof.
  unfold setCredential. spare;
    [apply persistentWrites | apply spares_addTokenKey].
Qed.

Lemma spares_getCredential isEntity type key :
  spares view (getCredential this isEntity type key).
Proof. unfold getCredential. spare; apply spares_removeTokenKey. Qed.

Lemma spares_removeToken key type :
  spares view
    (exec (CacheManager_removeEntity this key) ;; removeTokenKey this key type).
Proof.
  spare; [apply persistentWrites | apply spares_removeTokenKey].
Qed.

Lemma spares_removeAllAccounts : spares view (removeAllAccounts this).
Proof.
  unfold removeAllAccounts, removeAccountContext. spare;
    first [apply spares_removeToken | apply view_removeAccount].
Qed.

Lemma spares_clearTokensAndKeysWithClaims :
  spares view (clearTokensAndKeysWithClaims this).
Proof.
  unfold clearTokensAndKeysWithClaims, clearTokenWithClaims. spare;
    first [apply spares_getCredential | apply spares_removeToken].
Qed.

Lemma view_getAccount accountKey w :
  view (snd (getAccount this accountKey w)) = view w.
Proof.
  unfold getAccount.
  destruct (JS.nonEmpty _); [|apply view_removeAccountKeyFromMap].
  destruct (validateAndParseJson _); [|apply view_removeAccountKeyFromMap].
  destruct (isAccountEntity _);
    [reflexivity | apply view_removeAccountKeyFromMap].
Qed.

Lemma spares_persistentOnly call :
  (call = DoGetActiveAccount -> lookupSpares this view) ->
  persistentOnly call = true -> spares view (perform this call).
Proof.
  destruct call; try discriminate; simpl; intros lookup _;
    try match goal with
        | |- spares _ (exec _) => apply spares_exec; intros w
        end.
  - unfold setAccount. now rewrite view_addAccountKeyToMap, persistentWrites.
  - apply view_getAccount.
  - apply view_removeAccount.
  - apply view_addAccountKeyToMap.
  - apply view_removeAccountKeyFromMap.
  - apply spares_addTokenKey.
  - apply spares_removeTokenKey.
  - apply (spares_setCredential ID_TOKEN).
  - apply (spares_setCredential ACCESS_TOKEN).
  - apply (spares_setCredential REFRESH_TOKEN).
  - spare. apply spares_getCredential.
  - spare. apply spares_getCredential.
  - spare. apply spares_getCredential.
  - apply spares_removeToken.
  - apply spares_removeToken.
  - apply spares_removeToken.
  - apply persistentWrites.
  - apply persistentWrites.
  - apply persistentWrites.
  - unfold setActiveAccount. destruct account; apply persistentWrites.
  - unfold getActiveAccount. destruct (JS.nonEmpty _); [|reflexivity].
    destruct (validateAndParseJson _); [|reflexivity].
    apply (lookup eq_refl).
  - apply persistentWrites.
  - apply spares_clearTokensAndKeysWithClaims.
Qed.

End Persistent.

Section EveryCall.

Hypothesis temporaryWrites :
  forall f w, view (updateStorage this Temporary f w) = view w.
Hypothesis cookieWrites :
  storeAuthStateInCookie (cacheConfig this) = true ->
  forall f w, view (updateCookies f w) = view w.
Hypothesis persistentWrites :
  forall f w, view (updateStorage this Persistent f w) = view w.

Lemma spares_clear :
  (forall f w, view (updateInternal f w) = view w) ->
  spares view (clear this).
Proof.
  intros memoryWrites. unfold clear, removeAppMetadata. spare;
    first [now apply spares_removeAllAccounts | apply persistentWrites
          | now apply view_removeTemporaryItem | apply memoryWrites].
Qed.

Lemma spares_perform call :
  (writesMemory call = true ->
   forall f w, view (updateInternal f w) = view w) ->
  (call = DoGetActiveAccount -> lookupSpares this view) ->
  spares view (perform this call).
Proof.
  intros memoryWrites lookup.
  destruct (temporaryOnly call) eqn:Et; [now apply spares_temporaryOnly|].
  destruct (writesMemory call) eqn:Em;
    [|apply spares_persistentOnly;
      [assumption | assumption | unfold persistentOnly; now rewrite Et, Em]].
  destruct call; try discriminate; simpl.
  - apply spares_exec. intros w. apply (memoryWrites eq_refl).
  - apply spares_exec. intros w. unfold setWrapperMetadata.
    now rewrite !(memoryWrites eq_refl).
  - apply spares_clear. now apply memoryWrites.
Qed.

End EveryCall.

End Spares.

Section CachedRequestsDropped.

Context {host : Host}.
Variable this : BrowserCacheManager.

(** A temporary key among those a reset removes reads as absent after the
    reset, unless the persistent local storage holds an entry of its own. *)
Lemma getTemporaryCache_released keys key w :
  listed keys key = true ->
  legacyFree this w key ->
  getTemporaryCache this key false
    (releaseLock this (removeTemporaryItems this keys w)) = None.
Proof.
  intros Hlisted Hfree. rewrite getTemporaryCache_items.
  assert (Hcookie : storeAuthStateInCookie (cacheConfig this) = true ->
                    cookieItem
                      (releaseLock this (removeTemporaryItems this keys w)) key
                    = None).
  { intros Hc. apply cookieItem_releaseLock_None.
    now rewrite cookieItem_removeTemporaryItems, Hc, Hlisted. }
  assert (Htemp : temporaryItem this
                    (releaseLock this (removeTemporaryItems this keys w)) key
                  = None).
  { apply temporaryItem_releaseLock_None.
    now rewrite temporaryItem_removeTemporaryItems, Hlisted. }
  rewrite Htemp.
  destruct (storeAuthStateInCookie (cacheConfig this));
    [rewrite (Hcookie eq_refl)|]; simpl;
    (destruct (BrowserCacheLocation_eqb _ _) eqn:El; [|reflexivity]);
    (destruct (browserItem_releaseLock this key
                 (removeTemporaryItems this keys w)) as [-> | ->];
     [reflexivity|]);
    rewrite browserItem_removeTemporaryItems, Hlisted;
    (destruct (sharesMedium this) eqn:Es; [reflexivity|]); simpl;
    (apply Hfree; [|assumption]);
    now destruct (cacheLocation (cacheConfig this)).
Qed.

Lemma resetRequestCache_generic state w :
  (state <> "" -> exists stateId, requestStateId state = Ok stateId) ->
  exists keys,
    resetRequestCache this state w
    = (Ok tt, releaseLock this (removeTemporaryItems this keys w))
    /\ (forall key, In key (genericRequestKeys this) ->
          listed keys key = true).
Proof.
  intros Hparse. destruct (String.eqb_spec state "") as [->|Hne].
  - exists (genericRequestKeys this).
    split; [apply resetRequestCache_run_empty|].
    intros key Hin. now apply listed_In.
  - destruct (Hparse Hne) as [stateId Eparse].
    eexists. split; [exact (resetRequestCache_run this state stateId w Hne Eparse)|].
    intros key Hin. apply listed_In. apply in_or_app. right.
    apply in_or_app. now right.
Qed.

Lemma append_inv_head (p x y : string) : (p ++ x = p ++ y)%string -> x = y.
Proof.
  induction p as [|c p IH]; simpl; intros H; [exact H|].
  injection H as H. now apply IH.
Qed.

Lemma append_inv_tail (x y s : string) : (x ++ s = y ++ s)%string -> x = y.
Proof.
  revert y. induction x as [|c x IH]; intros [|d y] H; simpl in H.
  - reflexivity.
  - apply (f_equal String.length) in H. simpl in H.
    rewrite length_append in H. lia.
  - apply (f_equal String.length) in H. simpl in H.
    rewrite length_append in H. lia.
  - injection H as -> H. f_equal. now apply IH.
Qed.

End CachedRequestsDropped.

(** X20.  [resetRequestCache(state)], for the empty state or one whose
    request id can be read, invalidates the cached requests: unless the
    persistent local storage holds entries of its own under their keys,
    [getCachedNativeRequest] then returns null and every [getCachedRequest]
    throws [noTokenRequestCacheError], changing nothing. *)
Theorem resetRequestCache_drops_cached_requests
    {host : Host} (this : BrowserCacheManager) (state : string) (w : World) :
  (state <> "" -> exists stateId, requestStateId state = Ok stateId) ->
  legacyFree this w (generateCacheKey this REQUEST_PARAMS) ->
  legacyFree this w (generateCacheKey this NATIVE_REQUEST) ->
  exists w',
    resetRequestCache this state w = (Ok tt, w')
    /\ getCachedNativeRequest this w' = None
    /\ (forall s, getCachedRequest this s w'
                  = (Throw noTokenRequestCacheError, w')).
Proof.
  intros Hparse Hparams Hnative.
  destruct (resetRequestCache_generic this state w Hparse)
    as [keys [Hrun Hlisted]].
  eexists. split; [exact Hrun|]. split.
  - unfold getCachedNativeRequest. rewrite getTemporaryCache_generate.
    rewrite (getTemporaryCache_released this keys _ w); [reflexivity| |exact Hnative].
    apply Hlisted. unfold genericRequestKeys. simpl. tauto.
  - intros s. unfold getCachedRequest. rewrite bind_eval.
    rewrite getTemporaryCache_generate.
    rewrite (getTemporaryCache_released this keys _ w); [reflexivity| |exact Hparams].
    apply Hlisted. unfold genericRequestKeys. simpl. tauto.
Qed.

Lemma resetRequestCache_drops_cached_requests_witness :
  let this := Demo.manager true in
  let w := cacheCodeRequest (host := Demo.host) (imports := DemoImports.imports)
             this DemoImports.request emptyWorld in
  exists w',
    resetRequestCache (host := Demo.host) this "" w = (Ok tt, w')
    /\ getCachedRequest (host := Demo.host) this Demo.redirectState w'
       = (Throw noTokenRequestCacheError, w').
Proof.
  intros this w.
  destruct (resetRequestCache_drops_cached_requests (host := Demo.host) this
              "" w)
    as [w' [run [_ gone]]].
  - intros H. now destruct H.
  - intros _ _. vm_compute. reflexivity.
  - intros _ _. vm_compute. reflexivity.
  - exists w'. split; [exact run | apply gone].
Defined.

(** X21.  For a key that is not the JSON text of an object,
    [generateCacheKey] returns a key that starts with the cache prefix; a
    key that already starts with the prefix is returned as it is, the same
    for every client; any other key is qualified by the client id, so that
    clients with different ids get different keys; and generating again
    from a generated key that is not JSON gives the same key. *)
Theorem generateCacheKey_namespaces
    {host : Host} (this other : BrowserCacheManager) (key : string) :
  validateAndParseJson key = None ->
  JS.startsWith (generateCacheKey this key) CACHE_PREFIX = true
  /\ (JS.startsWith key CACHE_PREFIX = true ->
      generateCacheKey this key = key
      /\ generateCacheKey other key = key)
  /\ (JS.startsWith key CACHE_PREFIX = false ->
      clientId this <> clientId other ->
      generateCacheKey this key <> generateCacheKey other key)
  /\ (validateAndParseJson (generateCacheKey this key) = None ->
      generateCacheKey this (generateCacheKey this key)
      = generateCacheKey this key).
Proof.
  intros Hkey. split; [now apply startsWith_generateCacheKey|].
  split; [|split].
  - intros Hprefix. unfold generateCacheKey. now rewrite Hkey, Hprefix.
  - intros Hprefix Hne Heq. unfold generateCacheKey in Heq.
    rewrite Hkey, Hprefix in Heq.
    apply append_inv_head in Heq. apply append_inv_head in Heq.
    apply append_inv_tail in Heq. contradiction.
  - intros Hgen.
    pose proof (startsWith_generateCacheKey this key Hkey) as Hprefix.
    unfold generateCacheKey at 1. now rewrite Hgen, Hprefix.
Qed.

Lemma generateCacheKey_namespaces_witness :
  generateCacheKey (host := Demo.host) (Demo.manager false) "request.origin"
  <> generateCacheKey (host := Demo.host)
       (DEFAULT_BROWSER_CACHE_MANAGER "another-app") "request.origin".
Proof.
  apply (proj1 (proj2 (proj2 (generateCacheKey_namespaces (host := Demo.host)
                                (Demo.manager false)
                                (DEFAULT_BROWSER_CACHE_MANAGER "another-app")
                                "request.origin"
                                ltac:(vm_compute; reflexivity))))).
  - vm_compute. reflexivity.
  - vm_compute. discriminate.
Defined.

(** X22.  When [isInteractionInProgress(true)] holds, the lock is held by
    this client, the client id is not empty, and
    [isInteractionInProgress(false)] holds as well. *)
Theorem isInteractionInProgress_matching
    {host : Host} (this : BrowserCacheManager) (w : World) :
  isInteractionInProgress this true w = true ->
  getInteractionInProgress this w = Some (clientId this)
  /\ clientId this <> ""
  /\ isInteractionInProgress this false w = true.
Proof.
  unfold isInteractionInProgress. intros H.
  pose proof (getTemporaryCache_nonEmpty this interactionStatusKey false w)
    as Hn.
  fold (getInteractionInProgress this w) in Hn.
  destruct (getInteractionInProgress this w) as [id|]; [|discriminate].
  apply String.eqb_eq in H. subst id.
  apply nonEmpty_Some in Hn. destruct Hn as [_ Hne].
  split; [reflexivity|]. split; [exact Hne|]. now apply truthy_Some.
Qed.

Lemma isInteractionInProgress_matching_witness :
  isInteractionInProgress (host := Demo.host) (Demo.manager false) false
    (Demo.world [] [(Demo.lockKey, "app")] []) = true.
Proof.
  apply (isInteractionInProgress_matching (host := Demo.host)
           (Demo.manager false) (Demo.world [] [(Demo.lockKey, "app")] [])).
  vm_compute. reflexivity.
Defined.

(** The account lookup of the demonstration imports reads accounts through
    [getAccount]: it writes the persistent backend only. *)
Lemma firstAccount_spares (this : BrowserCacheManager)
    (view : World -> Storage) :
  (forall f w, view (updateStorage this Persistent f w) = view w) ->
  lookupSpares (imports := DemoImports.imports) this view.
Proof.
  intros persistentWrites filter w. simpl.
  generalize (getAccountKeys (host := Demo.host) this w) at 1.
  intros keys. revert w.
  induction keys as [|key keys IH]; intros w; [reflexivity|].
  simpl.
  pose proof (view_getAccount (host := Demo.host) this view persistentWrites
                key w) as Hread.
  destruct (getAccount this key w) as [account w1]. simpl in Hread.
  assert (Hrest : view (snd (DemoImports.firstAccount this filter keys w1))
                  = view w).
  { now rewrite IH. }
  destruct account as [[| | | | |fields]|]; try exact Hrest.
  destruct (DemoImports.matches _ _ && DemoImports.matches _ _
            && DemoImports.matches _ _); [|exact Hrest].
  destruct (field "homeAccountId" fields) as [[| | |h| |]|]; try exact Hrest.
  destruct (field "localAccountId" fields) as [[| | |l| |]|]; try exact Hrest.
  destruct (field "realm" fields) as [[| | |t| |]|]; try exact Hrest.
  exact Hread.
Qed.

(** X23.  With the cookie option off, no call of [Call] changes the cookie
    jar, whatever the call's outcome: the calls are the writing methods of
    the class but [initialize], [hydrateCache] and [saveCacheRecord], whose
    writes are made by code outside the repository, and [getActiveAccount]
    is covered when the inherited account lookup spares the jar. *)
Theorem cookies_off_spares_cookieStorage
    {host : Host} {imports : Imports} (this : BrowserCacheManager)
    (call : Call) :
  storeAuthStateInCookie (cacheConfig this) = false ->
  (call = DoGetActiveAccount -> lookupSpares this cookieStorage) ->
  spares cookieStorage (perform this call).
Proof.
  intros Hoff lookup. apply spares_perform.
  - intros f w. apply cookieStorage_updateStorage.
  - congruence.
  - intros f w. apply cookieStorage_updateStorage.
  - reflexivity.
  - exact lookup.
Qed.

Lemma cookies_off_spares_cookieStorage_witness :
  cookieStorage
    (after (perform (host := Demo.host) (imports := DemoImports.imports)
              (Demo.manager false) DoGetActiveAccount)
       (Demo.world [("msal.app.active-account-filters", "{}")]
          [("msal.app.request.origin", "/")]
          [("msal.app.request.origin", "/")]))
  = [("msal.app.request.origin", "/")].
Proof.
  apply (cookies_off_spares_cookieStorage (host := Demo.host)
           (imports := DemoImports.imports) (Demo.manager false)
           DoGetActiveAccount eq_refl).
  intros _. apply firstAccount_spares.
  intros f w. apply cookieStorage_updateStorage.
Defined.

(** X24.  A window storage that neither scope is configured on is not
    changed by a call of [Call]: the local storage when neither scope is
    [LocalStorage], the session storage when neither is [SessionStorage];
    [getActiveAccount] is covered when the inherited account lookup spares
    that storage.  ([initialize], [hydrateCache] and [saveCacheRecord] are
    not calls of [Call].) *)
Theorem unconfigured_storage_spared
    {host : Host} {imports : Imports} (this : BrowserCacheManager)
    (call : Call) :
  (cacheLocation (cacheConfig this) <> LocalStorage ->
   temporaryCacheLocation (cacheConfig this) <> LocalStorage ->
   (call = DoGetActiveAccount -> lookupSpares this localStorage) ->
   spares localStorage (perform this call))
  /\ (cacheLocation (cacheConfig this) <> SessionStorage ->
      temporaryCacheLocation (cacheConfig this) <> SessionStorage ->
      (call = DoGetActiveAccount -> lookupSpares this sessionStorage) ->
      spares sessionStorage (perform this call)).
Proof.
  split; intros Hp Ht lookup; apply spares_perform;
    try exact lookup;
    try (intros f w; unfold updateStorage, scopeLocation;
         destruct (cacheLocation (cacheConfig this));
         destruct (temporaryCacheLocation (cacheConfig this));
         try contradiction; reflexivity);
    reflexivity.
Qed.

Lemma unconfigured_storage_spared_witness :
  localStorage
    (after (perform (host := Demo.host) (imports := DemoImports.imports)
              (DEFAULT_BROWSER_CACHE_MANAGER "app") DoClear)
       (Demo.world Demo.accountStore [] []))
  = Demo.accountStore.
Proof.
  apply (proj1 (unconfigured_storage_spared (host := Demo.host)
                  (imports := DemoImports.imports)
                  (DEFAULT_BROWSER_CACHE_MANAGER "app") DoClear));
    discriminate.
Defined.

(** X25.  Of the calls of [Call], only [setAuthorityMetadata],
    [setWrapperMetadata] and [clear] write the in-memory store: every other
    one leaves it as it was, whatever the call's outcome, [getActiveAccount]
    when the inherited account lookup does.  ([initialize], [hydrateCache]
    and [saveCacheRecord] are not calls of [Call].) *)
Theorem internalStorage_spared
    {host : Host} {imports : Imports} (this : BrowserCacheManager)
    (call : Call) :
  writesMemory call = false ->
  (call = DoGetActiveAccount -> lookupSpares this internalStorage) ->
  spares internalStorage (perform this call).
Proof.
  intros Hcall lookup. apply spares_perform.
  - intros f w. apply internalStorage_updateStorage.
  - reflexivity.
  - intros f w. apply internalStorage_updateStorage.
  - congruence.
  - exact lookup.
Qed.

Lemma internalStorage_spared_witness :
  internalStorage
    (after (perform (host := Demo.host) (imports := DemoImports.imports)
              (Demo.manager true) (DoResetRequestCache ""))
       (setWrapperMetadata (imports := DemoImports.imports) "sku" "1.0"
          emptyWorld))
  = [("wrapper.sku", "sku"); ("wrapper.version", "1.0")].
Proof.
  apply (internalStorage_spared (host := Demo.host)
           (imports := DemoImports.imports) (Demo.manager true)
           (DoResetRequestCache "") eq_refl).
  discriminate.
Defined.

(** X26.  When the two scopes are not configured on the same window
    storage, the calls of [Call] that work on the temporary cache leave the
    persistent backend as it was, and those that work on the persistent
    backend leave the temporary backend and the cookie jar as they were,
    [getActiveAccount] when the inherited account lookup does.
    ([initialize], [hydrateCache] and [saveCacheRecord] are not calls of
    [Call].) *)
Theorem scopes_do_not_interfere
    {host : Host} {imports : Imports} (this : BrowserCacheManager)
    (call : Call) :
  sharesMedium this = false ->
  (temporaryOnly call = true ->
   spares (browserStorage this) (perform this call))
  /\ (persistentOnly call = true ->
      (call = DoGetActiveAccount ->
       lookupSpares this (temporaryCacheStorage this)
       /\ lookupSpares this cookieStorage) ->
      spares (temporaryCacheStorage this) (perform this call)
      /\ spares cookieStorage (perform this call)).
Proof.
  intros Hshared. split.
  - apply spares_temporaryOnly.
    + intros f w. now rewrite browserStorage_update_Temporary, Hshared.
    + intros _ f w. apply browserStorage_updateCookies.
  - intros Hcall lookup. split; apply spares_persistentOnly; trivial.
    + intros f w. now rewrite temporaryCacheStorage_update_Persistent, Hshared.
    + intros E. exact (proj1 (lookup E)).
    + intros f w. apply cookieStorage_updateStorage.
    + intros E. exact (proj2 (lookup E)).
Qed.

Lemma scopes_do_not_interfere_witness :
  browserStorage (Demo.manager true)
    (after (perform (host := Demo.host) (imports := DemoImports.imports)
              (Demo.manager true) (DoResetRequestCache ""))
       (Demo.world Demo.accountStore [] []))
  = Demo.accountStore.
Proof.
  apply (proj1 (scopes_do_not_interfere (host := Demo.host)
                  (imports := DemoImports.imports) (Demo.manager true)
                  (DoResetRequestCache "") eq_refl) eq_refl).
Defined.
